(** * Fashion product recommender: the recommendation pipeline of [app.py]

    A shallow embedding of the four pipeline functions of [app.py]
    ([get_recommendations], [recommend_similar_images],
    [get_combination_feedback], [recommend_complementary_products]) and of
    the helpers they call, with the properties of the specification stated
    and settled against them.

    Conventions.
    - Python text is modelled by the [string] of its UTF-8 bytes.  On
      these, comparison, search, replacement and the order of strings are
      those of the code points.  [str.strip] removes every character that
      [str.isspace] accepts, in its UTF-8 form.  [str.lower] lowers the
      letters A to Z: it is [str.lower] on text whose cased letters are
      ASCII; Python also lowers cased letters beyond ASCII (such as the
      Kelvin sign U+212A, which becomes k), and on text that holds one the
      [lower] of this file differs from the code's.
    - A call that can raise returns an [outcome]; [try]/[except] is
      [try_except].
    - A data frame is the list of its rows; after [reset_index(drop=True)]
      the label of a row is its position, and a selection keeps the labels,
      so a selected frame is a list of (label, row) pairs.
    - Functions of numpy, scikit-learn, PIL and the generative-model client
      are interfaces (type classes) with the part of their contract that the
      code relies on; instances are given further down. *)

From Stdlib Require Import String Ascii List Bool Arith ZArith QArith Lia.
From Stdlib Require Import Permutation Sorted DecimalString.
Import ListNotations.

Set Warnings "-register-all".
Open Scope string_scope.

(** ** Exceptions and outcomes *)

Inductive exn : Type :=
| IndexError
| AttributeError
| ValueError
| IOError
| JSONDecodeError.

Inductive outcome (A : Type) : Type :=
| Returned (a : A)
| Raised (e : exn).

Arguments Returned {A} a.
Arguments Raised {A} e.

Definition bind {A B : Type} (m : outcome A) (k : A -> outcome B) : outcome B :=
  match m with
  | Returned a => k a
  | Raised e => Raised e
  end.

Notation "x <- m ;; k" := (bind m (fun x => k))
  (at level 61, m at next level, right associativity).

(** [try: body except Exception: handler] *)
Definition try_except {A : Type} (body : outcome A) (handler : exn -> outcome A)
  : outcome A :=
  match body with
  | Returned a => Returned a
  | Raised e => handler e
  end.

Fixpoint mapM {A B : Type} (f : A -> outcome B) (l : list A) : outcome (list B) :=
  match l with
  | [] => Returned []
  | a :: l' => b <- f a ;; bs <- mapM f l' ;; Returned (b :: bs)
  end.

(** ** Text *)

Definition is_upper (c : ascii) : bool :=
  let n := nat_of_ascii c in (65 <=? n)%nat && (n <=? 90)%nat.

Definition ascii_lower (c : ascii) : ascii :=
  if is_upper c then ascii_of_nat (nat_of_ascii c + 32) else c.

(** [s.lower()] *)
Fixpoint lower (s : string) : string :=
  match s with
  | EmptyString => EmptyString
  | String c s' => String (ascii_lower c) (lower s')
  end.

(** [sub in s] *)
Fixpoint contains (sub s : string) : bool :=
  String.prefix sub s ||
  match s with
  | EmptyString => false
  | String _ s' => contains sub s'
  end.

Fixpoint has_upper (s : string) : bool :=
  match s with
  | EmptyString => false
  | String c s' => is_upper c || has_upper s'
  end.

(** ** Python values

    The values that [json.loads] builds; the verdict of the judge is a pair
    of them, handed on to the complementary filter. *)

Inductive pyval : Type :=
| PNone
| PBool (b : bool)
| PNum (lexeme : string)
| PStr (s : string)
| PList (l : list pyval)
| PDict (kvs : list (string * pyval)).

(** [v == s] for a string literal [s] *)
Definition eq_str (v : pyval) (s : string) : bool :=
  match v with
  | PStr t => String.eqb t s
  | _ => false
  end.

(** [v.lower()]: only [str] has the method *)
Definition lower_method (v : pyval) : outcome string :=
  match v with
  | PStr s => Returned (lower s)
  | _ => Raised AttributeError
  end.

(** ** Catalog *)

Record Product : Type := mkProduct {
  product_id : Z;
  filename : string;
  productDisplayName : string;
  baseColour : string;
  usage : string;
  subCategory : string;
  gender : string;
  combined_features : string
}.

Definition DataFrame : Type := list Product.

(** A selection of rows, each with its label. *)
Definition Selection (R : Type) : Type := list (nat * R).

Definition rows (data : DataFrame) : Selection Product :=
  combine (seq 0 (length data)) data.

(** [data[mask]] for a row-wise boolean mask *)
Definition mask (p : Product -> bool) (data : DataFrame) : Selection Product :=
  filter (fun ir => p (snd ir)) (rows data).

(** [sel.iloc[0]] *)
Definition iloc0 {R : Type} (sel : Selection R) : outcome R :=
  match sel with
  | [] => Raised IndexError
  | (_, r) :: _ => Returned r
  end.

(** [data['id'].isin(ids)] on one row *)
Definition isin (ids : list Z) (r : Product) : bool :=
  existsb (Z.eqb (product_id r)) ids.

(** The columns of the result:
    [['productDisplayName', 'baseColour', 'usage', 'subCategory', 'gender']] *)
Record Display : Type := mkDisplay {
  d_name : string;
  d_colour : string;
  d_usage : string;
  d_subCategory : string;
  d_gender : string
}.

Definition project (r : Product) : Display :=
  mkDisplay (productDisplayName r) (baseColour r) (usage r) (subCategory r)
            (gender r).

Definition project_sel (sel : Selection Product) : Selection Display :=
  map (fun ir => (fst ir, project (snd ir))) sel.

(** ** PIL *)

Class Imaging : Type := {
  Image : Type;
  (** [Image.open(path)] for a path given as text: an image, or an [IOError]
      ([None]) when the file is missing or is not an image. *)
  Image_open : string -> option Image
}.

Section Complementary.

Context {imaging : Imaging}.

(** [load_image_from_dataset]: the row lookup is outside the [try]. *)
Definition load_image_from_dataset (pid : Z) (dataframe : DataFrame)
  : outcome (option Image) :=
  file_path <- iloc0 (map (fun ir => (fst ir, filename (snd ir)))
                          (mask (fun r => Z.eqb (product_id r) pid) dataframe)) ;;
  Returned (Image_open file_path).

Definition color_keywords : list string := ["blue"; "white"; "black"; "red"].
Definition usage_keywords : list string := ["casual"; "formal"; "party"].

(** [next((k for k in keywords if k in ai_feedback), None)] *)
Definition extract (keywords : list string) (ai_feedback : string) : option string :=
  find (fun k => contains k ai_feedback) keywords.

(** The row predicate of the first branch. *)
Definition extracted_match (extracted_color extracted_usage selected_gender : string)
           (selected_details r : Product) : bool :=
  String.eqb (lower (baseColour r)) extracted_color &&
  String.eqb (lower (usage r)) extracted_usage &&
  String.eqb (lower (gender r)) selected_gender &&
  String.eqb (lower (subCategory r)) (lower (subCategory selected_details)).

(** The row predicate of the [else] branch. *)
Definition fallback_match (selected_gender : string) (selected_details r : Product)
  : bool :=
  String.eqb (baseColour r) (baseColour selected_details) &&
  String.eqb (usage r) (usage selected_details) &&
  String.eqb (gender r) selected_gender &&
  String.eqb (subCategory r) (subCategory selected_details).

(** The predicate that the call applies to the catalog rows. *)
Definition active_match (ai_feedback : string) (selected_details : Product)
  : Product -> bool :=
  let selected_gender := lower (gender selected_details) in
  match extract color_keywords ai_feedback, extract usage_keywords ai_feedback with
  | Some extracted_color, Some extracted_usage =>
      extracted_match extracted_color extracted_usage selected_gender selected_details
  | _, _ => fallback_match selected_gender selected_details
  end.

(** The [model] argument of the source is not used by the function. *)
Definition recommend_complementary_products
           (user_selected_product_ids : list Z) (decision reason : pyval)
           (data : DataFrame) : outcome (Selection Display) :=
  if eq_str decision "yes" then
    selected_images <-
      mapM (fun pid => load_image_from_dataset pid data) user_selected_product_ids ;;
    ai_feedback <- lower_method reason ;;
    selected_details <- iloc0 (mask (isin user_selected_product_ids) data) ;;
    let similar_products := mask (active_match ai_feedback selected_details) data in
    Returned (project_sel similar_products)
  else
    Returned [].

End Complementary.

(** ** Text of the judge's reply *)

(** [s.replace(old, new)] for a non-empty [old]: the occurrences are taken
    from the left and do not overlap; [skip] counts the characters of an
    occurrence that are still to be dropped. *)
Fixpoint replace_from (old new : string) (skip : nat) (s : string) : string :=
  match s with
  | EmptyString => EmptyString
  | String c s' =>
      match skip with
      | S k => replace_from old new k s'
      | O =>
          if String.prefix old s
          then new ++ replace_from old new (String.length old - 1) s'
          else String c (replace_from old new 0 s')
      end
  end.

Definition replace (old new s : string) : string := replace_from old new 0 s.

(** The characters that [str.isspace] accepts, and that [str.strip]
    removes, are U+0009 to U+000D, U+001C to U+0020, U+0085, U+00A0, U+1680,
    U+2000 to U+200A, U+2028, U+2029, U+202F, U+205F and U+3000.  In UTF-8
    the first two ranges are one byte each, U+0085 and U+00A0 are two bytes
    (194 133, 194 160), and the others are three bytes (225 154 128;
    226 128 128 to 226 128 138; 226 128 168; 226 128 169; 226 128 175;
    226 129 159; 227 128 128). *)
Definition is_space (c : ascii) : bool :=
  let n := nat_of_ascii c in
  ((9 <=? n)%nat && (n <=? 13)%nat) || ((28 <=? n)%nat && (n <=? 32)%nat).

Definition is_byte (n : nat) (c : ascii) : bool := (nat_of_ascii c =? n)%nat.

Definition is_space2 (c d : ascii) : bool :=
  is_byte 194 c && (is_byte 133 d || is_byte 160 d).

Definition is_space3 (c d e : ascii) : bool :=
  let n := nat_of_ascii e in
  (is_byte 225 c && is_byte 154 d && is_byte 128 e) ||
  (is_byte 226 c && is_byte 128 d &&
   (((128 <=? n)%nat && (n <=? 138)%nat) || (n =? 168)%nat || (n =? 169)%nat ||
    (n =? 175)%nat)) ||
  (is_byte 226 c && is_byte 129 d && is_byte 159 e) ||
  (is_byte 227 c && is_byte 128 d && is_byte 128 e).

(** [s.lstrip()]: the white-space characters at the start are dropped. *)
Fixpoint lstrip (s : string) : string :=
  match s with
  | EmptyString => EmptyString
  | String c s1 =>
      if is_space c then lstrip s1
      else
        match s1 with
        | EmptyString => s
        | String d s2 =>
            if is_space2 c d then lstrip s2
            else
              match s2 with
              | EmptyString => s
              | String e s3 => if is_space3 c d e then lstrip s3 else s
              end
        end
  end.

Definition string_rev (s : string) : string :=
  string_of_list_ascii (rev (list_ascii_of_string s)).

(** The same from the end, on the bytes in reverse: the last byte of a
    character comes first. *)
Fixpoint rstrip_rev (s : string) : string :=
  match s with
  | EmptyString => EmptyString
  | String e s1 =>
      if is_space e then rstrip_rev s1
      else
        match s1 with
        | EmptyString => s
        | String d s2 =>
            if is_space2 d e then rstrip_rev s2
            else
              match s2 with
              | EmptyString => s
              | String c s3 => if is_space3 c d e then rstrip_rev s3 else s
              end
        end
  end.

(** [s.rstrip()] *)
Definition rstrip (s : string) : string := string_rev (rstrip_rev (string_rev s)).

(** [s.strip()] *)
Definition strip (s : string) : string := rstrip (lstrip s).

(** [''.join(parts)] *)
Definition join (parts : list string) : string :=
  fold_right String.append EmptyString parts.

Definition fence_json : string := "```json".
Definition fence : string := "```".

(** The text handed to [json.loads]. *)
Definition cleaned_response (all_responses : list string) : string :=
  let concatenated_response := join all_responses in
  strip (replace fence "" (replace fence_json "" concatenated_response)).

(** [d.get(key, default)] on the pairs of a JSON object in source order: a
    repeated key keeps its last value. *)
Fixpoint dict_get (key : string) (kvs : list (string * pyval)) (default : pyval)
  : pyval :=
  match kvs with
  | [] => default
  | (k, v) :: kvs' => dict_get key kvs' (if String.eqb k key then v else default)
  end.

(** [v.get(key, default)]: only [dict] has the method *)
Definition get_method (v : pyval) (key : string) (default : pyval) : outcome pyval :=
  match v with
  | PDict kvs => Returned (dict_get key kvs default)
  | _ => Raised AttributeError
  end.

(** ** The json module and the generative-model client *)

Class Json : Type := {
  (** [json.loads(text)]: the value, or [None] for a [JSONDecodeError] *)
  json_loads : string -> option pyval
}.

Inductive Part {imaging : Imaging} : Type :=
| Text (s : string)
| Picture (img : Image).

Class GenerativeModel {imaging : Imaging} : Type := {
  (** [model.generate_content(contents, stream=True)] drained: the [text] of
      each streamed fragment, or the exception of the call or of a fragment *)
  generate_content : list Part -> outcome (list string)
}.

Section Judge.

Context {imaging : Imaging} {json : Json} {model : GenerativeModel}.

Definition loads (text : string) : outcome pyval :=
  match json_loads text with
  | Some v => Returned v
  | None => Raised JSONDecodeError
  end.

(** [Image.open(data[data['id'] == pid]['filename'].iloc[0])], outside any [try] *)
Definition open_selected (data : DataFrame) (pid : Z) : outcome Image :=
  file_path <- iloc0 (map (fun ir => (fst ir, filename (snd ir)))
                          (mask (fun r => Z.eqb (product_id r) pid) data)) ;;
  match Image_open file_path with
  | Some img => Returned img
  | None => Raised IOError
  end.

Definition decimal (n : nat) : string := NilEmpty.string_of_uint (Nat.to_uint n).

(** The parts added by [for i, img in enumerate(selected_images)], from index [i]. *)
Fixpoint product_parts (i : nat) (selected_images : list Image) : list Part :=
  match selected_images with
  | [] => []
  | img :: imgs =>
      Text ("Product " ++ decimal (i + 1) ++ ":") :: Picture img
        :: product_parts (S i) imgs
  end.

Definition question : string :=
  "Based on their style, color, material, and overall appearance, can these products be combined and look great? ( Note: two similar category of product cannot be combined for example if one is suppose tshirt and other is also topwear suppose tshirt ). Return in JSON with decision in either yes or no and reason:".

Definition build_contents (selected_images : list Image) : list Part :=
  Text "Here are images of the selected products:"
    :: product_parts 0 selected_images ++ [Text question].

(** The [try] block and its handler, on the drained fragments. *)
Definition parse_feedback (all_responses : list string) : outcome (pyval * pyval) :=
  try_except
    (response_json <- loads (cleaned_response all_responses) ;;
     decision <- get_method response_json "decision" (PStr "Unknown") ;;
     reason <- get_method response_json "reason" (PStr "No reason provided") ;;
     Returned (decision, reason))
    (fun e => Returned (PStr "Unknown", PStr "Response parsing error")).

Definition get_combination_feedback (user_selected_product_ids : list Z)
           (data : DataFrame) : outcome (pyval * pyval) :=
  selected_images <- mapM (open_selected data) user_selected_product_ids ;;
  let contents := build_contents selected_images in
  all_responses <- generate_content contents ;;
  parse_feedback all_responses.

End Judge.

(** ** numpy, scikit-learn and the fitted vectorizer

    An array of finite floats is a list of rationals (every finite float is
    one); a matrix is the list of its rows. *)

Definition Vector : Type := list Q.
Definition Matrix : Type := list Vector.

Class Numpy : Type := {
  (** [a.argsort()] and [np.argsort(a)] with the default [kind] *)
  argsort : Vector -> list nat
}.

Class Sklearn : Type := {
  (** [sklearn.metrics.pairwise.cosine_similarity(X, Y)] *)
  cosine_similarity : Matrix -> Matrix -> outcome Matrix
}.

Record TfidfVectorizer : Type := mkVectorizer {
  (** the terms of the columns, in column order *)
  vocabulary_ : list string;
  (** the terms of a document, after tokenising and stop-word removal *)
  analyzer : string -> list string;
  (** [vectorizer.transform(docs)], one row per document *)
  transform : list string -> Matrix
}.

Definition score_at (a : Vector) (i : nat) : Q := nth i a 0.

Definition all_zero (x : Vector) : Prop := Forall (fun c => c == 0) x.

Definition has_shape (rows_ cols : nat) (M : Matrix) : Prop :=
  length M = rows_ /\ Forall (fun row => length row = cols) M.

(** What the code relies on: [argsort] returns the positions of the array,
    each once, in an order along which the values do not decrease.  The
    default kind is an unstable sort: which of two positions with equal
    values comes first is not specified by numpy, and differs between its
    code paths, so the contract leaves it open. *)
Definition argsort_contract {np : Numpy} : Prop :=
  forall a,
    Permutation (argsort a) (seq 0 (length a)) /\
    StronglySorted (fun i j => score_at a i <= score_at a j) (argsort a).

(** A stable sort moreover keeps equal values in the order of their
    positions.  [np.argsort] with the default kind does not promise this,
    and no property of the code below assumes it; it is how the insertion
    sort of the examples is shown to sort. *)
Definition argsort_stable {np : Numpy} : Prop :=
  forall a,
    StronglySorted
      (fun i j => score_at a i < score_at a j \/
                  (score_at a i == score_at a j /\ (i < j)%nat))
      (argsort a).

(** [cosine_similarity] accepts two non-empty matrices with the same positive
    number of columns, returns one row per row of [X] and one column per row
    of [Y], and gives an all-zero row of [X] similarity 0 with everything. *)
Definition cosine_contract {sk : Sklearn} : Prop :=
  forall X Y n m d,
    (0 < n)%nat -> (0 < m)%nat -> (0 < d)%nat ->
    has_shape n d X -> has_shape m d Y ->
    exists K, cosine_similarity X Y = Returned K /\ has_shape n m K /\
              forall i x k, nth_error X i = Some x -> nth_error K i = Some k ->
                            all_zero x -> all_zero k.

Definition out_of_vocabulary (v : TfidfVectorizer) (doc : string) : Prop :=
  forall t, In t (analyzer v doc) -> ~ In t (vocabulary_ v).

(** A fitted vectorizer has a non-empty vocabulary, maps each document to a
    row over it, has no term for the empty document, and maps a document
    without any vocabulary term to the zero row. *)
Definition fitted (v : TfidfVectorizer) : Prop :=
  vocabulary_ v <> [] /\
  (forall docs, has_shape (length docs) (length (vocabulary_ v)) (transform v docs)) /\
  analyzer v "" = [] /\
  (forall doc, out_of_vocabulary v doc -> Forall all_zero (transform v [doc])).

(** [a[-n:]] for a positive [n] *)
Definition last_n {A : Type} (n : nat) (a : list A) : list A :=
  skipn (length a - n) a.

(** [a[:k]] for an integer [k]: a negative [k] counts from the end. *)
Definition slice_to {A : Type} (k : Z) (a : list A) : list A :=
  if (0 <=? k)%Z then firstn (Z.to_nat k) a
  else firstn (length a - Z.to_nat (- k)) a.

(** [a[i]] for a position [i] *)
Definition getitem {A : Type} (a : list A) (i : nat) : outcome A :=
  match nth_error a i with
  | Some x => Returned x
  | None => Raised IndexError
  end.

(** [data.iloc[indices]]: the rows at the positions, with their labels *)
Definition iloc (data : DataFrame) (indices : list nat) : outcome (Selection Product) :=
  mapM (fun i => r <- getitem data i ;; Returned (i, r)) indices.

Section Ranking.

Context {np : Numpy} {sk : Sklearn}.

Definition get_recommendations (user_input : string) (data : DataFrame)
           (vectorizer : TfidfVectorizer) (tfidf_matrix : Matrix)
  : outcome (Selection Product) :=
  let user_vector := transform vectorizer [user_input] in
  K <- cosine_similarity user_vector tfidf_matrix ;;
  let similarities := concat K in
  let indices := rev (last_n 50 (argsort similarities)) in
  iloc data indices.

Definition recommend_similar_images (input_embedding : Vector) (embeddings : Matrix)
           (image_paths : list string) (top_n : Z)
  : outcome (list (string * Q)) :=
  K <- cosine_similarity [input_embedding] embeddings ;;
  scores <- getitem K 0 ;;
  let recommended_indices := slice_to top_n (rev (argsort scores)) in
  mapM (fun i => p <- getitem image_paths i ;;
                 s <- getitem scores i ;;
                 Returned (p, s))
       recommended_indices.

(** The default [top_n=16]. *)
Definition default_top_n : Z := 16.

End Ranking.

(** The labels of a selection and their scores. *)
Definition labels {R : Type} (sel : Selection R) : list nat := map fst sel.

Definition non_increasing (l : list Q) : Prop :=
  StronglySorted (fun x y => y <= x) l.

(** ** The full frame, and the rest of the application

    [Product] holds the columns that the four pipeline functions read.  A
    [Row] of the frame adds the columns that only [load_data] and the pages
    of [main] read; the pipeline functions see the products of the frame. *)

Record Row : Type := mkRow {
  item : Product;
  masterCategory : string;
  articleType : string;
  Price : Q;
  (** the cell is NaN ([None]) where the CSV has no sizes *)
  SizeOption : option string;
  link : string
}.

Definition Frame : Type := list Row.

Definition products (data : Frame) : DataFrame := map item data.

Definition rows_of {R : Type} (data : list R) : Selection R :=
  combine (seq 0 (length data)) data.

(** [data[mask]] on a frame of any row type *)
Definition mask_of {R : Type} (p : R -> bool) (data : list R) : Selection R :=
  filter (fun ir => p (snd ir)) (rows_of data).

(** *** load_data *)

Class Pandas : Type := {
  (** [pd.read_csv(path)]: the frame, or the exception of the read *)
  read_csv : string -> outcome Frame
}.

(** [set(map(int, {'12347', '39403', '39401', '39410', '39425'}))] *)
Definition missing_ids : list Z := [12347; 39403; 39401; 39410; 39425]%Z.

(** [s.endswith(suffix)] *)
Definition endswith (suffix s : string) : bool :=
  String.prefix (string_rev suffix) (string_rev s).

(** [os.path.join(a, b)] of [posixpath]: an absolute [b] replaces [a]. *)
Definition path_join (a b : string) : string :=
  if String.prefix "/" b then b
  else if String.eqb a "" || endswith "/" a then a ++ b
  else a ++ "/" ++ b.

Definition set_filename (f : string) (r : Row) : Row :=
  let p := item r in
  mkRow (mkProduct (product_id p) f (productDisplayName p) (baseColour p)
                   (usage p) (subCategory p) (gender p) (combined_features p))
        (masterCategory r) (articleType r) (Price r) (SizeOption r) (link r).

(** The new [filename] cell: joined under the image directory, then [".jpg"]. *)
Definition image_filename (x : string) : string :=
  path_join "filtered_images/" x ++ ".jpg".

Section Loading.

Context {pandas : Pandas}.

(** [load_data]: the frame, or [None] after any exception. *)
Definition load_data : outcome (option Frame) :=
  try_except
    (df <- read_csv "fashion_data-_1_.csv" ;;
     let df1 := filter (fun r => String.eqb (masterCategory r) "Apparel") df in
     let df_filtered := filter (fun r => negb (isin missing_ids (item r))) df1 in
     Returned (Some (map (fun r => set_filename (image_filename (filename (item r))) r)
                         df_filtered)))
    (fun e => Returned None).

End Loading.

(** *** The search page *)

(** [str(x)] of a cell of the [SizeOption] column *)
Definition str_of_cell (x : option string) : string :=
  match x with
  | Some s => s
  | None => "nan"
  end.

(** [any(size in str(x) for size in size_filter) if size_filter else True] *)
Definition size_ok (size_filter : list string) (x : option string) : bool :=
  match size_filter with
  | [] => true
  | _ :: _ => existsb (fun size => contains size (str_of_cell x)) size_filter
  end.

(** [col.between(lo, hi)], both ends included *)
Definition between (x : Q) (lo hi : Z) : bool :=
  Qle_bool (inject_Z lo) x && Qle_bool x (inject_Z hi).

(** The conjunction of the three filters on one row. *)
Definition search_filter (gender_filter : list string) (price_range : Z * Z)
           (size_filter : list string) (r : Row) : bool :=
  existsb (String.eqb (gender (item r))) gender_filter &&
  between (Price r) (fst price_range) (snd price_range) &&
  size_ok size_filter (SizeOption r).

(** The rows of the frame behind a selection of its products: a selected
    row is found again under its label. *)
Definition full_rows (data : Frame) (sel : Selection Product) : Selection Row :=
  flat_map (fun ir => match nth_error data (fst ir) with
                      | Some r => [(fst ir, r)]
                      | None => []
                      end) sel.

Section Pages.

Context {imaging : Imaging} {json : Json} {model : GenerativeModel}
        {np : Numpy} {sk : Sklearn}.

(** What the Search button computes: [results]. *)
Definition search_results (user_query : string) (gender_filter : list string)
           (price_range : Z * Z) (size_filter : list string) (data : Frame)
           (vectorizer : TfidfVectorizer) (tfidf_matrix : Matrix)
  : outcome (Selection Row) :=
  let keep := search_filter gender_filter price_range size_filter in
  let filtered_data := mask_of keep data in
  if String.eqb (strip user_query) "" then
    Returned (firstn 300 filtered_data)
  else
    recommendations <- get_recommendations user_query (products data)
                                           vectorizer tfidf_matrix ;;
    Returned (filter (fun ir => keep (snd ir)) (full_rows data recommendations)).

(** [data[data['id'] == pid]['link'].iloc[0]] *)
Definition link_of (data : Frame) (pid : Z) : outcome string :=
  iloc0 (map (fun ir => (fst ir, link (snd ir)))
             (mask_of (fun r => Z.eqb (product_id (item r)) pid) data)).

(** What the outfit page shows below the two images. *)
Inductive Advice : Type :=
| Complementary (complementary_products : Selection Display)
| NoComplementary
| CannotCombine.

Inductive OutfitPage : Type :=
| Idle
| Judged (img1 img2 : string) (decision reason : pyval) (advice : Advice).

(** The outfit page for the selected identifiers. *)
Definition outfit_page (user_selected_product_ids : list Z) (data : Frame)
  : outcome OutfitPage :=
  match user_selected_product_ids with
  | [id0; id1] =>
      img1 <- link_of data id0 ;;
      img2 <- link_of data id1 ;;
      verdict <- get_combination_feedback user_selected_product_ids (products data) ;;
      let decision := fst verdict in
      let reason := snd verdict in
      if eq_str decision "yes" then
        complementary_products <-
          recommend_complementary_products user_selected_product_ids decision reason
                                           (products data) ;;
        match complementary_products with
        | _ :: _ => Returned (Judged img1 img2 decision reason
                                     (Complementary complementary_products))
        | [] => Returned (Judged img1 img2 decision reason NoComplementary)
        end
      else Returned (Judged img1 img2 decision reason CannotCombine)
  | _ => Returned Idle
  end.

End Pages.

(** *** The image page: one recommended image *)

Record Card : Type := mkCard {
  card_link : string;
  card_id : Z;
  card_name : string;
  card_price : Q;
  card_sizes : option string;
  card_score : Q
}.

(** [data[data['filename'] == path][column].iloc[0]] *)
Definition cell_by_filename {A : Type} (column : Row -> A) (data : Frame)
           (path : string) : outcome A :=
  iloc0 (map (fun ir => (fst ir, column (snd ir)))
             (mask_of (fun r => String.eqb (filename (item r)) path) data)).

Definition backslash_text : string := String (ascii_of_nat 92) EmptyString.

(** The lookups behind one recommended image. *)
Definition image_card (rec : string * Q) (data : Frame) : outcome Card :=
  let (rec_path, score) := rec in
  let normalized_rec_path := replace backslash_text "/" rec_path in
  link_ <- cell_by_filename link data normalized_rec_path ;;
  product_id_ <- cell_by_filename (fun r => product_id (item r)) data normalized_rec_path ;;
  product_name <- cell_by_filename (fun r => productDisplayName (item r)) data
                                   normalized_rec_path ;;
  product_price <- cell_by_filename Price data normalized_rec_path ;;
  product_sizes <- cell_by_filename SizeOption data normalized_rec_path ;;
  Returned (mkCard link_ product_id_ product_name product_price product_sizes score).

(** The cards written before the loop ends or a lookup raises, and the
    exception that the page's [except] then reports. *)
Fixpoint image_cards (recommendations : list (string * Q)) (data : Frame)
  : list Card * option exn :=
  match recommendations with
  | [] => ([], None)
  | rec :: recs =>
      match image_card rec data with
      | Returned card =>
          let (cards, e) := image_cards recs data in (card :: cards, e)
      | Raised e => ([], Some e)
      end
  end.


(** *** The image page: the label of the predicted class *)

(** One label more in a sorted list without repetition. *)
Fixpoint insert_class (x : string) (classes : list string) : list string :=
  match classes with
  | [] => [x]
  | y :: classes' =>
      match String.compare x y with
      | Lt => x :: classes
      | Eq => classes
      | Gt => y :: insert_class x classes'
      end
  end.

(** [le.fit(labels)]: [classes_] is [np.unique(labels)], the distinct labels
    in increasing order. *)
Definition fit (labels : list string) : list string :=
  fold_right insert_class [] labels.

(** [np.argmax(a)] from position [i] on, with the best value so far and its
    position: the first position of the greatest value. *)
Fixpoint argmax_from (best_i : nat) (best : Q) (i : nat) (a : Vector) : nat :=
  match a with
  | [] => best_i
  | x :: a' =>
      if negb (Qle_bool x best) then argmax_from i x (S i) a'
      else argmax_from best_i best (S i) a'
  end.

Definition argmax (a : Vector) : outcome nat :=
  match a with
  | [] => Raised ValueError
  | x :: a' => Returned (argmax_from 0 x 1 a')
  end.

(** [le.inverse_transform([y])[0]] *)
Definition inverse_transform (classes_ : list string) (y : nat) : outcome string :=
  match nth_error classes_ y with
  | Some label => Returned label
  | None => Raised ValueError
  end.

(** The label that the image page writes for the predictions of the model. *)
Definition predicted_label (predictions : Matrix) (data : Frame) : outcome string :=
  let classes_ := fit (map articleType data) in
  predicted_class <- argmax (concat predictions) ;;
  inverse_transform classes_ predicted_class.

(** ** Instances

    *** numpy: an argsort that meets the contract

    An insertion sort: each position, from the left, moves down past the
    positions whose value is strictly greater; [sorted_rev] holds the sorted
    prefix from its right end.  This is what the generic quicksort of numpy
    does on a short array, but not what every build of numpy does: the
    vectorised sort that recent builds select on x86 returns 3, 2, 1, 0 for
    the values 1, 1, 0, 0, where the insertion sort returns 2, 3, 0, 1.  So
    the instance is not the [argsort] of the code: it shows that the
    contract can be met, and it computes the examples, which are on the
    three values 1, 1, 0 and 0, 0, 0, where the results agree. *)

Definition Qltb (x y : Q) : bool := negb (Qle_bool y x).

Fixpoint insert_position (a : Vector) (vi : nat) (sorted_rev : list nat) : list nat :=
  match sorted_rev with
  | [] => [vi]
  | pk :: sorted_rev' =>
      if Qltb (score_at a vi) (score_at a pk)
      then pk :: insert_position a vi sorted_rev'
      else vi :: sorted_rev
  end.

Definition insertion_argsort (a : Vector) : list nat :=
  rev (fold_left (fun sorted_rev vi => insert_position a vi sorted_rev)
                 (seq 0 (length a)) []).

Definition numpy_insertion : Numpy := {| argsort := insertion_argsort |}.

(** *** scikit-learn: cosine similarity in rational arithmetic

    The rows are normalised as [sklearn.preprocessing.normalize] does (a row
    of norm 0 is left as it is) and multiplied.  The square root is taken to
    52 binary places, rounded down, and is exact on the square of a
    rational: the instance computes the cosine of the code where every row
    has a rational norm, as the rows of the examples have (norms 0, 1, 5 and
    10).  On a row of irrational norm it is not the float64 arithmetic of
    the code: the similarity of such a row with itself comes out just above
    1, and two scores that are equal for the code need not be equal here.
    The instance shows that the contract can be met; the properties of the
    code assume the contract only. *)

Definition dot (x y : Vector) : Q :=
  fold_right Qplus 0 (map (fun p => fst p * snd p) (combine x y)).

Definition Qsqrt (q : Q) : Q :=
  let r := Qred q in
  Z.sqrt (Qnum r * Zpos (Qden r) * 2 ^ 104) # (Qden r * 2 ^ 52).

Definition row_norm (x : Vector) : Q := Qsqrt (dot x x).

Definition l2_normalize (x : Vector) : Vector :=
  let n := row_norm x in
  let n := if Qeq_bool n 0 then 1 else n in
  map (fun c => Qred (c / n)) x.

Definition same_width (d : nat) (M : Matrix) : bool :=
  forallb (fun row => Nat.eqb (length row) d) M.

Definition check_pairwise_arrays (X Y : Matrix) : bool :=
  match X, Y with
  | x :: _, _ :: _ =>
      negb (Nat.eqb (length x) 0) && same_width (length x) X && same_width (length x) Y
  | _, _ => false
  end.

Definition cosine_similarity_Q (X Y : Matrix) : outcome Matrix :=
  if check_pairwise_arrays X Y then
    let X_normalized := map l2_normalize X in
    let Y_normalized := map l2_normalize Y in
    Returned (map (fun x => map (fun y => Qred (dot x y)) Y_normalized) X_normalized)
  else Raised ValueError.

Definition sklearn_Q : Sklearn := {| cosine_similarity := cosine_similarity_Q |}.

(** *** A fitted vectorizer: term counts

    Lower-cased tokens of two or more word characters, as the default token
    pattern has them, without the stop words; a row holds the count of each
    vocabulary term (every idf weight is 1, and the rows are left
    unnormalised: [cosine_similarity] normalises them). *)

Definition is_word_char (c : ascii) : bool :=
  let n := nat_of_ascii c in
  ((48 <=? n)%nat && (n <=? 57)%nat) || ((65 <=? n)%nat && (n <=? 90)%nat) ||
  ((97 <=? n)%nat && (n <=? 122)%nat) || (n =? 95)%nat.

Definition close_token (cur_rev : list ascii) (acc : list string) : list string :=
  if (2 <=? length cur_rev)%nat
  then string_of_list_ascii (rev cur_rev) :: acc
  else acc.

Fixpoint tokens_from (s : string) (cur_rev : list ascii) : list string :=
  match s with
  | EmptyString => close_token cur_rev []
  | String c s' =>
      if is_word_char c then tokens_from s' (c :: cur_rev)
      else close_token cur_rev (tokens_from s' [])
  end.

Definition mem (t : string) (l : list string) : bool := existsb (String.eqb t) l.

Definition count_analyzer (stop_words : list string) (doc : string) : list string :=
  filter (fun t => negb (mem t stop_words)) (tokens_from (lower doc) []).

Definition term_count (terms : list string) (t : string) : Q :=
  inject_Z (Z.of_nat (length (filter (String.eqb t) terms))).

Definition count_vectorizer (stop_words vocabulary : list string) : TfidfVectorizer :=
  {| vocabulary_ := vocabulary;
     analyzer := count_analyzer stop_words;
     transform := map (fun doc =>
                         map (term_count (count_analyzer stop_words doc)) vocabulary) |}.

(** *** PIL and the generative model, for the examples *)

(** Every path opens, to an image that is its path. *)
Definition imaging_paths : Imaging :=
  {| Image := string; Image_open := fun path => Some path |}.

(** A client that streams the given fragments whatever it is asked. *)
Definition model_replying (fragments : list string) : @GenerativeModel imaging_paths :=
  {| generate_content := fun _ => Returned fragments |}.

(** *** json: a decoder

    The grammar that [json.loads] accepts, by recursive descent: objects
    with string keys, arrays, strings with their escapes (a [\u] escape is
    stored in UTF-8), numbers (kept as their text), [true], [false], [null]
    and the three constants [NaN], [Infinity], [-Infinity].  The fuel is
    twice the length of the text, which is enough (see [json_decode_fuel]). *)

Definition dquote : ascii := ascii_of_nat 34.
Definition backslash : ascii := ascii_of_nat 92.

Definition is_json_ws (c : ascii) : bool :=
  let n := nat_of_ascii c in
  (n =? 32)%nat || (n =? 9)%nat || (n =? 10)%nat || (n =? 13)%nat.

Fixpoint skip_ws (s : string) : string :=
  match s with
  | EmptyString => EmptyString
  | String c s' => if is_json_ws c then skip_ws s' else s
  end.

Definition is_digit (c : ascii) : bool :=
  let n := nat_of_ascii c in (48 <=? n)%nat && (n <=? 57)%nat.

Fixpoint take_digits (s : string) : string * string :=
  match s with
  | EmptyString => (EmptyString, EmptyString)
  | String c s' =>
      if is_digit c
      then let (ds, r) := take_digits s' in (String c ds, r)
      else (EmptyString, s)
  end.

Fixpoint drop (n : nat) (s : string) : string :=
  match n, s with
  | S n', String _ s' => drop n' s'
  | _, _ => s
  end.

(** A number: an optional minus sign, then 0 or a digit string that does
    not start with 0, then an optional fraction (a point and digits) and an
    optional exponent (e or E, an optional sign, digits); an incomplete
    fraction or exponent is left unread. *)
Definition scan_integer (s : string) : option (string * string) :=
  match s with
  | String c r =>
      if Ascii.eqb c "0" then Some ("0", r)
      else if is_digit c then let (ds, r') := take_digits r in Some (String c ds, r')
      else None
  | EmptyString => None
  end.

Definition scan_fraction (s : string) : string * string :=
  match s with
  | String c r =>
      if Ascii.eqb c "." then
        match take_digits r with
        | (EmptyString, _) => (EmptyString, s)
        | (ds, r') => (String c ds, r')
        end
      else (EmptyString, s)
  | EmptyString => (EmptyString, s)
  end.

Definition scan_exponent (s : string) : string * string :=
  match s with
  | String e r =>
      if Ascii.eqb e "e" || Ascii.eqb e "E" then
        let (sign, r1) :=
          match r with
          | String g r' =>
              if Ascii.eqb g "-" || Ascii.eqb g "+"
              then (String g EmptyString, r') else (EmptyString, r)
          | EmptyString => (EmptyString, r)
          end in
        match take_digits r1 with
        | (EmptyString, _) => (EmptyString, s)
        | (ds, r2) => (String e (sign ++ ds), r2)
        end
      else (EmptyString, s)
  | EmptyString => (EmptyString, s)
  end.

Definition scan_number (s : string) : option (string * string) :=
  let (sign, s1) :=
    match s with
    | String c r => if Ascii.eqb c "-" then ("-", r) else (EmptyString, s)
    | EmptyString => (EmptyString, s)
    end in
  match scan_integer s1 with
  | None => None
  | Some (int, r) =>
      let (frac, r1) := scan_fraction r in
      let (exp, r2) := scan_exponent r1 in
      Some (sign ++ int ++ frac ++ exp, r2)
  end.

Definition hex_digit (c : ascii) : option N :=
  let n := N_of_ascii c in
  if (48 <=? n)%N && (n <=? 57)%N then Some (n - 48)%N
  else if (65 <=? n)%N && (n <=? 70)%N then Some (n - 55)%N
  else if (97 <=? n)%N && (n <=? 102)%N then Some (n - 87)%N
  else None.

Definition hex4 (h1 h2 h3 h4 : ascii) : option N :=
  match hex_digit h1, hex_digit h2, hex_digit h3, hex_digit h4 with
  | Some a, Some b, Some c, Some d => Some (((a * 16 + b) * 16 + c) * 16 + d)%N
  | _, _, _, _ => None
  end.

Definition is_high_surrogate (u : N) : bool := (55296 <=? u)%N && (u <=? 56319)%N.
Definition is_low_surrogate (u : N) : bool := (56320 <=? u)%N && (u <=? 57343)%N.

Definition join_surrogates (hi lo : N) : N :=
  (65536 + (hi - 55296) * 1024 + (lo - 56320))%N.

Definition utf8 (u : N) : list ascii :=
  let byte n := ascii_of_N n in
  if (u <? 128)%N then [byte u]
  else if (u <? 2048)%N then [byte (192 + u / 64); byte (128 + u mod 64)]%N
  else if (u <? 65536)%N then
    [byte (224 + u / 4096); byte (128 + (u / 64) mod 64); byte (128 + u mod 64)]%N
  else
    [byte (240 + u / 262144); byte (128 + (u / 4096) mod 64);
     byte (128 + (u / 64) mod 64); byte (128 + u mod 64)]%N.

Definition simple_escape (e : ascii) : option ascii :=
  if Ascii.eqb e dquote then Some dquote
  else if Ascii.eqb e backslash then Some backslash
  else if Ascii.eqb e "/" then Some "/"%char
  else if Ascii.eqb e "b" then Some (ascii_of_nat 8)
  else if Ascii.eqb e "f" then Some (ascii_of_nat 12)
  else if Ascii.eqb e "n" then Some (ascii_of_nat 10)
  else if Ascii.eqb e "r" then Some (ascii_of_nat 13)
  else if Ascii.eqb e "t" then Some (ascii_of_nat 9)
  else None.

(** The text of a string after its opening quote, and what follows the
    closing quote.  A high surrogate is joined with a low surrogate that
    follows it as a second [\u] escape before the end of the text; a second
    escape that is malformed is an error, and one that is not a low surrogate
    is read on its own. *)
Fixpoint scan_string (s : string) (acc_rev : list ascii) : option (string * string) :=
  match s with
  | EmptyString => None
  | String c r =>
      if Ascii.eqb c dquote then Some (string_of_list_ascii (rev acc_rev), r)
      else if (nat_of_ascii c <? 32)%nat then None
      else if Ascii.eqb c backslash then
        match r with
        | EmptyString => None
        | String e r1 =>
            if Ascii.eqb e "u" then
              match r1 with
              | String h1 (String h2 (String h3 (String h4 r2))) =>
                  match hex4 h1 h2 h3 h4 with
                  | None => None
                  | Some uni =>
                      let alone := scan_string r2 (rev (utf8 uni) ++ acc_rev) in
                      if is_high_surrogate uni then
                        match r2 with
                        | String b (String u (String g1 (String g2 (String g3
                            (String g4 ((String _ _) as r3)))))) =>
                            if Ascii.eqb b backslash && Ascii.eqb u "u" then
                              match hex4 g1 g2 g3 g4 with
                              | None => None
                              | Some lo =>
                                  if is_low_surrogate lo
                                  then scan_string r3
                                         (rev (utf8 (join_surrogates uni lo)) ++ acc_rev)
                                  else alone
                              end
                            else alone
                        | _ => alone
                        end
                      else alone
                  end
              | _ => None
              end
            else
              match simple_escape e with
              | Some x => scan_string r1 (x :: acc_rev)
              | None => None
              end
        end
      else scan_string r (c :: acc_rev)
  end.

Definition after_colon (s : string) : option string :=
  match skip_ws s with
  | String c r => if Ascii.eqb c ":" then Some (skip_ws r) else None
  | EmptyString => None
  end.

Fixpoint scan_once (fuel : nat) (s : string) : option (pyval * string) :=
  match fuel with
  | O => None
  | S fuel' =>
      match s with
      | EmptyString => None
      | String c r =>
          if Ascii.eqb c dquote then
            match scan_string r [] with
            | Some (t, r') => Some (PStr t, r')
            | None => None
            end
          else if Ascii.eqb c "{" then
            match skip_ws r with
            | String c1 r1 =>
                if Ascii.eqb c1 "}" then Some (PDict [], r1)
                else scan_members fuel' (String c1 r1) []
            | EmptyString => None
            end
          else if Ascii.eqb c "[" then
            match skip_ws r with
            | String c1 r1 =>
                if Ascii.eqb c1 "]" then Some (PList [], r1)
                else scan_elements fuel' (String c1 r1) []
            | EmptyString => None
            end
          else if String.prefix "null" s then Some (PNone, drop 4 s)
          else if String.prefix "true" s then Some (PBool true, drop 4 s)
          else if String.prefix "false" s then Some (PBool false, drop 5 s)
          else
            match scan_number s with
            | Some (lexeme, r') => Some (PNum lexeme, r')
            | None =>
                if String.prefix "NaN" s then Some (PNum "NaN", drop 3 s)
                else if String.prefix "Infinity" s then Some (PNum "Infinity", drop 8 s)
                else if String.prefix "-Infinity" s then Some (PNum "-Infinity", drop 9 s)
                else None
            end
      end
  end

with scan_elements (fuel : nat) (s : string) (acc_rev : list pyval)
  : option (pyval * string) :=
  match fuel with
  | O => None
  | S fuel' =>
      match scan_once fuel' s with
      | None => None
      | Some (v, r) =>
          match skip_ws r with
          | String c r' =>
              if Ascii.eqb c "]" then Some (PList (rev (v :: acc_rev)), r')
              else if Ascii.eqb c "," then scan_elements fuel' (skip_ws r') (v :: acc_rev)
              else None
          | EmptyString => None
          end
      end
  end

with scan_members (fuel : nat) (s : string) (acc_rev : list (string * pyval))
  : option (pyval * string) :=
  match fuel with
  | O => None
  | S fuel' =>
      match s with
      | EmptyString => None
      | String c r =>
          if Ascii.eqb c dquote then
            match scan_string r [] with
            | None => None
            | Some (key, r1) =>
                match after_colon r1 with
                | None => None
                | Some r2 =>
                    match scan_once fuel' r2 with
                    | None => None
                    | Some (v, r3) =>
                        match skip_ws r3 with
                        | String c3 r4 =>
                            if Ascii.eqb c3 "}"
                            then Some (PDict (rev ((key, v) :: acc_rev)), r4)
                            else if Ascii.eqb c3 ","
                            then scan_members fuel' (skip_ws r4) ((key, v) :: acc_rev)
                            else None
                        | EmptyString => None
                        end
                    end
                end
            end
          else None
      end
  end.

Definition json_decode (s : string) : option pyval :=
  let s := skip_ws s in
  match scan_once (2 * String.length s + 2) s with
  | Some (v, r) =>
      match skip_ws r with
      | EmptyString => Some v
      | String _ _ => None
      end
  | None => None
  end.

Definition json_decoder : Json := {| json_loads := json_decode |}.

(** JSON text for the examples, written with ['] for the double quote. *)
Fixpoint dq (s : string) : string :=
  match s with
  | EmptyString => EmptyString
  | String c s' => String (if Ascii.eqb c "'" then dquote else c) (dq s')
  end.

(** ** Example data *)

(** The scenario of the specification: two blue casual topwear products and a
    blue casual bottomwear product, all for men. *)
Definition product_A : Product :=
  mkProduct 1 "filtered_images/1.jpg" "A" "blue" "casual" "topwear" "men"
    "A blue casual topwear men".
Definition product_B : Product :=
  mkProduct 2 "filtered_images/2.jpg" "B" "blue" "casual" "topwear" "men"
    "B blue casual topwear men".
Definition product_C : Product :=
  mkProduct 3 "filtered_images/3.jpg" "C" "blue" "casual" "bottomwear" "men"
    "C blue casual bottomwear men".

Definition scenario_catalog : DataFrame := [product_A; product_B; product_C].

Definition scenario_rationale : string :=
  "The blue shirt and the blue trousers make a relaxed casual outfit.".

(** A catalog whose first selected product is red sportswear. *)
Definition red_polo : Product :=
  mkProduct 11 "filtered_images/11.jpg" "Red Polo" "Red" "Sports" "Topwear" "men"
    "Red Polo red sports topwear men".
Definition blue_jeans : Product :=
  mkProduct 12 "filtered_images/12.jpg" "Blue Jeans" "Blue" "Casual" "Bottomwear" "men"
    "Blue Jeans blue casual bottomwear men".
Definition red_tee : Product :=
  mkProduct 13 "filtered_images/13.jpg" "Red Tee" "Red" "Sports" "Topwear" "men"
    "Red Tee red sports topwear men".

Definition sports_catalog : DataFrame := [red_polo; blue_jeans; red_tee].

(** A rationale that names a colour and no usage. *)
Definition rationale_colour_only : string := "The blue tones go well together.".

(** A catalog that spells one gender in two ways. *)
Definition shirt_Men : Product :=
  mkProduct 21 "filtered_images/21.jpg" "Shirt" "Blue" "Casual" "Topwear" "Men"
    "Shirt blue casual topwear men".
Definition shirt_men : Product :=
  mkProduct 22 "filtered_images/22.jpg" "Plain Shirt" "Blue" "Casual" "Topwear" "men"
    "Plain Shirt blue casual topwear men".
Definition jeans_Men : Product :=
  mkProduct 23 "filtered_images/23.jpg" "Jeans" "Blue" "Casual" "Bottomwear" "Men"
    "Jeans blue casual bottomwear men".

Definition mixed_case_catalog : DataFrame := [shirt_Men; shirt_men; jeans_Men].

(** A rationale without any keyword. *)
Definition rationale_no_keyword : string := "They go well together.".

(** A reply streamed in three fragments, fenced, whose object has a
    decision and no reason. *)
Definition reply_without_reason : list string :=
  [dq "```json {'deci"; dq "sion': 'yes'}"; " ```"].

(** A reply whose fields are numbers. *)
Definition reply_with_numbers : list string :=
  [dq "{'decision': 1, 'reason': 2}"].

(** A reply in prose. *)
Definition reply_in_prose : list string :=
  ["Yes, these two products "; "can be combined."].

(** A vectorizer fitted on two terms, and the term matrix of the scenario
    catalog: A and B have the row (1, 0), C has the row (0, 1). *)
Definition example_vectorizer : TfidfVectorizer :=
  count_vectorizer ["the"; "and"; "for"] ["topwear"; "bottomwear"].

Definition example_tfidf_matrix : Matrix :=
  transform example_vectorizer (map combined_features scenario_catalog).

(** An embedding table of three rows, the first two equal, and its image
    references. *)
Definition example_embeddings : Matrix := [[3; 4]; [3; 4]; [4; -3]].

Definition example_image_paths : list string :=
  ["filtered_images/1.jpg"; "filtered_images/2.jpg"; "filtered_images/3.jpg"].

Definition example_embedding : Vector := [6; 8].

(** A CSV of five rows: an accessory, an apparel row with a removed
    identifier, an apparel row whose file name is an absolute path, and two
    ordinary apparel rows, the second without sizes. *)
Definition csv_watch : Row :=
  mkRow (mkProduct 501 "501" "Steel Watch" "Silver" "Casual" "Watches" "Men"
                   "Steel Watch silver casual watches men")
        "Accessories" "Watches" 2500 None "http://img/501.jpg".
Definition csv_removed : Row :=
  mkRow (mkProduct 39403 "39403" "Lost Shirt" "Blue" "Casual" "Topwear" "Men"
                   "Lost Shirt blue casual topwear men")
        "Apparel" "Shirts" 900 (Some "S, M") "http://img/39403.jpg".
Definition csv_absolute : Row :=
  mkRow (mkProduct 502 "/tmp/502" "Odd Shirt" "Blue" "Casual" "Topwear" "Men"
                   "Odd Shirt blue casual topwear men")
        "Apparel" "Shirts" 700 (Some "XS, L") "http://img/502.jpg".
Definition csv_shirt : Row :=
  mkRow (mkProduct 503 "503" "Blue Shirt" "Blue" "Casual" "Topwear" "Men"
                   "Blue Shirt blue casual topwear men")
        "Apparel" "Shirts" 1200 (Some "S, M, L") "http://img/503.jpg".
Definition csv_jeans : Row :=
  mkRow (mkProduct 504 "504" "Blue Jeans" "Blue" "Casual" "Bottomwear" "Women"
                   "Blue Jeans blue casual bottomwear women")
        "Apparel" "Jeans" 1800 None "http://img/504.jpg".

Definition example_csv : Frame :=
  [csv_watch; csv_removed; csv_absolute; csv_shirt; csv_jeans].

(** A reader that finds this frame whatever the path, and one that fails. *)
Definition pandas_reading (df : Frame) : Pandas :=
  {| read_csv := fun _ => Returned df |}.

Definition pandas_failing : Pandas :=
  {| read_csv := fun _ => Raised IOError |}.

(** What [load_data] makes of the example CSV. *)
Definition example_frame : Frame :=
  [set_filename "/tmp/502.jpg" csv_absolute;
   set_filename "filtered_images/503.jpg" csv_shirt;
   set_filename "filtered_images/504.jpg" csv_jeans].

(** A reply that says yes and gives a number for a reason. *)
Definition reply_yes_number : list string :=
  [dq "{'decision': 'yes', 'reason': 2}"].

(** No file opens. *)
Definition imaging_nothing : Imaging :=
  {| Image := string; Image_open := fun _ => None |}.

(** A reply that spells its decision with a capital. *)
Definition reply_capital_yes : list string :=
  [dq "{'decision': 'Yes', 'reason': 'They match.'}"].

(** A fenced reply that says yes and gives a rationale. *)
Definition reply_yes_text : list string :=
  [dq "```json {'decision': 'yes', "; dq "'reason': 'A relaxed Blue Casual outfit.'} ```"].

(** The term matrix of the example frame. *)
Definition example_frame_tfidf : Matrix :=
  transform example_vectorizer (map combined_features (products example_frame)).

(** A row whose article type sorts before those of the example frame, and
    the predictions of a model for two classes. *)
Definition csv_dress : Row :=
  mkRow (mkProduct 505 "filtered_images/505.jpg" "Summer Dress" "Red" "Casual" "Dress"
                   "Women" "Summer Dress red casual dress women")
        "Apparel" "Dresses" 2100 (Some "S, M") "http://img/505.jpg".

Definition example_predictions : Matrix := [[1; 9]].


(** A no-break space (U+00A0) and an ideographic space (U+3000), in UTF-8. *)
Definition no_break_space : string :=
  String (ascii_of_nat 194) (String (ascii_of_nat 160) EmptyString).

Definition ideographic_space : string :=
  String (ascii_of_nat 227) (String (ascii_of_nat 128)
    (String (ascii_of_nat 128) EmptyString)).

(** A client whose call raises, as for a request that the service refuses. *)
Definition model_failing : @GenerativeModel imaging_paths :=
  {| generate_content := fun _ => Raised ValueError |}.

(** ** Vocabulary of the statements *)

(** The catalog has a row with this identifier. *)
Definition known (data : DataFrame) (pid : Z) : Prop :=
  existsb (fun r => Z.eqb (product_id r) pid) data = true.

(** The first row of the catalog, in catalog order, whose identifier is among
    the selected ones: [data[data['id'].isin(ids)].iloc[0]]. *)
Definition first_selected (ids : list Z) (data : DataFrame) : option Product :=
  find (isin ids) data.

(** Position [i] comes before position [j]: by value, then by position. *)
Definition before (a : Vector) (i j : nat) : Prop :=
  score_at a i < score_at a j \/ (score_at a i == score_at a j /\ (i < j)%nat).

(** The payload that the judge expects: an object whose [decision] and
    [reason] are both text. *)
Definition is_text (v : pyval) : bool :=
  match v with
  | PStr _ => true
  | _ => false
  end.

Definition valid_payload (v : option pyval) : bool :=
  match v with
  | Some (PDict kvs) =>
      is_text (dict_get "decision" kvs PNone) && is_text (dict_get "reason" kvs PNone)
  | _ => false
  end.

(** The reply is an object whose decision is the text "yes". *)
Definition says_yes (v : option pyval) : bool :=
  match v with
  | Some (PDict kvs) => eq_str (dict_get "decision" kvs (PStr "Unknown")) "yes"
  | _ => false
  end.

(** The reason that the judge hands on for a reply. *)
Definition reason_of (v : option pyval) : pyval :=
  match v with
  | Some (PDict kvs) => dict_get "reason" kvs (PStr "No reason provided")
  | _ => PStr "Response parsing error"
  end.

(** The number of backquotes that a text starts with. *)
Definition tick : ascii := "`"%char.

Fixpoint ticks (s : string) : nat :=
  match s with
  | EmptyString => O
  | String c s' => if Ascii.eqb c tick then S (ticks s') else O
  end.

(** No character of the text is a backquote. *)
Fixpoint no_tick (s : string) : bool :=
  match s with
  | EmptyString => true
  | String c s' => negb (Ascii.eqb c tick) && no_tick s'
  end.

(** The text with every [a] replaced by [b]. *)
Fixpoint translate (a b : ascii) (s : string) : string :=
  match s with
  | EmptyString => EmptyString
  | String c s' => String (if Ascii.eqb c a then b else c) (translate a b s')
  end.

(** The card of a row. *)
Definition card_of (r : Row) (score : Q) : Card :=
  mkCard (link r) (product_id (item r)) (productDisplayName (item r)) (Price r)
         (SizeOption r) score.

(** [x] stands at an earlier place of [l] than [y]. *)
Definition listed_before {A : Type} (l : list A) (x y : A) : Prop :=
  exists p q, (p < q)%nat /\ nth_error l p = Some x /\ nth_error l q = Some y.

(** The rows of the CSV that [load_data] keeps. *)
Definition listed_apparel (r : Row) : bool :=
  String.eqb (masterCategory r) "Apparel" && negb (isin missing_ids (item r)).

(** * Properties *)

(** ** Text *)

(** [str.strip] removes the white space beyond ASCII too, and only whole
    characters: the byte 160 alone is not a no-break space. *)
Example strip_removes_unicode_space :
  strip (no_break_space ++ " a b " ++ ideographic_space ++ no_break_space) = "a b" /\
  cleaned_response [no_break_space; dq "{'decision': 'no'}"; no_break_space] =
    dq "{'decision': 'no'}" /\
  strip (String (ascii_of_nat 160) "a") = String (ascii_of_nat 160) "a".
Proof. repeat split. Qed.

Lemma ascii_lower_changes_upper (c : ascii) :
  is_upper c = true -> ascii_lower c <> c.
Proof.
  unfold ascii_lower.
  destruct c as [[] [] [] [] [] [] [] []]; vm_compute; intros H; congruence.
Qed.

Lemma lower_changes_upper (s : string) :
  has_upper s = true -> lower s <> s.
Proof.
  induction s as [| c s IH]; simpl; [discriminate |].
  intros H E. injection E as Ec Es.
  apply orb_true_iff in H. destruct H as [H | H].
  - exact (ascii_lower_changes_upper c H Ec).
  - exact (IH H Es).
Qed.

Lemma extract_first (k : string) (ks : list string) (fb : string) :
  contains k fb = true -> extract (k :: ks) fb = Some k.
Proof. intros H. unfold extract. simpl. now rewrite H. Qed.

(** ** Frames and selections *)

Lemma in_combine_seq {A : Type} (l : list A) (s i : nat) (x : A) :
  In (i, x) (combine (seq s (length l)) l) <->
  (s <= i)%nat /\ nth_error l (i - s) = Some x.
Proof.
  revert s. induction l as [| y l IH]; intros s; simpl.
  - split; [tauto |]. intros [_ H]. destruct (i - s)%nat; discriminate.
  - rewrite IH. split.
    + intros [E | [Hle Hn]].
      * injection E as <- <-. split; [lia |]. now rewrite Nat.sub_diag.
      * split; [lia |]. replace (i - s)%nat with (S (i - S s)) by lia. exact Hn.
    + intros [Hle Hn]. destruct (Nat.eq_dec s i) as [<- | Hne].
      * rewrite Nat.sub_diag in Hn. simpl in Hn. left. congruence.
      * right. split; [lia |].
        replace (i - s)%nat with (S (i - S s)) in Hn by lia. exact Hn.
Qed.

Lemma in_rows (data : DataFrame) (i : nat) (r : Product) :
  In (i, r) (rows data) <-> nth_error data i = Some r.
Proof.
  unfold rows. rewrite in_combine_seq, Nat.sub_0_r. split; [tauto |].
  intros H. split; [lia | exact H].
Qed.

Lemma in_mask (p : Product -> bool) (data : DataFrame) (i : nat) (r : Product) :
  In (i, r) (mask p data) <-> nth_error data i = Some r /\ p r = true.
Proof. unfold mask. now rewrite filter_In, in_rows. Qed.

Lemma in_project_mask (p : Product -> bool) (data : DataFrame) (i : nat) (r : Product) :
  nth_error data i = Some r ->
  (In (i, project r) (project_sel (mask p data)) <-> p r = true).
Proof.
  intros Hi. unfold project_sel. rewrite in_map_iff. split.
  - intros [[j r'] [E H]]. simpl in E. injection E as -> Er.
    apply in_mask in H. destruct H as [Hj Hp]. congruence.
  - intros Hp. exists (i, r). split; [reflexivity |]. apply in_mask. now split.
Qed.

Lemma in_project_sel (p : Product -> bool) (data : DataFrame) (i : nat) (d : Display) :
  In (i, d) (project_sel (mask p data)) ->
  exists r, nth_error data i = Some r /\ p r = true /\ d = project r.
Proof.
  unfold project_sel. rewrite in_map_iff. intros [[j r] [E H]].
  simpl in E. injection E as -> <-. apply in_mask in H. exists r. tauto.
Qed.

Lemma filter_combine_seq_head {A : Type} (p : A -> bool) (l : list A) (s : nat) :
  match filter (fun ir => p (snd ir)) (combine (seq s (length l)) l) with
  | [] => find p l = None
  | (_, r) :: _ => find p l = Some r
  end.
Proof.
  revert s. induction l as [| x l IH]; intros s; simpl; [reflexivity |].
  destruct (p x); [reflexivity | apply IH].
Qed.

Lemma iloc0_mask (p : Product -> bool) (data : DataFrame) :
  iloc0 (mask p data) =
  match find p data with
  | Some r => Returned r
  | None => Raised IndexError
  end.
Proof.
  unfold mask, rows. pose proof (filter_combine_seq_head p data 0) as H.
  destruct (filter _ _) as [| [i r] sel]; simpl; now rewrite H.
Qed.

Lemma iloc0_map {R S : Type} (f : R -> S) (sel : Selection R) :
  iloc0 (map (fun ir => (fst ir, f (snd ir))) sel) =
  (r <- iloc0 sel ;; Returned (f r)).
Proof. destruct sel as [| [i r] sel]; reflexivity. Qed.

Lemma known_find (data : DataFrame) (pid : Z) :
  known data pid ->
  exists r, find (fun r => Z.eqb (product_id r) pid) data = Some r.
Proof.
  unfold known. induction data as [| x data IH]; simpl; [discriminate |].
  destruct (Z.eqb (product_id x) pid); [eauto | exact IH].
Qed.

Lemma mapM_returns {A B : Type} (f : A -> outcome B) (l : list A) :
  Forall (fun a => exists b, f a = Returned b) l ->
  exists bs, mapM f l = Returned bs /\ length bs = length l.
Proof.
  induction 1 as [| a l [b Hb] _ [bs [IH Hlen]]]; simpl.
  - now exists [].
  - rewrite Hb, IH. simpl. exists (b :: bs). simpl. now rewrite Hlen.
Qed.

(** ** The complementary filter *)

Section ComplementaryFacts.

Context {imaging : Imaging}.

Lemma load_image_returns (data : DataFrame) (pid : Z) :
  known data pid -> exists img, load_image_from_dataset pid data = Returned img.
Proof.
  intros H. destruct (known_find data pid H) as [r Hr].
  unfold load_image_from_dataset. rewrite iloc0_map, iloc0_mask, Hr. simpl. eauto.
Qed.

(** With a verdict "yes", a rationale that is text and selected identifiers
    of the catalog, the call returns the catalog rows that pass the active
    predicate, projected. *)
Lemma recommend_yes (ids : list Z) (text : string) (data : DataFrame) (sd : Product) :
  Forall (known data) ids ->
  first_selected ids data = Some sd ->
  recommend_complementary_products ids (PStr "yes") (PStr text) data =
  Returned (project_sel (mask (active_match (lower text) sd) data)).
Proof.
  intros Hk Hsd. unfold recommend_complementary_products. simpl.
  destruct (mapM_returns (fun pid => load_image_from_dataset pid data) ids) as [imgs [-> _]].
  { eapply Forall_impl; [| exact Hk]. intros pid. apply load_image_returns. }
  simpl. rewrite iloc0_mask. unfold first_selected in Hsd. rewrite Hsd. reflexivity.
Qed.

Lemma fallback_match_iff (g : string) (sd r : Product) :
  fallback_match g sd r = true <->
  baseColour r = baseColour sd /\ usage r = usage sd /\ gender r = g /\
  subCategory r = subCategory sd.
Proof.
  unfold fallback_match. rewrite !andb_true_iff, !String.eqb_eq. tauto.
Qed.

Lemma extracted_match_iff (c u g : string) (sd r : Product) :
  extracted_match c u g sd r = true <->
  lower (baseColour r) = c /\ lower (usage r) = u /\ lower (gender r) = g /\
  lower (subCategory r) = lower (subCategory sd).
Proof.
  unfold extracted_match. rewrite !andb_true_iff, !String.eqb_eq. tauto.
Qed.

Lemma active_fallback (fb : string) (sd : Product) :
  extract color_keywords fb = None \/ extract usage_keywords fb = None ->
  active_match fb sd = fallback_match (lower (gender sd)) sd.
Proof.
  unfold active_match. intros [-> | ->]; [reflexivity |].
  now destruct (extract color_keywords fb).
Qed.

Lemma active_extracted (fb c u : string) (sd : Product) :
  extract color_keywords fb = Some c -> extract usage_keywords fb = Some u ->
  active_match fb sd = extracted_match c u (lower (gender sd)) sd.
Proof. unfold active_match. now intros -> ->. Qed.

End ComplementaryFacts.

Section ComplementaryClaims.

Context {imaging : Imaging}.

(** C2. For every decision other than "yes", whatever the rationale, the
    catalog and the selected identifiers, [recommend_complementary_products]
    returns the empty frame. *)
Theorem not_yes_returns_empty (ids : list Z) (decision reason : pyval)
        (data : DataFrame) :
  decision <> PStr "yes" ->
  recommend_complementary_products ids decision reason data = Returned [].
Proof.
  intros Hd. unfold recommend_complementary_products.
  destruct decision as [| b | n | s | l | kvs]; simpl; try reflexivity.
  destruct (String.eqb_spec s "yes") as [-> | _]; [congruence | reflexivity].
Qed.

(** C6, as the code has it. The fallback to the raw attributes of the first
    selected product is taken whenever the colour extraction or the usage
    extraction fails, not only when both fail: the result is then exactly
    the catalog rows whose colour, usage and subcategory equal those of that
    product and whose gender equals its lower-cased gender, so an extraction
    that succeeded alone is discarded.  Only when both succeed are the
    extracted colour and usage compared, case-insensitively. *)
Theorem fallback_unless_both_extracted (ids : list Z) (text : string)
        (data : DataFrame) (sd : Product) :
  Forall (known data) ids ->
  first_selected ids data = Some sd ->
  exists res,
    recommend_complementary_products ids (PStr "yes") (PStr text) data = Returned res /\
    (extract color_keywords (lower text) = None \/
     extract usage_keywords (lower text) = None ->
     forall i r, nth_error data i = Some r ->
       (In (i, project r) res <->
        baseColour r = baseColour sd /\ usage r = usage sd /\
        gender r = lower (gender sd) /\ subCategory r = subCategory sd)) /\
    (forall c u,
       extract color_keywords (lower text) = Some c ->
       extract usage_keywords (lower text) = Some u ->
       forall i r, nth_error data i = Some r ->
         (In (i, project r) res <->
          lower (baseColour r) = c /\ lower (usage r) = u /\
          lower (gender r) = lower (gender sd) /\
          lower (subCategory r) = lower (subCategory sd))).
Proof.
  intros Hk Hsd. eexists. split; [apply (recommend_yes ids text data sd Hk Hsd) |].
  split.
  - intros Hfail i r Hi. rewrite (in_project_mask _ data i r Hi).
    rewrite (active_fallback _ sd Hfail). apply fallback_match_iff.
  - intros c u Hc Hu i r Hi. rewrite (in_project_mask _ data i r Hi).
    rewrite (active_extracted _ c u sd Hc Hu). apply extracted_match_iff.
Qed.

(** C7, as the code has it. With a verdict "yes" and a rationale that
    mentions "blue" and "casual", the result is exactly the catalog rows that
    are blue and casual and share, case-insensitively, the gender and the
    subcategory of the selected product that comes first in the catalog: for
    the pair (A, C) with A before C these are the topwear rows, B among them,
    and not the bottomwear rows. *)
Theorem mentioned_keywords_keep_first_subcategory (ids : list Z) (text : string)
        (data : DataFrame) (sd : Product) :
  Forall (known data) ids ->
  first_selected ids data = Some sd ->
  contains "blue" (lower text) = true ->
  contains "casual" (lower text) = true ->
  exists res,
    recommend_complementary_products ids (PStr "yes") (PStr text) data = Returned res /\
    forall i r, nth_error data i = Some r ->
      (In (i, project r) res <->
       lower (baseColour r) = "blue" /\ lower (usage r) = "casual" /\
       lower (gender r) = lower (gender sd) /\
       lower (subCategory r) = lower (subCategory sd)).
Proof.
  intros Hk Hsd Hblue Hcasual.
  eexists. split; [apply (recommend_yes ids text data sd Hk Hsd) |].
  intros i r Hi. rewrite (in_project_mask _ data i r Hi).
  rewrite (active_extracted (lower text) "blue" "casual" sd).
  - apply extracted_match_iff.
  - now apply extract_first.
  - now apply extract_first.
Qed.

(** C9, as the code has it. In the fallback branch the returned rows are
    exactly the catalog rows with the colour, the usage and the subcategory
    of the first selected product whose raw gender is its lower-cased
    gender.  So when that product's gender has an upper-case letter, every
    returned row spells the gender otherwise than the product does: no row
    with the product's own gender is returned (the product itself is not),
    the result is empty when no catalog row spells the gender in lower case,
    and a row that does, and has the colour, usage and subcategory, is
    returned. *)
Theorem fallback_gender_is_lowercased (ids : list Z) (text : string)
        (data : DataFrame) (sd : Product) :
  Forall (known data) ids ->
  first_selected ids data = Some sd ->
  extract color_keywords (lower text) = None \/
  extract usage_keywords (lower text) = None ->
  has_upper (gender sd) = true ->
  exists res,
    recommend_complementary_products ids (PStr "yes") (PStr text) data = Returned res /\
    (forall i r, nth_error data i = Some r ->
       (In (i, project r) res <->
        baseColour r = baseColour sd /\ usage r = usage sd /\
        gender r = lower (gender sd) /\ subCategory r = subCategory sd)) /\
    (forall i d, In (i, d) res ->
       d_gender d = lower (gender sd) /\ d_gender d <> gender sd) /\
    (forall i r, nth_error data i = Some r -> gender r = gender sd ->
                 ~ In (i, project r) res) /\
    ((forall r, In r data -> gender r <> lower (gender sd)) -> res = []).
Proof.
  intros Hk Hsd Hfail Hup.
  eexists. split; [apply (recommend_yes ids text data sd Hk Hsd) |].
  rewrite (active_fallback _ sd Hfail).
  assert (Hrow : forall i d,
             In (i, d) (project_sel (mask (fallback_match (lower (gender sd)) sd) data)) ->
             exists r, In r data /\ gender r = lower (gender sd) /\ d = project r).
  { intros i d Hin. apply in_project_sel in Hin. destruct Hin as [r [Hi [Hp ->]]].
    exists r. apply fallback_match_iff in Hp. apply nth_error_In in Hi. tauto. }
  assert (Hiff : forall i r, nth_error data i = Some r ->
             (In (i, project r)
                 (project_sel (mask (fallback_match (lower (gender sd)) sd) data)) <->
              baseColour r = baseColour sd /\ usage r = usage sd /\
              gender r = lower (gender sd) /\ subCategory r = subCategory sd)).
  { intros i r Hi. rewrite (in_project_mask _ data i r Hi). apply fallback_match_iff. }
  split; [exact Hiff |]. split; [| split].
  - intros i d Hin. destruct (Hrow i d Hin) as [r [_ [Hg ->]]]. simpl.
    split; [exact Hg |]. rewrite Hg. now apply lower_changes_upper.
  - intros i r Hi Hg Hin. apply (Hiff i r Hi) in Hin.
    destruct Hin as [_ [_ [Hlow _]]]. rewrite Hg in Hlow.
    symmetry in Hlow. exact (lower_changes_upper _ Hup Hlow).
  - intros Hnone.
    destruct (project_sel _) as [| [i d] res] eqn:E; [reflexivity |].
    destruct (Hrow i d (or_introl eq_refl)) as [r [Hin [Hg _]]].
    now destruct (Hnone r Hin).
Qed.

(** C10. The filter does not exclude the selected products: with a verdict
    "yes", every selected product whose own attributes pass the active
    colour, usage, gender and subcategory predicates is in the result, under
    its catalog label and projected to display name, colour, usage,
    subcategory and gender. *)
Theorem selected_products_not_excluded (ids : list Z) (text : string)
        (data : DataFrame) (sd : Product) :
  Forall (known data) ids ->
  first_selected ids data = Some sd ->
  exists res,
    recommend_complementary_products ids (PStr "yes") (PStr text) data = Returned res /\
    forall i r, nth_error data i = Some r ->
      isin ids r = true ->
      active_match (lower text) sd r = true ->
      In (i, project r) res.
Proof.
  intros Hk Hsd. eexists. split; [apply (recommend_yes ids text data sd Hk Hsd) |].
  intros i r Hi _ Hp. now apply (in_project_mask _ data i r Hi).
Qed.

End ComplementaryClaims.

(** *** The filter on the example catalogs *)

Lemma not_yes_returns_empty_witness :
  PStr "no" <> PStr "yes" /\
  @recommend_complementary_products imaging_paths [1; 3]%Z (PStr "no")
    (PStr scenario_rationale) scenario_catalog = Returned [].
Proof.
  split; [discriminate |].
  apply (@not_yes_returns_empty imaging_paths). discriminate.
Defined.

(** C6, as stated, fails: the colour extraction succeeds on this rationale
    and the usage extraction fails, and the result is the fallback's, the red
    sportswear of the first selected product, without any blue row. *)
Lemma colour_alone_takes_fallback :
  extract color_keywords (lower rationale_colour_only) = Some "blue" /\
  extract usage_keywords (lower rationale_colour_only) = None /\
  @recommend_complementary_products imaging_paths [11; 12]%Z (PStr "yes")
    (PStr rationale_colour_only) sports_catalog =
  Returned [(0%nat, project red_polo); (2%nat, project red_tee)].
Proof. repeat split. Qed.

Lemma fallback_unless_both_extracted_witness :
  Forall (known sports_catalog) [11; 12]%Z /\
  first_selected [11; 12]%Z sports_catalog = Some red_polo /\
  exists res,
    @recommend_complementary_products imaging_paths [11; 12]%Z (PStr "yes")
      (PStr rationale_colour_only) sports_catalog = Returned res /\
    In (2%nat, project red_tee) res.
Proof.
  assert (Hk : Forall (known sports_catalog) [11; 12]%Z)
    by (repeat constructor).
  assert (Hsd : first_selected [11; 12]%Z sports_catalog = Some red_polo)
    by reflexivity.
  split; [exact Hk |]. split; [exact Hsd |].
  destruct (@fallback_unless_both_extracted imaging_paths [11; 12]%Z
              rationale_colour_only sports_catalog red_polo Hk Hsd)
    as [res [Hres [Hfb _]]].
  exists res. split; [exact Hres |].
  apply (Hfb (or_intror eq_refl) 2%nat red_tee eq_refl). repeat split.
Defined.

(** C7, as stated, fails: on the catalog A, B, C with the pair (A, C)
    selected, the result is the topwear A and B; the bottomwear C is not in
    it. *)
Lemma scenario_returns_topwear :
  contains "blue" (lower scenario_rationale) = true /\
  contains "casual" (lower scenario_rationale) = true /\
  @recommend_complementary_products imaging_paths [1; 3]%Z (PStr "yes")
    (PStr scenario_rationale) scenario_catalog =
  Returned [(0%nat, project product_A); (1%nat, project product_B)].
Proof. repeat split. Qed.

Lemma mentioned_keywords_keep_first_subcategory_witness :
  Forall (known scenario_catalog) [1; 3]%Z /\
  first_selected [1; 3]%Z scenario_catalog = Some product_A /\
  exists res,
    @recommend_complementary_products imaging_paths [1; 3]%Z (PStr "yes")
      (PStr scenario_rationale) scenario_catalog = Returned res /\
    In (1%nat, project product_B) res /\
    ~ In (2%nat, project product_C) res.
Proof.
  assert (Hk : Forall (known scenario_catalog) [1; 3]%Z)
    by (repeat constructor).
  assert (Hsd : first_selected [1; 3]%Z scenario_catalog = Some product_A)
    by reflexivity.
  split; [exact Hk |]. split; [exact Hsd |].
  destruct (@mentioned_keywords_keep_first_subcategory imaging_paths [1; 3]%Z
              scenario_rationale scenario_catalog product_A Hk Hsd eq_refl eq_refl)
    as [res [Hres Hiff]].
  exists res. split; [exact Hres |]. split.
  - apply (Hiff 1%nat product_B eq_refl). repeat split.
  - intros Hin. apply (Hiff 2%nat product_C eq_refl) in Hin.
    destruct Hin as [_ [_ [_ Hsub]]]. discriminate Hsub.
Defined.

(** C9, as stated, fails: the first selected product's gender is "Men", the
    fallback branch is taken, and the result is not empty: it holds the row
    that spells the gender "men". *)
Lemma lowercase_row_survives_fallback :
  first_selected [21; 23]%Z mixed_case_catalog = Some shirt_Men /\
  has_upper (gender shirt_Men) = true /\
  extract color_keywords (lower rationale_no_keyword) = None /\
  extract usage_keywords (lower rationale_no_keyword) = None /\
  @recommend_complementary_products imaging_paths [21; 23]%Z (PStr "yes")
    (PStr rationale_no_keyword) mixed_case_catalog =
  Returned [(1%nat, project shirt_men)].
Proof. repeat split. Qed.

Lemma fallback_gender_is_lowercased_witness :
  Forall (known mixed_case_catalog) [21; 23]%Z /\
  first_selected [21; 23]%Z mixed_case_catalog = Some shirt_Men /\
  (extract color_keywords (lower rationale_no_keyword) = None \/
   extract usage_keywords (lower rationale_no_keyword) = None) /\
  has_upper (gender shirt_Men) = true /\
  exists res,
    @recommend_complementary_products imaging_paths [21; 23]%Z (PStr "yes")
      (PStr rationale_no_keyword) mixed_case_catalog = Returned res /\
    In (1%nat, project shirt_men) res /\
    (forall i d, In (i, d) res -> d_gender d = "men").
Proof.
  assert (Hk : Forall (known mixed_case_catalog) [21; 23]%Z)
    by (repeat constructor).
  assert (Hsd : first_selected [21; 23]%Z mixed_case_catalog = Some shirt_Men)
    by reflexivity.
  assert (Hfail : extract color_keywords (lower rationale_no_keyword) = None \/
                  extract usage_keywords (lower rationale_no_keyword) = None)
    by (left; reflexivity).
  split; [exact Hk |]. split; [exact Hsd |]. split; [exact Hfail |].
  split; [reflexivity |].
  destruct (@fallback_gender_is_lowercased imaging_paths [21; 23]%Z
              rationale_no_keyword mixed_case_catalog shirt_Men Hk Hsd
              Hfail eq_refl)
    as [res [Hres [Hiff [Hg _]]]].
  exists res. split; [exact Hres |]. split.
  - apply (Hiff 1%nat shirt_men eq_refl). repeat split.
  - intros i d Hin. exact (proj1 (Hg i d Hin)).
Defined.

Lemma selected_products_not_excluded_witness :
  Forall (known scenario_catalog) [1; 3]%Z /\
  first_selected [1; 3]%Z scenario_catalog = Some product_A /\
  exists res,
    @recommend_complementary_products imaging_paths [1; 3]%Z (PStr "yes")
      (PStr scenario_rationale) scenario_catalog = Returned res /\
    In (0%nat, project product_A) res.
Proof.
  assert (Hk : Forall (known scenario_catalog) [1; 3]%Z)
    by (repeat constructor).
  assert (Hsd : first_selected [1; 3]%Z scenario_catalog = Some product_A)
    by reflexivity.
  split; [exact Hk |]. split; [exact Hsd |].
  destruct (@selected_products_not_excluded imaging_paths [1; 3]%Z
              scenario_rationale scenario_catalog product_A Hk Hsd)
    as [res [Hres Hin]].
  exists res. split; [exact Hres |].
  apply (Hin 0%nat product_A); reflexivity.
Defined.

(** ** The compatibility judge *)

Lemma dict_get_missing (key : string) (kvs : list (string * pyval)) (default : pyval) :
  ~ In key (map fst kvs) -> dict_get key kvs default = default.
Proof.
  revert default. induction kvs as [| [k v] kvs IH]; intros default Hnot; simpl.
  - reflexivity.
  - simpl in Hnot. destruct (String.eqb_spec k key) as [-> | _]; [tauto |].
    apply IH. tauto.
Qed.

Lemma dict_get_last (key : string) (kvs : list (string * pyval)) (v default : pyval) :
  dict_get key (kvs ++ [(key, v)]) default = v.
Proof.
  revert default. induction kvs as [| [k w] kvs IH]; intros default; simpl.
  - now rewrite String.eqb_refl.
  - apply IH.
Qed.

Section JudgeClaims.

Context {imaging : Imaging} {json : Json} {model : GenerativeModel}.

(** C1, as the code has it. The judge opens the images, calls the model and
    reads the text of the fragments outside its [try]: an exception of one
    of these is raised to the caller.  Once they have returned, the judge
    returns a verdict and does not raise, whatever the fragments are.  When
    the reply, joined and stripped of its fences, is rejected by
    [json.loads] or is not an object, the verdict is
    ("Unknown", "Response parsing error").  When it is an object, each field
    is returned as it is, whatever its type, and a field that is missing is
    replaced on its own: the decision by "Unknown", the reason by
    "No reason provided". *)
Theorem judge_verdict_of_reply (ids : list Z) (data : DataFrame) :
  match mapM (open_selected data) ids with
  | Raised e => get_combination_feedback ids data = Raised e
  | Returned selected_images =>
      match generate_content (build_contents selected_images) with
      | Raised e => get_combination_feedback ids data = Raised e
      | Returned all_responses =>
          exists decision reason,
            get_combination_feedback ids data = Returned (decision, reason) /\
            (json_loads (cleaned_response all_responses) = None ->
             decision = PStr "Unknown" /\ reason = PStr "Response parsing error") /\
            (forall v, json_loads (cleaned_response all_responses) = Some v ->
                       (forall kvs, v <> PDict kvs) ->
                       decision = PStr "Unknown" /\
                       reason = PStr "Response parsing error") /\
            (forall kvs,
                json_loads (cleaned_response all_responses) = Some (PDict kvs) ->
                decision = dict_get "decision" kvs (PStr "Unknown") /\
                reason = dict_get "reason" kvs (PStr "No reason provided") /\
                (~ In "decision" (map fst kvs) -> decision = PStr "Unknown") /\
                (~ In "reason" (map fst kvs) -> reason = PStr "No reason provided"))
      end
  end.
Proof.
  unfold get_combination_feedback.
  destruct (mapM (open_selected data) ids) as [selected_images | e]; [| reflexivity].
  simpl.
  destruct (generate_content (build_contents selected_images))
    as [all_responses | e]; [| reflexivity].
  simpl. unfold parse_feedback, loads.
  destruct (json_loads (cleaned_response all_responses)) as [v |] eqn:E.
  - destruct v as [| b | n | s | l | kvs]; simpl;
      try (exists (PStr "Unknown"), (PStr "Response parsing error");
           split; [reflexivity |]; split; [discriminate |]; split;
           [intros _ _ _; split; reflexivity | intros kvs H; discriminate H]).
    exists (dict_get "decision" kvs (PStr "Unknown")),
           (dict_get "reason" kvs (PStr "No reason provided")).
    split; [reflexivity |]. split; [discriminate |]. split.
    + intros v Hv Hnot. injection Hv as <-. now destruct (Hnot kvs).
    + intros kvs' H. injection H as <-.
      split; [reflexivity |]. split; [reflexivity |].
      split; apply dict_get_missing.
  - simpl. exists (PStr "Unknown"), (PStr "Response parsing error").
    split; [reflexivity |]. split; [intros _; split; reflexivity |].
    split; [intros v H; discriminate H | intros kvs H; discriminate H].
Qed.

End JudgeClaims.

(** C1, as stated, fails: the object of this reply has no reason, so it is
    not the payload the judge expects, and the decision that comes back is
    "yes", with a reason made up for the missing one. *)
Lemma missing_reason_keeps_decision :
  json_decode (cleaned_response reply_without_reason) =
    Some (PDict [("decision", PStr "yes")]) /\
  valid_payload (json_decode (cleaned_response reply_without_reason)) = false /\
  @get_combination_feedback imaging_paths json_decoder
    (model_replying reply_without_reason) [1; 3]%Z scenario_catalog =
  Returned (PStr "yes", PStr "No reason provided").
Proof. repeat split. Qed.

(** Fields that are not text come back as they are. *)
Example numbers_come_back :
  valid_payload (json_decode (cleaned_response reply_with_numbers)) = false /\
  @get_combination_feedback imaging_paths json_decoder
    (model_replying reply_with_numbers) [1; 3]%Z scenario_catalog =
  Returned (PNum "1", PNum "2").
Proof. repeat split. Qed.

(** Prose is answered with the capitalised "Unknown". *)
Example prose_is_unknown :
  json_decode (cleaned_response reply_in_prose) = None /\
  @get_combination_feedback imaging_paths json_decoder
    (model_replying reply_in_prose) [1; 3]%Z scenario_catalog =
  Returned (PStr "Unknown", PStr "Response parsing error").
Proof. repeat split. Qed.

(** A refused call is raised to the caller. *)
Example refused_call_is_raised :
  @get_combination_feedback imaging_paths json_decoder model_failing
    [1; 3]%Z scenario_catalog = Raised ValueError.
Proof. reflexivity. Qed.

Lemma judge_verdict_of_reply_witness :
  (exists decision reason,
     @get_combination_feedback imaging_paths json_decoder
       (model_replying reply_in_prose) [1; 3]%Z scenario_catalog =
     Returned (decision, reason) /\
     decision = PStr "Unknown" /\ reason = PStr "Response parsing error") /\
  @get_combination_feedback imaging_paths json_decoder model_failing
    [1; 3]%Z scenario_catalog = Raised ValueError.
Proof.
  split.
  - destruct (@judge_verdict_of_reply imaging_paths json_decoder
                (model_replying reply_in_prose) [1; 3]%Z scenario_catalog)
      as [decision [reason [Hres [Hnone _]]]].
    exists decision, reason. split; [exact Hres |]. apply Hnone. reflexivity.
  - exact (@judge_verdict_of_reply imaging_paths json_decoder model_failing
             [1; 3]%Z scenario_catalog).
Defined.

(** ** Sorted lists, slices and reversal *)

Lemma sorted_app_iff {A : Type} (R : A -> A -> Prop) (l1 l2 : list A) :
  StronglySorted R (l1 ++ l2) <->
  StronglySorted R l1 /\ StronglySorted R l2 /\
  (forall x y, In x l1 -> In y l2 -> R x y).
Proof.
  induction l1 as [| a l1 IH]; simpl.
  - split.
    + intros H. repeat split; [constructor | exact H | intros x y []].
    + tauto.
  - split.
    + intros H. apply StronglySorted_inv in H. destruct H as [Hs Ha].
      apply IH in Hs. destruct Hs as [S1 [S2 C]].
      apply Forall_app in Ha. destruct Ha as [Ha1 Ha2].
      split; [now constructor |]. split; [exact S2 |].
      intros x y [<- | Hx] Hy.
      * rewrite Forall_forall in Ha2. now apply Ha2.
      * now apply C.
    + intros [S1 [S2 C]]. apply StronglySorted_inv in S1. destruct S1 as [S1 Ha].
      constructor.
      * apply IH. repeat split; auto.
      * apply Forall_app. split; [exact Ha |].
        apply Forall_forall. intros y Hy. apply C; auto.
Qed.

Lemma sorted_firstn {A : Type} (R : A -> A -> Prop) (k : nat) (l : list A) :
  StronglySorted R l -> StronglySorted R (firstn k l).
Proof.
  intros H. rewrite <- (firstn_skipn k l) in H. now apply sorted_app_iff in H.
Qed.

Lemma sorted_skipn {A : Type} (R : A -> A -> Prop) (k : nat) (l : list A) :
  StronglySorted R l -> StronglySorted R (skipn k l).
Proof.
  intros H. rewrite <- (firstn_skipn k l) in H. now apply sorted_app_iff in H.
Qed.

Lemma sorted_rev {A : Type} (R : A -> A -> Prop) (l : list A) :
  StronglySorted R l -> StronglySorted (fun x y => R y x) (rev l).
Proof.
  induction 1 as [| a l Hs IH Ha]; simpl; [constructor |].
  apply sorted_app_iff. split; [exact IH |]. split.
  - repeat constructor.
  - intros x y Hx [<- | []]. apply in_rev in Hx.
    rewrite Forall_forall in Ha. now apply Ha.
Qed.

Lemma sorted_map {A B : Type} (f : A -> B) (R : B -> B -> Prop) (l : list A) :
  StronglySorted (fun x y => R (f x) (f y)) l -> StronglySorted R (map f l).
Proof.
  induction 1 as [| a l Hs IH Ha]; simpl; constructor; [exact IH |].
  apply Forall_map. exact Ha.
Qed.

Lemma sorted_weaken {A : Type} (R S : A -> A -> Prop) (l : list A) :
  (forall x y, R x y -> S x y) -> StronglySorted R l -> StronglySorted S l.
Proof.
  intros HRS. induction 1 as [| a l Hs IH Ha]; constructor; [exact IH |].
  eapply Forall_impl; [| exact Ha]. intros y. apply HRS.
Qed.

Lemma last_n_length {A : Type} (n : nat) (a : list A) :
  length (last_n n a) = Nat.min n (length a).
Proof. unfold last_n. rewrite length_skipn. lia. Qed.

Lemma last_n_incl {A : Type} (n : nat) (a : list A) (x : A) :
  In x (last_n n a) -> In x a.
Proof.
  unfold last_n. intros H. rewrite <- (firstn_skipn (length a - n) a).
  apply in_or_app. now right.
Qed.

Lemma slice_to_incl {A : Type} (k : Z) (a : list A) (x : A) :
  In x (slice_to k a) -> In x a.
Proof.
  unfold slice_to. destruct (0 <=? k)%Z; intros H;
    match type of H with In _ (firstn ?n _) =>
      rewrite <- (firstn_skipn n a); apply in_or_app; now left
    end.
Qed.

Lemma slice_to_length {A : Type} (k : Z) (a : list A) :
  (0 <= k)%Z -> length (slice_to k a) = Nat.min (Z.to_nat k) (length a).
Proof.
  intros Hk. unfold slice_to.
  destruct (Z.leb_spec 0 k); [| lia]. apply length_firstn.
Qed.

Lemma sorted_slice_to {A : Type} (R : A -> A -> Prop) (k : Z) (a : list A) :
  StronglySorted R a -> StronglySorted R (slice_to k a).
Proof. unfold slice_to. destruct (0 <=? k)%Z; apply sorted_firstn. Qed.

Lemma getitem_in_range {A : Type} (a : list A) (i : nat) (d : A) :
  (i < length a)%nat -> getitem a i = Returned (nth i a d).
Proof.
  intros H. unfold getitem. now rewrite (nth_error_nth' a d H).
Qed.

Lemma iloc_returns (data : DataFrame) (indices : list nat) :
  Forall (fun i => (i < length data)%nat) indices ->
  exists sel, iloc data indices = Returned sel /\ labels sel = indices /\
              forall i r, In (i, r) sel -> nth_error data i = Some r.
Proof.
  unfold iloc. induction 1 as [| i l Hi _ [sel [IH [Hl Hin]]]]; simpl.
  - exists []. repeat split. intros i r [].
  - unfold getitem at 1. destruct (nth_error data i) as [r |] eqn:E.
    + simpl. rewrite IH. simpl. exists ((i, r) :: sel). split; [reflexivity |].
      split; [simpl; now rewrite Hl |].
      intros j r' [H | H]; [congruence | now apply Hin].
    + apply nth_error_None in E. lia.
Qed.

Lemma sorted_nth {A : Type} (R : A -> A -> Prop) (l : list A) (p q : nat) (x y : A) :
  StronglySorted R l -> (p < q)%nat ->
  nth_error l p = Some x -> nth_error l q = Some y -> R x y.
Proof.
  intros H. revert p q. induction H as [| a l Hs IH Ha]; intros p q Hpq Hp Hq.
  - destruct p; discriminate.
  - destruct q as [| q]; [lia |]. simpl in Hq. destruct p as [| p]; simpl in Hp.
    + injection Hp as <-. rewrite Forall_forall in Ha.
      apply Ha. eapply nth_error_In. exact Hq.
    + apply (IH p q); [lia | exact Hp | exact Hq].
Qed.

(** ** The order of the places of a list *)

Lemma rev_last_n {A : Type} (n : nat) (a : list A) :
  rev (last_n n a) = firstn (Nat.min n (length a)) (rev a).
Proof.
  unfold last_n.
  rewrite <- (rev_involutive a) at 2. rewrite skipn_rev, rev_involutive.
  rewrite length_rev. f_equal. lia.
Qed.

Lemma listed_before_rev {A : Type} (l : list A) (x y : A) :
  listed_before (rev l) x y <-> listed_before l y x.
Proof.
  assert (H : forall (l : list A) x y, listed_before (rev l) x y -> listed_before l y x).
  { clear. intros l x y [p [q [Hpq [Hp Hq]]]].
    rewrite nth_error_rev in Hp, Hq.
    destruct (Nat.ltb_spec p (length l)); [| discriminate Hp].
    destruct (Nat.ltb_spec q (length l)); [| discriminate Hq].
    exists (length l - S q)%nat, (length l - S p)%nat.
    split; [lia |]. now split. }
  split; [apply H |]. intros Hb. apply H. now rewrite rev_involutive.
Qed.

Lemma listed_before_firstn {A : Type} (k : nat) (l : list A) (x y : A) :
  listed_before (firstn k l) x y <->
  exists p q, (p < q < k)%nat /\ nth_error l p = Some x /\ nth_error l q = Some y.
Proof.
  split.
  - intros [p [q [Hpq [Hp Hq]]]]. rewrite nth_error_firstn in Hp, Hq.
    destruct (Nat.ltb_spec p k); [| discriminate Hp].
    destruct (Nat.ltb_spec q k); [| discriminate Hq].
    exists p, q. split; [lia |]. now split.
  - intros [p [q [Hpq [Hp Hq]]]]. exists p, q. split; [lia |].
    rewrite !nth_error_firstn.
    destruct (Nat.ltb_spec p k); [| lia]. destruct (Nat.ltb_spec q k); [| lia].
    now split.
Qed.

Lemma in_firstn_position {A : Type} (k : nat) (l : list A) (x : A) :
  In x (firstn k l) -> exists p, (p < k)%nat /\ nth_error l p = Some x.
Proof.
  intros H. apply In_nth_error in H. destruct H as [p Hp].
  rewrite nth_error_firstn in Hp. destruct (Nat.ltb_spec p k); [| discriminate Hp].
  now exists p.
Qed.

Lemma position_unique {A : Type} (l : list A) (p q : nat) (x : A) :
  NoDup l -> nth_error l p = Some x -> nth_error l q = Some x -> p = q.
Proof.
  intros Hnd Hp Hq. apply (proj1 (NoDup_nth_error l) Hnd).
  - apply nth_error_Some. congruence.
  - congruence.
Qed.

(** Among the first [k] places of a reversed list without repetition, the
    order is the opposite of the order in the list. *)
Lemma listed_before_firstn_rev {A : Type} (k : nat) (a : list A) (x y : A) :
  NoDup a -> In y (firstn k (rev a)) ->
  (listed_before (firstn k (rev a)) x y <-> listed_before a y x).
Proof.
  intros Hnd Hy. rewrite listed_before_firstn. split.
  - intros [p [q [Hpq [Hp Hq]]]]. apply listed_before_rev.
    exists p, q. split; [lia |]. now split.
  - intros Hb. apply listed_before_rev in Hb. destruct Hb as [p [q [Hpq [Hp Hq]]]].
    destruct (in_firstn_position k (rev a) y Hy) as [q' [Hq' Hyq]].
    assert (q = q') by (apply (position_unique (rev a) q q' y);
                        [now apply NoDup_rev | exact Hq | exact Hyq]).
    subst q'. exists p, q. split; [lia |]. now split.
Qed.

(** Equal values at two places of a sorted list: the places in between hold
    the same value. *)
Lemma sorted_ties_adjacent (s : Vector) (l : list nat) (p r q i k j : nat) :
  StronglySorted (fun x y => score_at s y <= score_at s x) l ->
  (p < r < q)%nat ->
  nth_error l p = Some i -> nth_error l r = Some k -> nth_error l q = Some j ->
  score_at s i == score_at s j ->
  score_at s k == score_at s i.
Proof.
  intros Hs [Hpr Hrq] Hp Hr Hq Heq.
  pose proof (sorted_nth _ l p r i k Hs Hpr Hp Hr) as Hki.
  pose proof (sorted_nth _ l r q k j Hs Hrq Hr Hq) as Hjk.
  simpl in Hki, Hjk. apply Qle_antisym; [exact Hki |]. now rewrite Heq.
Qed.

Lemma single_row (n : nat) (K : Matrix) :
  has_shape 1 n K -> exists s, K = [s] /\ length s = n.
Proof.
  intros [Hlen Hrows]. destruct K as [| s [| s' K]]; try discriminate.
  exists s. split; [reflexivity |]. now inversion Hrows.
Qed.

(** ** Ranking *)

Section RankingFacts.

Context {np : Numpy} {sk : Sklearn}.
Hypothesis argsort_ok : argsort_contract.
Hypothesis cosine_ok : cosine_contract.

Lemma argsort_in_range (a : Vector) (i : nat) :
  In i (argsort a) -> (i < length a)%nat.
Proof.
  intros H. destruct (argsort_ok a) as [Hp _].
  apply (Permutation_in _ Hp) in H. apply in_seq in H. lia.
Qed.

Lemma argsort_length (a : Vector) : length (argsort a) = length a.
Proof.
  destruct (argsort_ok a) as [Hp _].
  rewrite (Permutation_length Hp). apply length_seq.
Qed.

Lemma argsort_NoDup (a : Vector) : NoDup (argsort a).
Proof.
  destruct (argsort_ok a) as [Hp _].
  apply (Permutation_NoDup (Permutation_sym Hp)). apply seq_NoDup.
Qed.

(** The similarities of one query row with the rows of a matrix. *)
Lemma cosine_single_row (x : Vector) (Y : Matrix) (n d : nat) :
  length x = d -> has_shape n d Y -> (0 < n)%nat -> (0 < d)%nat ->
  exists s, cosine_similarity [x] Y = Returned [s] /\ length s = n /\
            (all_zero x -> all_zero s).
Proof.
  intros Hx HY Hn Hd.
  destruct (cosine_ok [x] Y 1%nat n d) as [K [HK [Hshape Hzero]]]; try assumption.
  - lia.
  - split; [reflexivity |]. now repeat constructor.
  - destruct (single_row n K Hshape) as [s [-> Hs]].
    exists s. split; [exact HK |]. split; [exact Hs |].
    intros Hz. now apply (Hzero 0%nat x s).
Qed.

Lemma query_scores (user_input : string) (data : DataFrame)
      (vectorizer : TfidfVectorizer) (tfidf_matrix : Matrix) :
  fitted vectorizer -> data <> [] ->
  has_shape (length data) (length (vocabulary_ vectorizer)) tfidf_matrix ->
  exists s,
    cosine_similarity (transform vectorizer [user_input]) tfidf_matrix = Returned [s] /\
    length s = length data /\
    (out_of_vocabulary vectorizer user_input -> all_zero s).
Proof.
  intros [Hvoc [Hshape [_ Hoov]]] Hdata HM.
  destruct (single_row _ _ (Hshape [user_input])) as [x [Ex Hx]].
  destruct (cosine_single_row x tfidf_matrix (length data)
              (length (vocabulary_ vectorizer)) Hx HM) as [s [Hs [Hlen Hz]]].
  - destruct data; [congruence | simpl; lia].
  - destruct (vocabulary_ vectorizer); [congruence | simpl; lia].
  - exists s. rewrite Ex. split; [exact Hs |]. split; [exact Hlen |].
    intros Ho. apply Hz. specialize (Hoov user_input Ho).
    rewrite Ex in Hoov. now inversion Hoov.
Qed.

(** The rows kept by [argsort()[-50:][::-1]]. *)
Lemma top50_rows (s : Vector) (data : DataFrame) :
  length s = length data ->
  exists sel,
    iloc data (rev (last_n 50 (argsort s))) = Returned sel /\
    labels sel = rev (last_n 50 (argsort s)) /\
    length sel = Nat.min 50 (length data) /\
    (forall i r, In (i, r) sel -> nth_error data i = Some r).
Proof.
  intros Hlen.
  destruct (iloc_returns data (rev (last_n 50 (argsort s)))) as [sel [Hsel [Hl Hin]]].
  - apply Forall_forall. intros i Hi. apply in_rev, last_n_incl in Hi.
    apply argsort_in_range in Hi. lia.
  - exists sel. repeat split; try assumption.
    rewrite <- (length_map fst sel). fold (labels sel). rewrite Hl.
    now rewrite length_rev, last_n_length, argsort_length, Hlen.
Qed.

Lemma top50_non_increasing (s : Vector) :
  non_increasing (map (score_at s) (rev (last_n 50 (argsort s)))).
Proof.
  apply sorted_map.
  apply (sorted_rev (fun i j => score_at s i <= score_at s j)).
  apply sorted_skipn. now destruct (argsort_ok s).
Qed.

(** C4. For every query against a non-empty indexed catalog,
    [get_recommendations] returns at most 50 candidates, each a catalog row
    under its label, and the cosine-similarity scores of the candidates do
    not increase along the returned sequence. *)
Theorem top50_bounded_and_sorted (user_input : string) (data : DataFrame)
        (vectorizer : TfidfVectorizer) (tfidf_matrix : Matrix) :
  fitted vectorizer -> data <> [] ->
  has_shape (length data) (length (vocabulary_ vectorizer)) tfidf_matrix ->
  exists similarities sel,
    cosine_similarity (transform vectorizer [user_input]) tfidf_matrix =
      Returned [similarities] /\
    get_recommendations user_input data vectorizer tfidf_matrix = Returned sel /\
    (forall i r, In (i, r) sel -> nth_error data i = Some r) /\
    (length sel <= 50)%nat /\
    non_increasing (map (score_at similarities) (labels sel)).
Proof.
  intros Hv Hdata HM.
  destruct (query_scores user_input data vectorizer tfidf_matrix Hv Hdata HM)
    as [s [Hs [Hlen _]]].
  destruct (top50_rows s data Hlen) as [sel [Hsel [Hl [Hn Hin]]]].
  exists s, sel. split; [exact Hs |]. split.
  - unfold get_recommendations. rewrite Hs. simpl. now rewrite app_nil_r.
  - split; [exact Hin |]. split; [lia |]. rewrite Hl. apply top50_non_increasing.
Qed.

(** C3, as the code has it. For the empty query and for a query none of
    whose terms is in the vocabulary, [get_recommendations] does not raise and
    does not return an empty result either: every similarity is 0, and the
    call returns the catalog rows at the last 50 places of [argsort], in
    reverse, each once: 50 rows, or the whole catalog when it has no more
    than 50. *)
Theorem unmatched_query_returns_rows (user_input : string) (data : DataFrame)
        (vectorizer : TfidfVectorizer) (tfidf_matrix : Matrix) :
  fitted vectorizer -> data <> [] ->
  has_shape (length data) (length (vocabulary_ vectorizer)) tfidf_matrix ->
  user_input = "" \/ out_of_vocabulary vectorizer user_input ->
  exists similarities sel,
    cosine_similarity (transform vectorizer [user_input]) tfidf_matrix =
      Returned [similarities] /\
    all_zero similarities /\
    get_recommendations user_input data vectorizer tfidf_matrix = Returned sel /\
    labels sel = rev (last_n 50 (argsort similarities)) /\
    NoDup (labels sel) /\
    length sel = Nat.min 50 (length data) /\
    sel <> [] /\
    (forall i r, In (i, r) sel -> nth_error data i = Some r) /\
    ((length data <= 50)%nat ->
     forall i r, nth_error data i = Some r -> In (i, r) sel).
Proof.
  intros Hv Hdata HM Hq.
  assert (Hoov : out_of_vocabulary vectorizer user_input).
  { destruct Hq as [-> | Hq]; [| exact Hq].
    destruct Hv as [_ [_ [Hempty _]]]. intros t Ht. rewrite Hempty in Ht.
    destruct Ht. }
  destruct (query_scores user_input data vectorizer tfidf_matrix Hv Hdata HM)
    as [s [Hs [Hlen Hz]]].
  destruct (top50_rows s data Hlen) as [sel [Hsel [Hl [Hn Hin]]]].
  exists s, sel. split; [exact Hs |]. split; [now apply Hz |]. split.
  { unfold get_recommendations. rewrite Hs. simpl. now rewrite app_nil_r. }
  split; [exact Hl |]. split.
  { rewrite Hl. apply NoDup_rev. unfold last_n.
    apply (NoDup_app_remove_l (firstn (length (argsort s) - 50) (argsort s))).
    rewrite firstn_skipn. apply argsort_NoDup. }
  split; [exact Hn |]. split.
  { intros ->. destruct data; [congruence | simpl in Hn; lia]. }
  split; [exact Hin |].
  intros Hsmall i r Hi.
  assert (Hil : In i (labels sel)).
  { rewrite Hl. apply -> in_rev. unfold last_n.
    replace (length (argsort s) - 50)%nat with 0%nat
      by (rewrite argsort_length, Hlen; lia).
    simpl. destruct (argsort_ok s) as [Hp _].
    apply (Permutation_in _ (Permutation_sym Hp)). apply in_seq.
    assert (i < length data)%nat by (apply nth_error_Some; congruence). lia. }
  unfold labels in Hil. apply in_map_iff in Hil. destruct Hil as [[i' r'] [Ei Hir]].
  simpl in Ei. subst i'. pose proof (Hin i r' Hir) as Hr'.
  rewrite Hi in Hr'. injection Hr' as <-. exact Hir.
Qed.

(** C8, as the code has it. The code breaks no tie itself.  The returned
    products, each once, have scores that do not increase, so those with
    equal scores stand next to each other; and of two returned products the
    one that [argsort] lists later comes first, whether their scores are
    equal or not.  The catalog order of two products with equal scores plays
    no part: it is kept exactly when [argsort] lists the one with the higher
    index first, which the default kind of [argsort] does not promise. *)
Theorem equal_scores_in_reverse_argsort_order (user_input : string)
        (data : DataFrame) (vectorizer : TfidfVectorizer) (tfidf_matrix : Matrix) :
  fitted vectorizer -> data <> [] ->
  has_shape (length data) (length (vocabulary_ vectorizer)) tfidf_matrix ->
  exists similarities sel,
    cosine_similarity (transform vectorizer [user_input]) tfidf_matrix =
      Returned [similarities] /\
    get_recommendations user_input data vectorizer tfidf_matrix = Returned sel /\
    NoDup (labels sel) /\
    non_increasing (map (score_at similarities) (labels sel)) /\
    (forall p r q i k j,
        (p < r < q)%nat ->
        nth_error (labels sel) p = Some i -> nth_error (labels sel) r = Some k ->
        nth_error (labels sel) q = Some j ->
        score_at similarities i == score_at similarities j ->
        score_at similarities k == score_at similarities i) /\
    (forall i j, In j (labels sel) ->
                 (listed_before (labels sel) i j <->
                  listed_before (argsort similarities) j i)) /\
    (forall i j, (i < j)%nat -> In i (labels sel) -> In j (labels sel) ->
                 score_at similarities i == score_at similarities j ->
                 (listed_before (labels sel) i j <->
                  listed_before (argsort similarities) j i)).
Proof.
  intros Hv Hdata HM.
  destruct (query_scores user_input data vectorizer tfidf_matrix Hv Hdata HM)
    as [s [Hs [Hlen _]]].
  destruct (top50_rows s data Hlen) as [sel [Hsel [Hl _]]].
  assert (Hdesc : StronglySorted (fun x y => score_at s y <= score_at s x)
                                 (labels sel)).
  { rewrite Hl. apply (sorted_rev (fun x y => score_at s x <= score_at s y)).
    apply sorted_skipn. now destruct (argsort_ok s). }
  assert (Horder : forall i j, In j (labels sel) ->
                     (listed_before (labels sel) i j <->
                      listed_before (argsort s) j i)).
  { intros i j. rewrite Hl, rev_last_n. intros Hj.
    apply listed_before_firstn_rev; [apply argsort_NoDup | exact Hj]. }
  exists s, sel. split; [exact Hs |]. split.
  { unfold get_recommendations. rewrite Hs. simpl. now rewrite app_nil_r. }
  split.
  { rewrite Hl. apply NoDup_rev. unfold last_n.
    apply (NoDup_app_remove_l (firstn (length (argsort s) - 50) (argsort s))).
    rewrite firstn_skipn. apply argsort_NoDup. }
  split; [now apply sorted_map |]. split.
  { intros p r q i k j Hprq Hp Hr Hq Heq.
    exact (sorted_ties_adjacent s (labels sel) p r q i k j Hdesc Hprq Hp Hr Hq Heq). }
  split; [exact Horder |].
  intros i j _ _ Hj _. now apply Horder.
Qed.

(** The pairs built by the list comprehension. *)
Lemma pairs_of_indices (image_paths : list string) (scores : Vector)
      (indices : list nat) (n : nat) :
  length image_paths = n -> length scores = n ->
  Forall (fun i => (i < n)%nat) indices ->
  mapM (fun i => p <- getitem image_paths i ;;
                 s <- getitem scores i ;;
                 Returned (p, s)) indices =
  Returned (map (fun i => (nth i image_paths "", score_at scores i)) indices).
Proof.
  intros Hp Hs. induction 1 as [| i l Hi _ IH]; simpl; [reflexivity |].
  rewrite (getitem_in_range image_paths i "") by lia.
  rewrite (getitem_in_range scores i 0) by lia.
  simpl. now rewrite IH.
Qed.

Lemma slice_to_firstn {A : Type} (k : Z) (a : list A) :
  exists k', slice_to k a = firstn k' a.
Proof. unfold slice_to. destruct (0 <=? k)%Z; eauto. Qed.

(** C5, as the code has it. For a non-empty embedding table whose rows have
    the dimension of the query, with one image reference per row, and a
    non-negative [top_n], [recommend_similar_images] returns the pairs
    (image reference, score) of distinct rows: [top_n] of them, or one per
    row when the table has fewer; their scores do not increase along the
    sequence, and no row left out scores more than a row returned.  Rows
    with equal scores stand next to each other, and of two returned rows the
    one that [argsort] lists later comes first: the table order of rows with
    equal scores plays no part. *)
Theorem top_n_pairs_by_score (input_embedding : Vector) (embeddings : Matrix)
        (image_paths : list string) (top_n : Z) :
  embeddings <> [] -> input_embedding <> [] ->
  has_shape (length embeddings) (length input_embedding) embeddings ->
  length image_paths = length embeddings ->
  (0 <= top_n)%Z ->
  exists scores indices,
    cosine_similarity [input_embedding] embeddings = Returned [scores] /\
    recommend_similar_images input_embedding embeddings image_paths top_n =
      Returned (map (fun i => (nth i image_paths "", score_at scores i)) indices) /\
    length indices = Nat.min (Z.to_nat top_n) (length embeddings) /\
    NoDup indices /\
    Forall (fun i => (i < length embeddings)%nat) indices /\
    non_increasing (map (score_at scores) indices) /\
    (forall i j, In i indices -> (j < length embeddings)%nat -> ~ In j indices ->
                 score_at scores j <= score_at scores i) /\
    (forall p r q i k j,
        (p < r < q)%nat ->
        nth_error indices p = Some i -> nth_error indices r = Some k ->
        nth_error indices q = Some j ->
        score_at scores i == score_at scores j ->
        score_at scores k == score_at scores i) /\
    (forall i j, In j indices ->
                 (listed_before indices i j <-> listed_before (argsort scores) j i)).
Proof.
  intros Hemb Hin Hshape Hpaths Htop.
  destruct (cosine_single_row input_embedding embeddings (length embeddings)
              (length input_embedding) eq_refl Hshape) as [s [Hs [Hlen _]]].
  - destruct embeddings; [congruence | simpl; lia].
  - destruct input_embedding; [congruence | simpl; lia].
  - set (indices := slice_to top_n (rev (argsort s))).
    assert (Hrange : Forall (fun i => (i < length embeddings)%nat) indices).
    { apply Forall_forall. intros i Hi. apply slice_to_incl, in_rev in Hi.
      apply argsort_in_range in Hi. lia. }
    destruct (slice_to_firstn top_n (rev (argsort s))) as [k Hk].
    assert (Hdesc : StronglySorted (fun i j => score_at s j <= score_at s i)
                                   (rev (argsort s))).
    { apply (sorted_rev (fun i j => score_at s i <= score_at s j)).
      now destruct (argsort_ok s). }
    exists s, indices. split; [exact Hs |]. split.
    { unfold recommend_similar_images. rewrite Hs. simpl.
      now apply (pairs_of_indices image_paths s indices (length embeddings)). }
    split.
    { unfold indices. rewrite slice_to_length by exact Htop.
      now rewrite length_rev, argsort_length, Hlen. }
    split.
    { unfold indices. rewrite Hk.
      apply (NoDup_app_remove_r _ (skipn k (rev (argsort s)))).
      rewrite firstn_skipn. apply NoDup_rev, argsort_NoDup. }
    split; [exact Hrange |]. split.
    { apply sorted_map. unfold indices. now apply sorted_slice_to. }
    split.
    { intros i j Hi Hj Hnot. unfold indices in Hi, Hnot. rewrite Hk in Hi, Hnot.
      assert (Hjl : In j (rev (argsort s))).
      { apply -> in_rev. destruct (argsort_ok s) as [Hp _].
        apply (Permutation_in _ (Permutation_sym Hp)). apply in_seq. lia. }
      rewrite <- (firstn_skipn k (rev (argsort s))) in Hjl, Hdesc.
      apply in_app_or in Hjl. destruct Hjl as [Hjl | Hjl]; [contradiction |].
      apply sorted_app_iff in Hdesc. destruct Hdesc as [_ [_ Hcross]].
      now apply (Hcross i j). }
    split.
    { intros p r q i k0 j Hprq Hp Hr Hq Heq.
      apply (sorted_ties_adjacent s indices p r q i k0 j); try assumption.
      unfold indices. now apply sorted_slice_to. }
    intros i j. unfold indices. rewrite Hk. intros Hj.
    apply listed_before_firstn_rev; [apply argsort_NoDup | exact Hj].
Qed.

End RankingFacts.

(** ** The instances meet their contracts *)

(** *** Insertion sort *)

Lemma Qltb_true (x y : Q) : Qltb x y = true -> x < y.
Proof.
  unfold Qltb. intros H. apply negb_true_iff in H.
  apply Qnot_le_lt. intros Hle. apply Qle_bool_iff in Hle. congruence.
Qed.

Lemma Qltb_false (x y : Q) : Qltb x y = false -> y <= x.
Proof.
  unfold Qltb. intros H. apply negb_false_iff in H. now apply Qle_bool_iff.
Qed.

Lemma before_le (a : Vector) (i j : nat) :
  before a i j -> score_at a i <= score_at a j.
Proof.
  intros [H | [H _]]; [now apply Qlt_le_weak | rewrite H; apply Qle_refl].
Qed.

Lemma le_before (a : Vector) (i j : nat) :
  score_at a i <= score_at a j -> (i < j)%nat -> before a i j.
Proof.
  intros Hle Hij. apply Qle_lteq in Hle. destruct Hle as [H | H].
  - now left.
  - right. now split.
Qed.

Lemma insert_position_perm (a : Vector) (vi : nat) (sorted_rev : list nat) :
  Permutation (insert_position a vi sorted_rev) (vi :: sorted_rev).
Proof.
  induction sorted_rev as [| pk l IH]; simpl; [reflexivity |].
  destruct (Qltb (score_at a vi) (score_at a pk)); [| reflexivity].
  rewrite IH. apply perm_swap.
Qed.

Lemma insert_position_sorted (a : Vector) (vi : nat) (sorted_rev : list nat) :
  StronglySorted (fun x y => before a y x) sorted_rev ->
  Forall (fun k => (k < vi)%nat) sorted_rev ->
  StronglySorted (fun x y => before a y x) (insert_position a vi sorted_rev).
Proof.
  induction 1 as [| pk l Hs IH Hpk]; intros Hrange; simpl.
  - repeat constructor.
  - apply Forall_cons_iff in Hrange. destruct Hrange as [Hpkvi Hrange].
    destruct (Qltb (score_at a vi) (score_at a pk)) eqn:E.
    + constructor; [now apply IH |].
      apply Forall_forall. intros y Hy.
      apply (Permutation_in _ (insert_position_perm a vi l)) in Hy.
      destruct Hy as [<- | Hy].
      * left. now apply Qltb_true.
      * rewrite Forall_forall in Hpk. now apply Hpk.
    + apply Qltb_false in E. constructor; [now constructor |].
      constructor; [now apply le_before |].
      apply Forall_forall. intros y Hy.
      rewrite Forall_forall in Hpk, Hrange.
      apply le_before; [| now apply Hrange].
      apply Qle_trans with (score_at a pk); [| exact E].
      apply before_le. now apply Hpk.
Qed.

Lemma insertion_loop (a : Vector) (len s : nat) (sorted_rev : list nat) :
  StronglySorted (fun x y => before a y x) sorted_rev ->
  Forall (fun k => (k < s)%nat) sorted_rev ->
  let result := fold_left (fun acc vi => insert_position a vi acc) (seq s len) sorted_rev in
  StronglySorted (fun x y => before a y x) result /\
  Permutation result (seq s len ++ sorted_rev).
Proof.
  revert s sorted_rev. induction len as [| len IH]; intros s acc Hs Hrange; simpl.
  - split; [exact Hs | reflexivity].
  - destruct (IH (S s) (insert_position a s acc)) as [Hsorted Hperm].
    + now apply insert_position_sorted.
    + apply Forall_forall. intros k Hk.
      apply (Permutation_in _ (insert_position_perm a s acc)) in Hk.
      rewrite Forall_forall in Hrange.
      destruct Hk as [<- | Hk]; [lia | specialize (Hrange k Hk); lia].
    + split; [exact Hsorted |].
      rewrite Hperm, insert_position_perm. symmetry. apply Permutation_middle.
Qed.

Lemma insertion_argsort_stable : @argsort_stable numpy_insertion.
Proof.
  intros a. simpl. unfold insertion_argsort.
  destruct (insertion_loop a (length a) 0 []) as [Hs _]; try constructor.
  apply (sorted_rev (fun x y => before a y x)). exact Hs.
Qed.

Lemma insertion_argsort_contract : @argsort_contract numpy_insertion.
Proof.
  intros a. split.
  - simpl. unfold insertion_argsort.
    destruct (insertion_loop a (length a) 0 []) as [_ Hp]; try constructor.
    rewrite app_nil_r in Hp.
    eapply Permutation_trans; [symmetry; apply Permutation_rev | exact Hp].
  - apply (sorted_weaken (before a)); [apply before_le |].
    apply insertion_argsort_stable.
Qed.

(** *** Cosine similarity *)

Lemma dot_zero (x y : Vector) : all_zero x -> dot x y == 0.
Proof.
  intros Hx. revert y. induction Hx as [| c x Hc _ IH]; intros y.
  - reflexivity.
  - destruct y as [| e y]; [reflexivity |].
    unfold dot. simpl. fold (dot x y). rewrite IH, Hc. ring.
Qed.

Lemma l2_normalize_zero (x : Vector) : all_zero x -> all_zero (l2_normalize x).
Proof.
  intros Hx. unfold l2_normalize. apply Forall_map.
  eapply Forall_impl; [| exact Hx]. intros c Hc. simpl in Hc.
  rewrite Qred_correct, Hc. unfold Qdiv. ring.
Qed.

Lemma same_width_shape (n d : nat) (M : Matrix) :
  has_shape n d M -> same_width d M = true.
Proof.
  intros [_ H]. unfold same_width. apply forallb_forall. intros row Hrow.
  rewrite Forall_forall in H. apply Nat.eqb_eq. now apply H.
Qed.

Lemma sklearn_Q_contract : @cosine_contract sklearn_Q.
Proof.
  intros X Y n m d Hn Hm Hd HX HY. simpl. unfold cosine_similarity_Q.
  assert (Hcheck : check_pairwise_arrays X Y = true).
  { pose proof (same_width_shape n d X HX) as WX.
    pose proof (same_width_shape m d Y HY) as WY.
    destruct HX as [HXn HXd], HY as [HYm _].
    destruct X as [| x X]; [simpl in HXn; lia |].
    destruct Y as [| y Y]; [simpl in HYm; lia |].
    assert (Hx : length x = d) by now inversion HXd.
    unfold check_pairwise_arrays. rewrite Hx, WX, WY.
    destruct d; [lia | reflexivity]. }
  rewrite Hcheck. eexists. split; [reflexivity |]. split.
  - destruct HX as [HXn _], HY as [HYm _]. split.
    + now rewrite !length_map.
    + apply Forall_map, Forall_map. apply Forall_forall. intros x _.
      now rewrite !length_map.
  - intros i x k Hx Hk Hz.
    rewrite !nth_error_map, Hx in Hk. simpl in Hk. injection Hk as <-.
    apply Forall_map, Forall_map. apply Forall_forall. intros y _. simpl.
    rewrite Qred_correct. apply dot_zero. now apply l2_normalize_zero.
Qed.

(** *** The count vectorizer *)

Lemma term_count_absent (terms : list string) (t : string) :
  ~ In t terms -> term_count terms t == 0.
Proof.
  intros H. unfold term_count.
  replace (filter (String.eqb t) terms) with (@nil string); [reflexivity |].
  symmetry. induction terms as [| u terms IH]; simpl; [reflexivity |].
  destruct (String.eqb_spec t u) as [-> | _].
  - destruct H. now left.
  - apply IH. intros Hin. apply H. now right.
Qed.

Lemma count_vectorizer_fitted (stop_words vocabulary : list string) :
  vocabulary <> [] -> fitted (count_vectorizer stop_words vocabulary).
Proof.
  intros Hv. split; [exact Hv |]. split; [| split].
  - intros docs. simpl. split; [apply length_map |].
    apply Forall_map. apply Forall_forall. intros doc _. apply length_map.
  - reflexivity.
  - intros doc Hoov. simpl. constructor; [| constructor].
    apply Forall_map. apply Forall_forall. intros t Ht.
    apply term_count_absent. intros Hin. exact (Hoov t Hin Ht).
Qed.

(** ** Ranking on the example data *)

(** C3, as stated, fails: the empty query, and a query whose only term is
    not in the vocabulary, each get the whole catalog back. *)
Lemma unmatched_queries_return_catalog :
  @get_recommendations numpy_insertion sklearn_Q "" scenario_catalog
    example_vectorizer example_tfidf_matrix =
  Returned [(2%nat, product_C); (1%nat, product_B); (0%nat, product_A)] /\
  analyzer example_vectorizer "sandals" = ["sandals"] /\
  mem "sandals" (vocabulary_ example_vectorizer) = false /\
  @get_recommendations numpy_insertion sklearn_Q "sandals" scenario_catalog
    example_vectorizer example_tfidf_matrix =
  Returned [(2%nat, product_C); (1%nat, product_B); (0%nat, product_A)].
Proof. repeat split. Qed.

(** C8, as stated, fails: A and B, at the catalog positions 0 and 1, both
    have similarity 1 with the query; [np.argsort] of the scores 1, 1, 0 is
    2, 0, 1, and B is returned before A. *)
Lemma tied_products_in_reverse_order :
  @cosine_similarity sklearn_Q (transform example_vectorizer ["topwear"])
    example_tfidf_matrix = Returned [[1; 1; 0]] /\
  @argsort numpy_insertion [1; 1; 0] = [2; 0; 1]%nat /\
  @get_recommendations numpy_insertion sklearn_Q "topwear" scenario_catalog
    example_vectorizer example_tfidf_matrix =
  Returned [(1%nat, product_B); (0%nat, product_A); (2%nat, product_C)].
Proof. repeat split. Qed.

(** C5, as stated, fails: the rows 0 and 1 of the table both have
    similarity 1 with the query; [np.argsort] of the scores 1, 1, 0 is
    2, 0, 1, and the image of row 1 comes first. *)
Lemma tied_images_in_reverse_order :
  @cosine_similarity sklearn_Q [example_embedding] example_embeddings =
    Returned [[1; 1; 0]] /\
  @argsort numpy_insertion [1; 1; 0] = [2; 0; 1]%nat /\
  @recommend_similar_images numpy_insertion sklearn_Q example_embedding
    example_embeddings example_image_paths default_top_n =
  Returned [("filtered_images/2.jpg", 1); ("filtered_images/1.jpg", 1);
            ("filtered_images/3.jpg", 0)].
Proof. repeat split. Qed.

Lemma example_vectorizer_fitted : fitted example_vectorizer.
Proof. apply count_vectorizer_fitted. discriminate. Qed.

Lemma example_tfidf_shape :
  has_shape (length scenario_catalog) (length (vocabulary_ example_vectorizer))
            example_tfidf_matrix.
Proof. split; [reflexivity | repeat constructor]. Qed.

Lemma scenario_catalog_not_empty : scenario_catalog <> [].
Proof. discriminate. Qed.

Lemma top50_bounded_and_sorted_witness :
  @argsort_contract numpy_insertion /\ @cosine_contract sklearn_Q /\
  fitted example_vectorizer /\ scenario_catalog <> [] /\
  has_shape (length scenario_catalog) (length (vocabulary_ example_vectorizer))
            example_tfidf_matrix /\
  exists similarities sel,
    @get_recommendations numpy_insertion sklearn_Q "topwear" scenario_catalog
      example_vectorizer example_tfidf_matrix = Returned sel /\
    (length sel <= 50)%nat /\
    non_increasing (map (score_at similarities) (labels sel)).
Proof.
  split; [exact insertion_argsort_contract |].
  split; [exact sklearn_Q_contract |].
  split; [exact example_vectorizer_fitted |].
  split; [exact scenario_catalog_not_empty |].
  split; [exact example_tfidf_shape |].
  destruct (@top50_bounded_and_sorted numpy_insertion sklearn_Q
              insertion_argsort_contract sklearn_Q_contract
              "topwear" scenario_catalog example_vectorizer example_tfidf_matrix
              example_vectorizer_fitted scenario_catalog_not_empty
              example_tfidf_shape)
    as [similarities [sel [_ [Hsel [_ [Hlen Hsorted]]]]]].
  exists similarities, sel. tauto.
Defined.

Lemma unmatched_query_returns_rows_witness :
  @argsort_contract numpy_insertion /\ @cosine_contract sklearn_Q /\
  fitted example_vectorizer /\ scenario_catalog <> [] /\
  has_shape (length scenario_catalog) (length (vocabulary_ example_vectorizer))
            example_tfidf_matrix /\
  out_of_vocabulary example_vectorizer "sandals" /\
  exists sel,
    @get_recommendations numpy_insertion sklearn_Q "sandals" scenario_catalog
      example_vectorizer example_tfidf_matrix = Returned sel /\
    length sel = 3%nat.
Proof.
  assert (Hoov : out_of_vocabulary example_vectorizer "sandals").
  { intros t [<- | []] [H | [H | []]]; discriminate H. }
  split; [exact insertion_argsort_contract |].
  split; [exact sklearn_Q_contract |].
  split; [exact example_vectorizer_fitted |].
  split; [exact scenario_catalog_not_empty |].
  split; [exact example_tfidf_shape |].
  split; [exact Hoov |].
  destruct (@unmatched_query_returns_rows numpy_insertion sklearn_Q
              insertion_argsort_contract sklearn_Q_contract
              "sandals" scenario_catalog example_vectorizer example_tfidf_matrix
              example_vectorizer_fitted scenario_catalog_not_empty
              example_tfidf_shape (or_intror Hoov))
    as [similarities [sel [_ [_ [Hsel [_ [_ [Hlen _]]]]]]]].
  exists sel. split; [exact Hsel | exact Hlen].
Defined.

Lemma equal_scores_in_reverse_argsort_order_witness :
  @argsort_contract numpy_insertion /\ @cosine_contract sklearn_Q /\
  fitted example_vectorizer /\ scenario_catalog <> [] /\
  has_shape (length scenario_catalog) (length (vocabulary_ example_vectorizer))
            example_tfidf_matrix /\
  exists similarities sel,
    @get_recommendations numpy_insertion sklearn_Q "topwear" scenario_catalog
      example_vectorizer example_tfidf_matrix = Returned sel /\
    NoDup (labels sel) /\
    forall i j, In j (labels sel) ->
      (listed_before (labels sel) i j <->
       listed_before (@argsort numpy_insertion similarities) j i).
Proof.
  split; [exact insertion_argsort_contract |].
  split; [exact sklearn_Q_contract |].
  split; [exact example_vectorizer_fitted |].
  split; [exact scenario_catalog_not_empty |].
  split; [exact example_tfidf_shape |].
  destruct (@equal_scores_in_reverse_argsort_order numpy_insertion sklearn_Q
              insertion_argsort_contract sklearn_Q_contract
              "topwear" scenario_catalog example_vectorizer example_tfidf_matrix
              example_vectorizer_fitted scenario_catalog_not_empty
              example_tfidf_shape)
    as [similarities [sel [_ [Hsel [Hnd [_ [_ [Horder _]]]]]]]].
  exists similarities, sel. split; [exact Hsel |]. split; [exact Hnd | exact Horder].
Defined.

Lemma top_n_pairs_by_score_witness :
  @argsort_contract numpy_insertion /\ @cosine_contract sklearn_Q /\
  example_embeddings <> [] /\ example_embedding <> [] /\
  has_shape (length example_embeddings) (length example_embedding)
            example_embeddings /\
  length example_image_paths = length example_embeddings /\
  (0 <= 2)%Z /\
  exists recs,
    @recommend_similar_images numpy_insertion sklearn_Q example_embedding
      example_embeddings example_image_paths 2 = Returned recs /\
    length recs = 2%nat /\
    non_increasing (map snd recs).
Proof.
  assert (Hshape : has_shape (length example_embeddings) (length example_embedding)
                             example_embeddings)
    by (split; [reflexivity | repeat constructor]).
  assert (Hemb : example_embeddings <> []) by discriminate.
  assert (Hin : example_embedding <> []) by discriminate.
  assert (Htop : (0 <= 2)%Z) by lia.
  split; [exact insertion_argsort_contract |].
  split; [exact sklearn_Q_contract |].
  split; [exact Hemb |]. split; [exact Hin |]. split; [exact Hshape |].
  split; [reflexivity |]. split; [exact Htop |].
  destruct (@top_n_pairs_by_score numpy_insertion sklearn_Q
              insertion_argsort_contract sklearn_Q_contract
              example_embedding example_embeddings example_image_paths 2
              Hemb Hin Hshape eq_refl Htop)
    as [scores [indices [_ [Hrecs [Hlen [_ [_ [Hsorted _]]]]]]]].
  eexists. split; [exact Hrecs |]. split.
  - now rewrite length_map, Hlen.
  - rewrite map_map. simpl. exact Hsorted.
Defined.

(** ** The decoder does not run out of fuel

    Every value that is read uses up some of the text, so the fuel that
    [json_decode] hands out is never the reason for a rejection. *)

Lemma skip_ws_le (s : string) : (String.length (skip_ws s) <= String.length s)%nat.
Proof.
  induction s as [| c s IH]; simpl; [lia |].
  destruct (is_json_ws c); simpl; lia.
Qed.

Lemma drop_le (n : nat) (s : string) : (String.length (drop n s) <= String.length s)%nat.
Proof.
  revert s. induction n as [| n IH]; intros s; simpl; [lia |].
  destruct s as [| c s]; simpl; [lia |]. specialize (IH s). lia.
Qed.

Lemma drop_S_lt (n : nat) (c : ascii) (r : string) :
  (String.length (drop (S n) (String c r)) < String.length (String c r))%nat.
Proof. simpl. pose proof (drop_le n r). lia. Qed.

Lemma take_digits_le (s ds r : string) :
  take_digits s = (ds, r) -> (String.length r <= String.length s)%nat.
Proof.
  revert ds r. induction s as [| c s IH]; intros ds r H; simpl in H.
  - injection H as <- <-. simpl. lia.
  - destruct (is_digit c).
    + destruct (take_digits s) as [ds' r'] eqn:E. injection H as <- <-.
      specialize (IH ds' r' eq_refl). simpl. lia.
    + injection H as <- <-. lia.
Qed.

Ltac crunch_scan IH :=
  repeat match goal with
         | H : Some _ = Some _ |- _ => injection H as <- <-
         | H : None = Some _ |- _ => discriminate H
         | H : scan_string _ _ = Some _ |- _ => apply IH in H; [| simpl in *; lia]
         | H : (if ?b then _ else _) = Some _ |- _ => destruct b
         | H : match ?x with _ => _ end = Some _ |- _ => destruct x
         end;
  simpl in *; try lia.

Lemma scan_string_progress (n : nat) :
  forall s acc t r,
    (String.length s <= n)%nat -> scan_string s acc = Some (t, r) ->
    (String.length r < String.length s)%nat.
Proof.
  induction n as [| n IH]; intros s acc t r Hn H.
  - destruct s; simpl in *; [discriminate | lia].
  - destruct s as [| c s]; [discriminate |].
    cbn [scan_string] in H. crunch_scan IH.
Qed.

Lemma scan_integer_shorter (s int r : string) :
  scan_integer s = Some (int, r) -> (String.length r < String.length s)%nat.
Proof.
  destruct s as [| c s]; simpl; [discriminate |].
  destruct (Ascii.eqb c "0").
  - intros H. injection H as <- <-. lia.
  - destruct (is_digit c); [| discriminate].
    destruct (take_digits s) as [ds r'] eqn:E. intros H. injection H as <- <-.
    apply take_digits_le in E. lia.
Qed.

Lemma scan_fraction_le (s frac r : string) :
  scan_fraction s = (frac, r) -> (String.length r <= String.length s)%nat.
Proof.
  destruct s as [| c s]; simpl.
  - intros H. injection H as <- <-. simpl. lia.
  - destruct (Ascii.eqb c ".").
    + destruct (take_digits s) as [[| d ds] r'] eqn:E; intros H;
        injection H as <- <-; [simpl; lia |].
      apply take_digits_le in E. simpl. lia.
    + intros H. injection H as <- <-. simpl. lia.
Qed.

Lemma scan_exponent_le (s exp r : string) :
  scan_exponent s = (exp, r) -> (String.length r <= String.length s)%nat.
Proof.
  destruct s as [| e s]; simpl.
  - intros H. injection H as <- <-. simpl. lia.
  - destruct (Ascii.eqb e "e" || Ascii.eqb e "E").
    + destruct s as [| g s'].
      * simpl. intros H. injection H as <- <-. simpl. lia.
      * destruct (Ascii.eqb g "-" || Ascii.eqb g "+").
        -- destruct (take_digits s') as [[| d ds] r'] eqn:E; intros H;
             injection H as <- <-; [simpl; lia |].
           apply take_digits_le in E. simpl. lia.
        -- destruct (take_digits (String g s')) as [[| d ds] r'] eqn:E; intros H;
             injection H as <- <-; [simpl; lia |].
           apply take_digits_le in E. simpl in *. lia.
    + intros H. injection H as <- <-. simpl. lia.
Qed.

Lemma scan_number_shorter (s lexeme r : string) :
  scan_number s = Some (lexeme, r) -> (String.length r < String.length s)%nat.
Proof.
  unfold scan_number.
  assert (Hsign : forall sign s1,
             match s with
             | String c r => if Ascii.eqb c "-" then ("-", r) else (EmptyString, s)
             | EmptyString => (EmptyString, s)
             end = (sign, s1) -> (String.length s1 <= String.length s)%nat).
  { intros sign s1. destruct s as [| c s'].
    - intros H. injection H as <- <-. lia.
    - destruct (Ascii.eqb c "-"); intros H; injection H as <- <-; simpl; lia. }
  destruct (match s with
            | String c r => if Ascii.eqb c "-" then ("-", r) else (EmptyString, s)
            | EmptyString => (EmptyString, s)
            end) as [sign s1] eqn:E.
  specialize (Hsign sign s1 eq_refl).
  destruct (scan_integer s1) as [[int r0] |] eqn:Ei; [| discriminate].
  destruct (scan_fraction r0) as [frac r1] eqn:Ef.
  destruct (scan_exponent r1) as [exp r2] eqn:Ee.
  intros H. injection H as <- <-.
  apply scan_integer_shorter in Ei. apply scan_fraction_le in Ef.
  apply scan_exponent_le in Ee. lia.
Qed.

Lemma after_colon_shorter (s r : string) :
  after_colon s = Some r -> (String.length r < String.length s)%nat.
Proof.
  unfold after_colon. pose proof (skip_ws_le s) as Hs.
  destruct (skip_ws s) as [| c r'] eqn:E; [discriminate |].
  destruct (Ascii.eqb c ":"); [| discriminate].
  intros H. injection H as <-. pose proof (skip_ws_le r'). simpl in Hs. lia.
Qed.

Lemma scan_progress (fuel : nat) :
  (forall s v r, scan_once fuel s = Some (v, r) ->
                 (String.length r < String.length s)%nat) /\
  (forall s acc v r, scan_elements fuel s acc = Some (v, r) ->
                     (String.length r < String.length s)%nat) /\
  (forall s acc v r, scan_members fuel s acc = Some (v, r) ->
                     (String.length r < String.length s)%nat).
Proof.
  induction fuel as [| fuel [IHo [IHe IHm]]].
  - repeat split; intros; discriminate.
  - repeat split.
    + intros s v r H. cbn [scan_once] in H.
      destruct s as [| c s0]; [discriminate |].
      destruct (Ascii.eqb c dquote).
      { destruct (scan_string s0 []) as [[t r'] |] eqn:E; [| discriminate].
        injection H as <- <-.
        apply (scan_string_progress _ _ _ _ _ (le_n _)) in E. simpl. lia. }
      destruct (Ascii.eqb c "{").
      { pose proof (skip_ws_le s0) as Hws.
        destruct (skip_ws s0) as [| c1 r1]; [discriminate |].
        destruct (Ascii.eqb c1 "}").
        - injection H as <- <-. simpl in *. lia.
        - apply IHm in H. simpl in *. lia. }
      destruct (Ascii.eqb c "[").
      { pose proof (skip_ws_le s0) as Hws.
        destruct (skip_ws s0) as [| c1 r1]; [discriminate |].
        destruct (Ascii.eqb c1 "]").
        - injection H as <- <-. simpl in *. lia.
        - apply IHe in H. simpl in *. lia. }
      repeat match type of H with
             | (if ?b then _ else _) = Some _ => destruct b
             | match ?x with _ => _ end = Some _ => destruct x as [[? ?] |] eqn:?
             | Some _ = Some _ => injection H as <- <-
             end;
        first [ discriminate
              | exact (drop_S_lt 2 c s0) | exact (drop_S_lt 3 c s0)
              | exact (drop_S_lt 4 c s0) | exact (drop_S_lt 7 c s0)
              | exact (drop_S_lt 8 c s0)
              | eapply scan_number_shorter; eassumption ].
    + intros s acc v r H. cbn [scan_elements] in H.
      destruct (scan_once fuel s) as [[v0 r0] |] eqn:E; [| discriminate].
      apply IHo in E. pose proof (skip_ws_le r0) as Hws.
      destruct (skip_ws r0) as [| c r']; [discriminate |].
      destruct (Ascii.eqb c "]").
      * injection H as <- <-. simpl in *. lia.
      * destruct (Ascii.eqb c ","); [| discriminate].
        apply IHe in H. pose proof (skip_ws_le r'). simpl in *. lia.
    + intros s acc v r H. cbn [scan_members] in H.
      destruct s as [| c s0]; [discriminate |].
      destruct (Ascii.eqb c dquote); [| discriminate].
      destruct (scan_string s0 []) as [[key r1] |] eqn:E1; [| discriminate].
      apply (scan_string_progress _ _ _ _ _ (le_n _)) in E1.
      destruct (after_colon r1) as [r2 |] eqn:E2; [| discriminate].
      apply after_colon_shorter in E2.
      destruct (scan_once fuel r2) as [[v0 r3] |] eqn:E3; [| discriminate].
      apply IHo in E3. pose proof (skip_ws_le r3) as Hws.
      destruct (skip_ws r3) as [| c3 r4]; [discriminate |].
      destruct (Ascii.eqb c3 "}").
      * injection H as <- <-. simpl in *. lia.
      * destruct (Ascii.eqb c3 ","); [| discriminate].
        apply IHm in H. pose proof (skip_ws_le r4). simpl in *. lia.
Qed.

Lemma scan_fuel_enough (f : nat) :
  (forall f' s,
      (2 * String.length s + 1 <= f)%nat -> (2 * String.length s + 1 <= f')%nat ->
      scan_once f s = scan_once f' s) /\
  (forall f' s acc,
      (2 * String.length s + 2 <= f)%nat -> (2 * String.length s + 2 <= f')%nat ->
      scan_elements f s acc = scan_elements f' s acc) /\
  (forall f' s acc,
      (2 * String.length s + 2 <= f)%nat -> (2 * String.length s + 2 <= f')%nat ->
      scan_members f s acc = scan_members f' s acc).
Proof.
  induction f as [| f [IHo [IHe IHm]]].
  - repeat split; intros; lia.
  - repeat split.
    + intros [| f'] s Hf Hf'; [lia |]. cbn [scan_once].
      destruct s as [| c s0]; [reflexivity |].
      destruct (Ascii.eqb c dquote); [reflexivity |].
      destruct (Ascii.eqb c "{").
      { pose proof (skip_ws_le s0) as Hws.
        destruct (skip_ws s0) as [| c1 r1]; [reflexivity |].
        destruct (Ascii.eqb c1 "}"); [reflexivity |].
        apply IHm; simpl in *; lia. }
      destruct (Ascii.eqb c "[").
      { pose proof (skip_ws_le s0) as Hws.
        destruct (skip_ws s0) as [| c1 r1]; [reflexivity |].
        destruct (Ascii.eqb c1 "]"); [reflexivity |].
        apply IHe; simpl in *; lia. }
      reflexivity.
    + intros [| f'] s acc Hf Hf'; [lia |]. cbn [scan_elements].
      rewrite (IHo f' s) by lia.
      destruct (scan_once f' s) as [[v r] |] eqn:E; [| reflexivity].
      apply scan_progress in E. pose proof (skip_ws_le r) as Hws.
      destruct (skip_ws r) as [| c r']; [reflexivity |].
      destruct (Ascii.eqb c "]"); [reflexivity |].
      destruct (Ascii.eqb c ","); [| reflexivity].
      pose proof (skip_ws_le r'). apply IHe; simpl in *; lia.
    + intros [| f'] s acc Hf Hf'; [lia |]. cbn [scan_members].
      destruct s as [| c s0]; [reflexivity |].
      destruct (Ascii.eqb c dquote); [| reflexivity].
      destruct (scan_string s0 []) as [[key r1] |] eqn:E1; [| reflexivity].
      apply (scan_string_progress _ _ _ _ _ (le_n _)) in E1.
      destruct (after_colon r1) as [r2 |] eqn:E2; [| reflexivity].
      apply after_colon_shorter in E2.
      rewrite (IHo f' r2) by (simpl in *; lia).
      destruct (scan_once f' r2) as [[v r3] |] eqn:E3; [| reflexivity].
      apply scan_progress in E3. pose proof (skip_ws_le r3) as Hws.
      destruct (skip_ws r3) as [| c3 r4]; [reflexivity |].
      destruct (Ascii.eqb c3 "}"); [reflexivity |].
      destruct (Ascii.eqb c3 ","); [| reflexivity].
      pose proof (skip_ws_le r4). apply IHm; simpl in *; lia.
Qed.

(** More fuel than [json_decode] gives changes nothing. *)
Lemma json_decode_fuel (s : string) (fuel : nat) :
  (2 * String.length (skip_ws s) + 2 <= fuel)%nat ->
  json_decode s =
  match scan_once fuel (skip_ws s) with
  | Some (v, r) =>
      match skip_ws r with
      | EmptyString => Some v
      | String _ _ => None
      end
  | None => None
  end.
Proof.
  intros H. unfold json_decode.
  now rewrite (proj1 (scan_fuel_enough _) fuel (skip_ws s)) by lia.
Qed.

(** * Further properties of the application *)

(** ** Frames of any row type *)


Lemma iloc0_mask_of {R : Type} (p : R -> bool) (data : list R) :
  iloc0 (mask_of p data) =
  match find p data with
  | Some r => Returned r
  | None => Raised IndexError
  end.
Proof.
  unfold mask_of, rows_of. pose proof (filter_combine_seq_head p data 0) as H.
  destruct (filter _ _) as [| [i r] sel]; simpl; now rewrite H.
Qed.

Lemma find_map {A B : Type} (f : A -> B) (p : B -> bool) (l : list A) :
  find p (map f l) = option_map f (find (fun a => p (f a)) l).
Proof.
  induction l as [| a l IH]; simpl; [reflexivity |].
  destruct (p (f a)); [reflexivity | exact IH].
Qed.

Lemma find_none_iff {A : Type} (p : A -> bool) (l : list A) :
  find p l = None <-> forall a, In a l -> p a = false.
Proof.
  split; [apply find_none |].
  induction l as [| a l IH]; intros H; simpl; [reflexivity |].
  rewrite (H a (or_introl eq_refl)). apply IH. intros b Hb. apply H. now right.
Qed.

Lemma isin_iff (ids : list Z) (r : Product) :
  isin ids r = true <-> In (product_id r) ids.
Proof.
  unfold isin. rewrite existsb_exists. split.
  - intros [x [Hx E]]. apply Z.eqb_eq in E. now subst.
  - intros H. exists (product_id r). split; [exact H | apply Z.eqb_refl].
Qed.

Lemma known_iff (data : DataFrame) (pid : Z) :
  known data pid <-> exists r, In r data /\ product_id r = pid.
Proof.
  unfold known. rewrite existsb_exists. split; intros [r [Hr E]]; exists r;
    (split; [exact Hr |]); now apply Z.eqb_eq.
Qed.

(** ** load_data *)

Lemma prefix_app (p s : string) : String.prefix p (p ++ s) = true.
Proof.
  induction p as [| c p IH]; simpl; [now destruct s |].
  destruct (ascii_dec c c); [exact IH | congruence].
Qed.

Lemma prefix_split (p s : string) :
  String.prefix p s = true -> exists t, s = p ++ t.
Proof.
  revert s. induction p as [| c p IH]; intros s H.
  - now exists s.
  - destruct s as [| d s]; simpl in H; [discriminate H |].
    destruct (ascii_dec c d) as [<- | _]; [| discriminate H].
    destruct (IH s H) as [t ->]. now exists t.
Qed.

Lemma list_ascii_app (a b : string) :
  list_ascii_of_string (a ++ b) = (list_ascii_of_string a ++ list_ascii_of_string b)%list.
Proof. induction a as [| c a IH]; simpl; [reflexivity | now rewrite IH]. Qed.

Lemma string_of_list_app (a b : list ascii) :
  string_of_list_ascii (a ++ b) = string_of_list_ascii a ++ string_of_list_ascii b.
Proof. induction a as [| c a IH]; simpl; [reflexivity | now rewrite IH]. Qed.

Lemma string_rev_app (a b : string) :
  string_rev (a ++ b) = string_rev b ++ string_rev a.
Proof.
  unfold string_rev. now rewrite list_ascii_app, rev_app_distr, string_of_list_app.
Qed.

Lemma endswith_app (s suffix : string) : endswith suffix (s ++ suffix) = true.
Proof. unfold endswith. rewrite string_rev_app. apply prefix_app. Qed.

Lemma image_filename_relative (x : string) :
  String.prefix "/" x = false ->
  image_filename x = "filtered_images/" ++ x ++ ".jpg".
Proof.
  intros H. unfold image_filename, path_join. rewrite H.
  change (String.eqb "filtered_images/" "" || endswith "/" "filtered_images/")
    with true.
  cbv iota. generalize "filtered_images/". intros a.
  induction a as [| c a IH]; simpl; [reflexivity | now rewrite IH].
Qed.

Lemma image_filename_absolute (x : string) :
  String.prefix "/" x = true -> image_filename x = x ++ ".jpg".
Proof. intros H. unfold image_filename, path_join. now rewrite H. Qed.

Section LoadingFacts.

Context {pandas : Pandas}.

Lemma load_data_read (df : Frame) :
  read_csv "fashion_data-_1_.csv" = Returned df ->
  load_data =
  Returned (Some (map (fun r => set_filename (image_filename (filename (item r))) r)
                      (filter (fun r => negb (isin missing_ids (item r)))
                              (filter (fun r => String.eqb (masterCategory r) "Apparel")
                                      df)))).
Proof. intros H. unfold load_data. now rewrite H. Qed.

Lemma filter_twice {A : Type} (p q : A -> bool) (l : list A) :
  filter q (filter p l) = filter (fun x => p x && q x) l.
Proof.
  induction l as [| x l IH]; simpl; [reflexivity |].
  destruct (p x); simpl; [| exact IH]. destruct (q x); [now rewrite IH | exact IH].
Qed.

Lemma load_data_listed (df : Frame) :
  read_csv "fashion_data-_1_.csv" = Returned df ->
  load_data =
  Returned (Some (map (fun r => set_filename (image_filename (filename (item r))) r)
                      (filter listed_apparel df))).
Proof.
  intros H. rewrite (load_data_read df H), filter_twice. reflexivity.
Qed.

Lemma listed_apparel_iff (r : Row) :
  listed_apparel r = true <->
  masterCategory r = "Apparel" /\ ~ In (product_id (item r)) missing_ids.
Proof.
  unfold listed_apparel. rewrite andb_true_iff, String.eqb_eq, negb_true_iff.
  split; intros [Ha Hm]; (split; [exact Ha |]).
  - intros Hin. apply isin_iff in Hin. congruence.
  - destruct (isin missing_ids (item r)) eqn:E; [| reflexivity].
    apply isin_iff in E. contradiction.
Qed.

(** X1. When the CSV is read, [load_data] returns the rows of the CSV whose
    master category is "Apparel" and whose identifier is not one of the five
    removed ones, each once and in the order of the CSV, each with its file
    name replaced and its other cells unchanged; so no row of the loaded
    frame has a removed identifier or another master category.  When the
    read raises, [load_data] returns [None] and does not raise. *)
Theorem load_data_keeps_listed_apparel :
  (forall df,
      read_csv "fashion_data-_1_.csv" = Returned df ->
      exists data,
        load_data = Returned (Some data) /\
        length data = length (filter listed_apparel df) /\
        (forall k,
            nth_error data k =
            option_map (fun r => set_filename (image_filename (filename (item r))) r)
                       (nth_error (filter listed_apparel df) k)) /\
        (forall r',
            In r' data <->
            exists r, In r df /\ masterCategory r = "Apparel" /\
                      ~ In (product_id (item r)) missing_ids /\
                      r' = set_filename (image_filename (filename (item r))) r) /\
        (forall r', In r' data ->
                    masterCategory r' = "Apparel" /\
                    ~ In (product_id (item r')) missing_ids)) /\
  (forall e, read_csv "fashion_data-_1_.csv" = Raised e ->
             load_data = Returned None).
Proof.
  split.
  - intros df Hread. eexists. split; [apply (load_data_listed df Hread) |].
    split; [apply length_map |]. split; [intros k; apply nth_error_map |].
    assert (Hiff : forall r',
               In r' (map (fun r => set_filename (image_filename (filename (item r))) r)
                          (filter listed_apparel df)) <->
               exists r, In r df /\ masterCategory r = "Apparel" /\
                         ~ In (product_id (item r)) missing_ids /\
                         r' = set_filename (image_filename (filename (item r))) r).
    { intros r'. rewrite in_map_iff. split.
      - intros [r [<- Hr]]. apply filter_In in Hr. destruct Hr as [Hr Hl].
        apply listed_apparel_iff in Hl. exists r. tauto.
      - intros [r [Hr [Ha [Hm ->]]]]. exists r. split; [reflexivity |].
        apply filter_In. split; [exact Hr |]. apply listed_apparel_iff. now split. }
    split; [exact Hiff |].
    intros r' Hin. apply Hiff in Hin. destruct Hin as [r [_ [Ha [Hm ->]]]].
    split; [exact Ha | exact Hm].
  - intros e Hread. unfold load_data. now rewrite Hread.
Qed.

(** X2. The file name of each loaded row is made from the file-name cell of
    its row of the CSV, and nothing else of the row changes: the name ends
    with ".jpg"; it is the cell under "filtered_images/" when the cell is a
    relative name, and it is the cell itself followed by ".jpg", outside
    that directory, when the cell starts with "/". *)
Theorem load_data_file_names (df : Frame) :
  read_csv "fashion_data-_1_.csv" = Returned df ->
  exists data,
    load_data = Returned (Some data) /\
    forall k r, nth_error (filter listed_apparel df) k = Some r ->
      exists r',
        nth_error data k = Some r' /\
        r' = set_filename (filename (item r')) r /\
        endswith ".jpg" (filename (item r')) = true /\
        (String.prefix "/" (filename (item r)) = false ->
         filename (item r') = "filtered_images/" ++ filename (item r) ++ ".jpg") /\
        (String.prefix "/" (filename (item r)) = true ->
         filename (item r') = filename (item r) ++ ".jpg").
Proof.
  intros Hread. eexists. split; [apply (load_data_listed df Hread) |].
  intros k r Hk. eexists. split; [rewrite nth_error_map, Hk; reflexivity |].
  simpl. split; [reflexivity |]. split; [apply endswith_app |]. split.
  - apply image_filename_relative.
  - apply image_filename_absolute.
Qed.

End LoadingFacts.

Example load_data_example :
  @load_data (pandas_reading example_csv) = Returned (Some example_frame) /\
  @load_data pandas_failing = Returned None.
Proof. split; reflexivity. Qed.

Lemma load_data_file_names_witness :
  @read_csv (pandas_reading example_csv) "fashion_data-_1_.csv" =
    Returned example_csv /\
  nth_error (filter listed_apparel example_csv) 0 = Some csv_absolute /\
  exists data r',
    @load_data (pandas_reading example_csv) = Returned (Some data) /\
    nth_error data 0 = Some r' /\
    filename (item r') = "/tmp/502.jpg".
Proof.
  split; [reflexivity |]. split; [reflexivity |].
  destruct (@load_data_file_names (pandas_reading example_csv) example_csv eq_refl)
    as [data [Hload Hnames]].
  destruct (Hnames 0%nat csv_absolute eq_refl) as [r' [Hr' [_ [_ [_ Habs]]]]].
  exists data, r'. split; [exact Hload |]. split; [exact Hr' |].
  exact (Habs eq_refl).
Defined.

(** ** Exceptions of the list comprehensions *)

Lemma mapM_first_failure {A B : Type} (f : A -> outcome B) (l : list A) :
  (exists a, In a l /\ exists e, f a = Raised e) ->
  exists a e, In a l /\ f a = Raised e /\ mapM f l = Raised e.
Proof.
  induction l as [| x l IH]; intros [a [Ha [e He]]]; [destruct Ha |].
  simpl. destruct (f x) as [b | e'] eqn:Ex.
  - destruct Ha as [-> | Ha]; [congruence |].
    destruct IH as [a' [e'' [Ha' [He' Hm]]]];
      [exists a; split; [exact Ha | now exists e] |].
    exists a', e''. split; [now right |]. split; [exact He' |].
    simpl. now rewrite Hm.
  - exists x, e'. split; [now left |]. split; [exact Ex | reflexivity].
Qed.

Lemma not_known_find (data : DataFrame) (pid : Z) :
  ~ known data pid -> find (fun r => Z.eqb (product_id r) pid) data = None.
Proof.
  unfold known. intros H. apply find_none_iff. intros r Hr.
  destruct (Z.eqb (product_id r) pid) eqn:E; [| reflexivity].
  destruct H. apply existsb_exists. now exists r.
Qed.

Section PipelineErrors.

Context {imaging : Imaging}.

Lemma load_image_cases (data : DataFrame) (pid : Z) :
  load_image_from_dataset pid data =
  match find (fun r => Z.eqb (product_id r) pid) data with
  | Some r => Returned (Image_open (filename r))
  | None => Raised IndexError
  end.
Proof.
  unfold load_image_from_dataset. rewrite iloc0_map, iloc0_mask.
  now destruct (find _ data).
Qed.

Lemma first_selected_exists (ids : list Z) (data : DataFrame) :
  ids <> [] -> Forall (known data) ids ->
  exists sd, first_selected ids data = Some sd.
Proof.
  intros Hne Hk. destruct ids as [| pid ids]; [congruence |].
  apply Forall_inv in Hk. apply known_iff in Hk. destruct Hk as [r [Hr Hid]].
  unfold first_selected. destruct (find (isin (pid :: ids)) data) as [sd |] eqn:E;
    [eauto |].
  pose proof (proj1 (find_none_iff _ _) E r Hr) as Hfalse.
  assert (isin (pid :: ids) r = true) by (apply isin_iff; left; congruence).
  congruence.
Qed.

(** X3. With the decision "yes", the complementary filter raises IndexError
    as soon as one selected identifier is not in the catalog, whatever the
    rationale is, and also when nothing is selected and the rationale is
    text.  With a non-empty selection from the catalog and a rationale that
    is text it returns, whether the images of the selected products can be
    opened or not. *)
Theorem filter_index_error (ids : list Z) (data : DataFrame) :
  ((exists pid, In pid ids /\ ~ known data pid) ->
   forall reason,
     recommend_complementary_products ids (PStr "yes") reason data =
     Raised IndexError) /\
  (forall text,
      recommend_complementary_products [] (PStr "yes") (PStr text) data =
      Raised IndexError) /\
  (ids <> [] -> Forall (known data) ids ->
   forall text, exists res,
     recommend_complementary_products ids (PStr "yes") (PStr text) data =
     Returned res).
Proof.
  split; [| split].
  - intros [pid [Hin Hnot]] reason. unfold recommend_complementary_products. simpl.
    destruct (mapM_first_failure (fun p => load_image_from_dataset p data) ids)
      as [a [e [_ [He Hm]]]].
    + exists pid. split; [exact Hin |]. exists IndexError.
      rewrite load_image_cases. now rewrite (not_known_find data pid Hnot).
    + rewrite Hm. rewrite load_image_cases in He.
      destruct (find (fun r => Z.eqb (product_id r) a) data);
        [discriminate He | now injection He as <-].
  - intros text. unfold recommend_complementary_products. simpl.
    rewrite iloc0_mask. replace (find (isin []) data) with (@None Product);
      [reflexivity |].
    symmetry. apply find_none_iff. reflexivity.
  - intros Hne Hk text.
    destruct (first_selected_exists ids data Hne Hk) as [sd Hsd].
    eexists. apply (recommend_yes ids text data sd Hk Hsd).
Qed.

(** X4. With the decision "yes" and selected identifiers of the catalog, a
    rationale that is not text (a number, a list, an object, null or a
    truth value, as the judge hands on from the reply) makes the
    complementary filter raise AttributeError. *)
Theorem filter_raises_on_rationale_not_text (ids : list Z) (reason : pyval)
        (data : DataFrame) :
  Forall (known data) ids ->
  is_text reason = false ->
  recommend_complementary_products ids (PStr "yes") reason data = Raised AttributeError.
Proof.
  intros Hk Hr. unfold recommend_complementary_products. simpl.
  destruct (mapM_returns (fun pid => load_image_from_dataset pid data) ids) as [imgs [-> _]].
  - eapply Forall_impl; [| exact Hk]. intros pid Hp.
    rewrite load_image_cases. destruct (known_find data pid Hp) as [r ->]. eauto.
  - simpl. destruct reason; try reflexivity. discriminate Hr.
Qed.

Section JudgeErrors.

Context {json : Json} {model : GenerativeModel}.

Lemma open_selected_cases (data : DataFrame) (pid : Z) :
  open_selected data pid =
  match find (fun r => Z.eqb (product_id r) pid) data with
  | Some r => match Image_open (filename r) with
              | Some img => Returned img
              | None => Raised IOError
              end
  | None => Raised IndexError
  end.
Proof.
  unfold open_selected. rewrite iloc0_map, iloc0_mask.
  now destruct (find _ data).
Qed.

(** X5. The judge opens the images outside its [try]: when a selected
    identifier is not in the catalog, or the image of a selected product
    cannot be opened, [get_combination_feedback] raises IndexError or
    IOError to its caller, whatever the model would reply. *)
Theorem judge_raises_when_image_is_missing (ids : list Z) (data : DataFrame) :
  (exists pid, In pid ids /\
               (~ known data pid \/
                exists r, find (fun r => Z.eqb (product_id r) pid) data = Some r /\
                          Image_open (filename r) = None)) ->
  exists e, (e = IndexError \/ e = IOError) /\
            get_combination_feedback ids data = Raised e.
Proof.
  intros [pid [Hin Hbad]]. unfold get_combination_feedback.
  destruct (mapM_first_failure (open_selected data) ids) as [a [e [_ [He Hm]]]].
  - exists pid. split; [exact Hin |]. rewrite open_selected_cases.
    destruct Hbad as [Hnot | [r [Hr Hopen]]].
    + rewrite (not_known_find data pid Hnot). eauto.
    + rewrite Hr, Hopen. eauto.
  - exists e. rewrite Hm. split; [| reflexivity].
    rewrite open_selected_cases in He.
    destruct (find (fun r => Z.eqb (product_id r) a) data) as [r |];
      [| injection He as <-; now left].
    destruct (Image_open (filename r)); [discriminate He | injection He as <-; now right].
Qed.

End JudgeErrors.

End PipelineErrors.

Example filter_index_error_example :
  @recommend_complementary_products imaging_nothing [1; 99]%Z (PStr "yes")
    (PStr scenario_rationale) scenario_catalog = Raised IndexError /\
  @recommend_complementary_products imaging_nothing [1; 3]%Z (PStr "yes")
    (PStr scenario_rationale) scenario_catalog =
  Returned [(0%nat, project product_A); (1%nat, project product_B)].
Proof. split; reflexivity. Qed.

Lemma filter_raises_on_rationale_not_text_witness :
  Forall (known scenario_catalog) [1; 3]%Z /\
  is_text (PNum "2") = false /\
  @recommend_complementary_products imaging_paths [1; 3]%Z (PStr "yes")
    (PNum "2") scenario_catalog = Raised AttributeError.
Proof.
  assert (Hk : Forall (known scenario_catalog) [1; 3]%Z) by (repeat constructor).
  split; [exact Hk |]. split; [reflexivity |].
  exact (@filter_raises_on_rationale_not_text imaging_paths [1; 3]%Z (PNum "2")
           scenario_catalog Hk eq_refl).
Defined.

Lemma judge_raises_when_image_is_missing_witness :
  find (fun r => Z.eqb (product_id r) 3) scenario_catalog = Some product_C /\
  @Image_open imaging_nothing (filename product_C) = None /\
  exists e, (e = IndexError \/ e = IOError) /\
            @get_combination_feedback imaging_nothing json_decoder
              {| generate_content := fun _ => Returned reply_in_prose |}
              [1; 3]%Z scenario_catalog = Raised e.
Proof.
  split; [reflexivity |]. split; [reflexivity |].
  apply (@judge_raises_when_image_is_missing imaging_nothing json_decoder).
  exists 3%Z. split; [right; now left |]. right. exists product_C. now split.
Defined.

(** ** The outfit page *)

Lemma link_of_cases (data : Frame) (pid : Z) :
  link_of data pid =
  match find (fun r => Z.eqb (product_id (item r)) pid) data with
  | Some r => Returned (link r)
  | None => Raised IndexError
  end.
Proof.
  unfold link_of. rewrite iloc0_map, iloc0_mask_of. now destruct (find _ data).
Qed.

Lemma link_of_known (data : Frame) (pid : Z) (l : string) :
  link_of data pid = Returned l -> known (products data) pid.
Proof.
  rewrite link_of_cases. intros H.
  destruct (find (fun r => Z.eqb (product_id (item r)) pid) data) as [r |] eqn:E;
    [| discriminate H].
  apply find_some in E. destruct E as [Hin Hid].
  apply known_iff. exists (item r). split; [now apply in_map |].
  now apply Z.eqb_eq.
Qed.

Section OutfitFacts.

Context {imaging : Imaging} {json : Json} {model : GenerativeModel}.

Lemma parse_feedback_cases (all_responses : list string) :
  parse_feedback all_responses =
  match json_loads (cleaned_response all_responses) with
  | Some (PDict kvs) =>
      Returned (dict_get "decision" kvs (PStr "Unknown"),
                dict_get "reason" kvs (PStr "No reason provided"))
  | _ => Returned (PStr "Unknown", PStr "Response parsing error")
  end.
Proof.
  unfold parse_feedback, loads.
  destruct (json_loads (cleaned_response all_responses)) as [[] |]; reflexivity.
Qed.

Lemma feedback_of_reply (ids : list Z) (data : DataFrame)
      (selected_images : list Image) (all_responses : list string) :
  mapM (open_selected data) ids = Returned selected_images ->
  generate_content (build_contents selected_images) = Returned all_responses ->
  get_combination_feedback ids data = parse_feedback all_responses.
Proof.
  intros Hi Hr. unfold get_combination_feedback. rewrite Hi. simpl. now rewrite Hr.
Qed.

(** X6. On the outfit page with two selected products whose images open,
    every reply of the model except an object whose decision is exactly the
    text "yes" ends in the advice that the products cannot be combined, with
    no recommendation and without an exception: so does a reply that cannot
    be parsed, shown with the decision "Unknown", and so does a decision
    spelled "Yes". *)
Theorem outfit_page_without_yes (id0 id1 : Z) (data : Frame) (img1 img2 : string)
        (selected_images : list Image) (all_responses : list string) :
  link_of data id0 = Returned img1 ->
  link_of data id1 = Returned img2 ->
  mapM (open_selected (products data)) [id0; id1] = Returned selected_images ->
  generate_content (build_contents selected_images) = Returned all_responses ->
  says_yes (json_loads (cleaned_response all_responses)) = false ->
  exists decision,
    outfit_page [id0; id1] data =
    Returned (Judged img1 img2 decision
                     (reason_of (json_loads (cleaned_response all_responses)))
                     CannotCombine) /\
    decision <> PStr "yes" /\
    (json_loads (cleaned_response all_responses) = None -> decision = PStr "Unknown").
Proof.
  intros H0 H1 Hi Hr Hno. unfold outfit_page. rewrite H0, H1. simpl.
  rewrite (feedback_of_reply _ _ _ _ Hi Hr), parse_feedback_cases.
  destruct (json_loads (cleaned_response all_responses)) as [v |] eqn:E.
  - destruct v as [| b | n | s | l | kvs];
      try (exists (PStr "Unknown"); simpl; repeat split; discriminate).
    simpl in Hno. simpl. rewrite Hno.
    exists (dict_get "decision" kvs (PStr "Unknown")). split; [reflexivity |].
    split; [| discriminate].
    intros Heq. rewrite Heq in Hno. discriminate Hno.
  - exists (PStr "Unknown"). simpl. repeat split. discriminate.
Qed.

(** X7. On the outfit page, a reply whose decision is "yes" and whose reason
    is not text (a number, say) is not caught anywhere: the page raises
    AttributeError, from the [reason.lower()] of the complementary filter. *)
Theorem outfit_page_raises_on_reason_not_text (id0 id1 : Z) (data : Frame)
        (img1 img2 : string) (selected_images : list Image)
        (all_responses : list string) :
  link_of data id0 = Returned img1 ->
  link_of data id1 = Returned img2 ->
  mapM (open_selected (products data)) [id0; id1] = Returned selected_images ->
  generate_content (build_contents selected_images) = Returned all_responses ->
  says_yes (json_loads (cleaned_response all_responses)) = true ->
  is_text (reason_of (json_loads (cleaned_response all_responses))) = false ->
  outfit_page [id0; id1] data = Raised AttributeError.
Proof.
  intros H0 H1 Hi Hr Hyes Htext. unfold outfit_page. rewrite H0, H1. simpl.
  rewrite (feedback_of_reply _ _ _ _ Hi Hr), parse_feedback_cases.
  destruct (json_loads (cleaned_response all_responses)) as [[| b | n | s | l | kvs] |];
    try discriminate Hyes.
  simpl in Hyes, Htext. simpl. rewrite Hyes.
  assert (Hk : Forall (known (products data)) [id0; id1]).
  { repeat constructor; eapply link_of_known; eassumption. }
  unfold recommend_complementary_products.
  destruct (dict_get "decision" kvs (PStr "Unknown")); try discriminate Hyes.
  rewrite Hyes.
  destruct (mapM_returns (fun pid => load_image_from_dataset pid (products data))
                         [id0; id1]) as [imgs [-> _]].
  - eapply Forall_impl; [| exact Hk]. intros pid Hp.
    rewrite load_image_cases. destruct (known_find _ pid Hp) as [r ->]. eauto.
  - simpl. now destruct (dict_get "reason" kvs (PStr "No reason provided")).
Qed.

(** X8. On the outfit page, a reply whose decision is "yes" and whose reason
    is text never raises: the page shows the rows that the complementary
    filter keeps for the first selected product of the catalog, as a table
    when there is at least one, and otherwise the note that nothing
    complementary was found. *)
Theorem outfit_page_with_yes (id0 id1 : Z) (data : Frame)
        (img1 img2 : string) (selected_images : list Image)
        (all_responses : list string) (text : string) :
  link_of data id0 = Returned img1 ->
  link_of data id1 = Returned img2 ->
  mapM (open_selected (products data)) [id0; id1] = Returned selected_images ->
  generate_content (build_contents selected_images) = Returned all_responses ->
  says_yes (json_loads (cleaned_response all_responses)) = true ->
  reason_of (json_loads (cleaned_response all_responses)) = PStr text ->
  exists sd advice,
    first_selected [id0; id1] (products data) = Some sd /\
    outfit_page [id0; id1] data =
    Returned (Judged img1 img2 (PStr "yes") (PStr text) advice) /\
    (advice = NoComplementary <->
     forall r, In r (products data) -> active_match (lower text) sd r = false) /\
    (forall res, advice = Complementary res ->
       forall i r, nth_error (products data) i = Some r ->
         (In (i, project r) res <-> active_match (lower text) sd r = true)) /\
    advice <> CannotCombine.
Proof.
  intros H0 H1 Hi Hr Hyes Htext.
  assert (Hk : Forall (known (products data)) [id0; id1]).
  { repeat constructor; eapply link_of_known; eassumption. }
  destruct (first_selected_exists [id0; id1] (products data)) as [sd Hsd];
    [discriminate | exact Hk |].
  unfold outfit_page. rewrite H0, H1. simpl.
  rewrite (feedback_of_reply _ _ _ _ Hi Hr), parse_feedback_cases.
  destruct (json_loads (cleaned_response all_responses)) as [[| b | n | s | l | kvs] |];
    try discriminate Hyes.
  simpl in Hyes, Htext. simpl. rewrite Hyes, Htext.
  destruct (dict_get "decision" kvs (PStr "Unknown")) as [| | | d | |];
    try discriminate Hyes.
  simpl in Hyes. apply String.eqb_eq in Hyes. subst d.
  rewrite (recommend_yes [id0; id1] text (products data) sd Hk Hsd). simpl.
  exists sd.
  destruct (project_sel (mask (active_match (lower text) sd) (products data)))
    as [| x res] eqn:E.
  - exists NoComplementary. split; [exact Hsd |]. split; [reflexivity |].
    split; [| split; [discriminate | discriminate]].
    split; [| reflexivity]. intros _ r Hin.
    destruct (active_match (lower text) sd r) eqn:Ea; [| reflexivity].
    apply In_nth_error in Hin. destruct Hin as [i Hi'].
    pose proof (proj2 (in_project_mask _ _ i r Hi') Ea) as Hin'.
    rewrite E in Hin'. destruct Hin'.
  - exists (Complementary (x :: res)). split; [exact Hsd |]. split; [reflexivity |].
    split; [| split; [| discriminate]].
    + split; [discriminate |]. intros Hnone. exfalso.
      assert (Hx : In x (project_sel (mask (active_match (lower text) sd)
                                           (products data))))
        by (rewrite E; now left).
      destruct x as [i d]. apply in_project_sel in Hx.
      destruct Hx as [r [Hi' [Hp _]]]. apply nth_error_In in Hi'.
      rewrite (Hnone r Hi') in Hp. discriminate Hp.
    + intros res' Hres i r Hi'. injection Hres as <-. rewrite <- E.
      now apply in_project_mask.
Qed.

End OutfitFacts.

Lemma outfit_page_without_yes_witness :
  link_of example_frame 503 = Returned "http://img/503.jpg" /\
  link_of example_frame 504 = Returned "http://img/504.jpg" /\
  says_yes (json_decode (cleaned_response reply_capital_yes)) = false /\
  exists decision,
    @outfit_page imaging_paths json_decoder (model_replying reply_capital_yes)
      [503; 504]%Z example_frame =
    Returned (Judged "http://img/503.jpg" "http://img/504.jpg" decision
                     (PStr "They match.") CannotCombine).
Proof.
  split; [reflexivity |]. split; [reflexivity |]. split; [reflexivity |].
  destruct (@outfit_page_without_yes imaging_paths json_decoder
              (model_replying reply_capital_yes) 503%Z 504%Z example_frame
              "http://img/503.jpg" "http://img/504.jpg"
              ["filtered_images/503.jpg"; "filtered_images/504.jpg"]
              reply_capital_yes eq_refl eq_refl eq_refl eq_refl eq_refl)
    as [decision [Hpage _]].
  exists decision. exact Hpage.
Defined.

Lemma outfit_page_raises_on_reason_not_text_witness :
  link_of example_frame 503 = Returned "http://img/503.jpg" /\
  link_of example_frame 504 = Returned "http://img/504.jpg" /\
  says_yes (json_decode (cleaned_response reply_yes_number)) = true /\
  is_text (reason_of (json_decode (cleaned_response reply_yes_number))) = false /\
  @outfit_page imaging_paths json_decoder (model_replying reply_yes_number)
    [503; 504]%Z example_frame = Raised AttributeError.
Proof.
  split; [reflexivity |]. split; [reflexivity |]. split; [reflexivity |].
  split; [reflexivity |].
  exact (@outfit_page_raises_on_reason_not_text imaging_paths json_decoder
           (model_replying reply_yes_number) 503%Z 504%Z example_frame
           "http://img/503.jpg" "http://img/504.jpg"
           ["filtered_images/503.jpg"; "filtered_images/504.jpg"]
           reply_yes_number eq_refl eq_refl eq_refl eq_refl eq_refl eq_refl).
Defined.

Lemma outfit_page_with_yes_witness :
  link_of example_frame 503 = Returned "http://img/503.jpg" /\
  link_of example_frame 504 = Returned "http://img/504.jpg" /\
  says_yes (json_decode (cleaned_response reply_yes_text)) = true /\
  reason_of (json_decode (cleaned_response reply_yes_text)) =
    PStr "A relaxed Blue Casual outfit." /\
  exists advice,
    @outfit_page imaging_paths json_decoder (model_replying reply_yes_text)
      [503; 504]%Z example_frame =
    Returned (Judged "http://img/503.jpg" "http://img/504.jpg" (PStr "yes")
                     (PStr "A relaxed Blue Casual outfit.") advice).
Proof.
  split; [reflexivity |]. split; [reflexivity |]. split; [reflexivity |].
  split; [reflexivity |].
  destruct (@outfit_page_with_yes imaging_paths json_decoder
              (model_replying reply_yes_text) 503%Z 504%Z example_frame
              "http://img/503.jpg" "http://img/504.jpg"
              ["filtered_images/503.jpg"; "filtered_images/504.jpg"]
              reply_yes_text "A relaxed Blue Casual outfit."
              eq_refl eq_refl eq_refl eq_refl eq_refl eq_refl)
    as [sd [advice [_ [Hpage _]]]].
  exists advice. exact Hpage.
Defined.


(** ** More on the two rankings *)

Section RankingMore.

Context {np : Numpy} {sk : Sklearn}.
Hypothesis argsort_ok : argsort_contract.
Hypothesis cosine_ok : cosine_contract.

Lemma left_out_scores_less (s : Vector) (k : nat) (i j : nat) :
  In i (firstn k (rev (argsort s))) ->
  (j < length s)%nat ->
  ~ In j (firstn k (rev (argsort s))) ->
  score_at s j <= score_at s i.
Proof.
  intros Hi Hj Hnot.
  assert (Hdesc : StronglySorted (fun a b => score_at s b <= score_at s a)
                                 (rev (argsort s))).
  { apply (sorted_rev (fun a b => score_at s a <= score_at s b)).
    now destruct (argsort_ok s). }
  assert (Hjl : In j (rev (argsort s))).
  { apply -> in_rev. destruct (argsort_ok s) as [Hp _].
    apply (Permutation_in _ (Permutation_sym Hp)). apply in_seq. lia. }
  rewrite <- (firstn_skipn k (rev (argsort s))) in Hjl, Hdesc.
  apply in_app_or in Hjl. destruct Hjl as [Hjl | Hjl]; [contradiction |].
  apply sorted_app_iff in Hdesc. destruct Hdesc as [_ [_ Hcross]].
  now apply (Hcross i j).
Qed.

(** X9. For every query against a non-empty indexed catalog,
    [get_recommendations] returns exactly 50 rows, or the whole catalog when
    it has fewer, no row twice, and no catalog row that is left out has a
    higher similarity than a row that is returned. *)
Theorem top50_distinct_and_best (user_input : string) (data : DataFrame)
        (vectorizer : TfidfVectorizer) (tfidf_matrix : Matrix) :
  fitted vectorizer -> data <> [] ->
  has_shape (length data) (length (vocabulary_ vectorizer)) tfidf_matrix ->
  exists similarities sel,
    cosine_similarity (transform vectorizer [user_input]) tfidf_matrix =
      Returned [similarities] /\
    get_recommendations user_input data vectorizer tfidf_matrix = Returned sel /\
    length sel = Nat.min 50 (length data) /\
    NoDup (labels sel) /\
    (forall i j, In i (labels sel) -> (j < length data)%nat -> ~ In j (labels sel) ->
                 score_at similarities j <= score_at similarities i).
Proof.
  intros Hv Hdata HM.
  destruct (query_scores cosine_ok user_input data vectorizer tfidf_matrix Hv Hdata HM)
    as [s [Hs [Hlen _]]].
  destruct (top50_rows argsort_ok s data Hlen) as [sel [Hsel [Hl [Hn _]]]].
  exists s, sel. split; [exact Hs |]. split.
  { unfold get_recommendations. rewrite Hs. simpl. now rewrite app_nil_r. }
  split; [exact Hn |]. rewrite Hl. split.
  - apply NoDup_rev. unfold last_n.
    apply (NoDup_app_remove_l (firstn (length (argsort s) - 50) (argsort s))).
    rewrite firstn_skipn. apply (argsort_NoDup argsort_ok).
  - rewrite rev_last_n. intros i j Hi Hj Hnot.
    apply (left_out_scores_less s _ i j Hi); [lia | exact Hnot].
Qed.

Lemma similar_images_indices (input_embedding : Vector) (embeddings : Matrix)
      (image_paths : list string) :
  embeddings <> [] -> input_embedding <> [] ->
  has_shape (length embeddings) (length input_embedding) embeddings ->
  exists scores,
    cosine_similarity [input_embedding] embeddings = Returned [scores] /\
    length scores = length embeddings /\
    forall top_n,
      recommend_similar_images input_embedding embeddings image_paths top_n =
      mapM (fun i => p <- getitem image_paths i ;;
                     s <- getitem scores i ;;
                     Returned (p, s))
           (slice_to top_n (rev (argsort scores))).
Proof.
  intros Hemb Hin Hshape.
  destruct (cosine_single_row cosine_ok input_embedding embeddings (length embeddings)
              (length input_embedding) eq_refl Hshape) as [s [Hs [Hlen _]]].
  - destruct embeddings; [congruence | simpl; lia].
  - destruct input_embedding; [congruence | simpl; lia].
  - exists s. split; [exact Hs |]. split; [exact Hlen |].
    intros top_n. unfold recommend_similar_images. now rewrite Hs.
Qed.

(** X10. A negative [top_n] is not rejected: for a non-empty embedding table
    with one image reference per row, [recommend_similar_images] then
    returns the pairs of all rows but the [-top_n] with the lowest scores
    (none when the table has no more rows than that), in non-increasing
    order of score. *)
Theorem negative_top_n_drops_the_lowest (input_embedding : Vector)
        (embeddings : Matrix) (image_paths : list string) (top_n : Z) :
  embeddings <> [] -> input_embedding <> [] ->
  has_shape (length embeddings) (length input_embedding) embeddings ->
  length image_paths = length embeddings ->
  (top_n < 0)%Z ->
  exists scores indices,
    cosine_similarity [input_embedding] embeddings = Returned [scores] /\
    recommend_similar_images input_embedding embeddings image_paths top_n =
      Returned (map (fun i => (nth i image_paths "", score_at scores i)) indices) /\
    length indices = (length embeddings - Z.to_nat (- top_n))%nat /\
    NoDup indices /\
    Forall (fun i => (i < length embeddings)%nat) indices /\
    non_increasing (map (score_at scores) indices) /\
    (forall i j, In i indices -> (j < length embeddings)%nat -> ~ In j indices ->
                 score_at scores j <= score_at scores i).
Proof.
  intros Hemb Hin Hshape Hpaths Htop.
  destruct (similar_images_indices input_embedding embeddings image_paths
              Hemb Hin Hshape) as [s [Hs [Hlen Hrec]]].
  assert (Hslice : slice_to top_n (rev (argsort s)) =
                   firstn (length embeddings - Z.to_nat (- top_n)) (rev (argsort s))).
  { unfold slice_to. destruct (Z.leb_spec 0 top_n); [lia |].
    now rewrite length_rev, (argsort_length argsort_ok), Hlen. }
  assert (Hrange : Forall (fun i => (i < length embeddings)%nat)
                          (slice_to top_n (rev (argsort s)))).
  { apply Forall_forall. intros i Hi. apply slice_to_incl, in_rev in Hi.
    apply (argsort_in_range argsort_ok) in Hi. lia. }
  exists s, (slice_to top_n (rev (argsort s))).
  split; [exact Hs |]. split.
  { rewrite Hrec.
    exact (pairs_of_indices image_paths s _ (length embeddings) Hpaths Hlen Hrange). }
  split.
  { rewrite Hslice, length_firstn, length_rev, (argsort_length argsort_ok), Hlen. lia. }
  split.
  { rewrite Hslice.
    apply (NoDup_app_remove_r _ (skipn (length embeddings - Z.to_nat (- top_n))
                                       (rev (argsort s)))).
    rewrite firstn_skipn. apply NoDup_rev, (argsort_NoDup argsort_ok). }
  split; [exact Hrange |]. split.
  { apply sorted_map, sorted_slice_to.
    apply (sorted_rev (fun i j => score_at s i <= score_at s j)).
    now destruct (argsort_ok s). }
  rewrite Hslice. intros i j Hi Hj Hnot.
  apply (left_out_scores_less s _ i j Hi); [lia | exact Hnot].
Qed.

Lemma pair_raises_index_error (image_paths : list string) (scores : Vector)
      (i : nat) (e : exn) :
  (p <- getitem image_paths i ;; s <- getitem scores i ;; Returned (p, s)) = Raised e ->
  e = IndexError.
Proof.
  unfold getitem. destruct (nth_error image_paths i); simpl.
  - destruct (nth_error scores i); simpl; intros H; [discriminate H | now injection H].
  - intros H. now injection H.
Qed.

(** X11. When there are fewer image references than rows in the embedding
    table and [top_n] is at least the number of rows, so that every row is
    asked for, [recommend_similar_images] raises IndexError. *)
Theorem too_few_image_paths_raise (input_embedding : Vector)
        (embeddings : Matrix) (image_paths : list string) (top_n : Z) :
  embeddings <> [] -> input_embedding <> [] ->
  has_shape (length embeddings) (length input_embedding) embeddings ->
  (length image_paths < length embeddings)%nat ->
  (Z.of_nat (length embeddings) <= top_n)%Z ->
  recommend_similar_images input_embedding embeddings image_paths top_n =
  Raised IndexError.
Proof.
  intros Hemb Hin Hshape Hpaths Htop.
  destruct (similar_images_indices input_embedding embeddings image_paths
              Hemb Hin Hshape) as [s [Hs [Hlen Hrec]]].
  rewrite Hrec.
  assert (Hslice : slice_to top_n (rev (argsort s)) = rev (argsort s)).
  { unfold slice_to. destruct (Z.leb_spec 0 top_n); [| lia].
    apply firstn_all2. rewrite length_rev, (argsort_length argsort_ok). lia. }
  rewrite Hslice.
  destruct (mapM_first_failure
              (fun i => p <- getitem image_paths i ;;
                        s0 <- getitem s i ;; Returned (p, s0))
              (rev (argsort s))) as [a [e [_ [He Hm]]]].
  - exists (length image_paths). split.
    + apply -> in_rev. destruct (argsort_ok s) as [Hp _].
      apply (Permutation_in _ (Permutation_sym Hp)). apply in_seq. lia.
    + exists IndexError. unfold getitem at 1.
      now rewrite (proj2 (nth_error_None image_paths (length image_paths)) (le_n _)).
  - rewrite Hm. f_equal. exact (pair_raises_index_error _ _ _ _ He).
Qed.

End RankingMore.

Lemma top50_distinct_and_best_witness :
  @argsort_contract numpy_insertion /\ @cosine_contract sklearn_Q /\
  fitted example_vectorizer /\ scenario_catalog <> [] /\
  has_shape (length scenario_catalog) (length (vocabulary_ example_vectorizer))
            example_tfidf_matrix /\
  exists sel,
    @get_recommendations numpy_insertion sklearn_Q "topwear" scenario_catalog
      example_vectorizer example_tfidf_matrix = Returned sel /\
    length sel = 3%nat /\ NoDup (labels sel).
Proof.
  split; [exact insertion_argsort_contract |].
  split; [exact sklearn_Q_contract |].
  split; [exact example_vectorizer_fitted |].
  split; [exact scenario_catalog_not_empty |].
  split; [exact example_tfidf_shape |].
  destruct (@top50_distinct_and_best numpy_insertion sklearn_Q
              insertion_argsort_contract sklearn_Q_contract
              "topwear" scenario_catalog example_vectorizer example_tfidf_matrix
              example_vectorizer_fitted scenario_catalog_not_empty
              example_tfidf_shape)
    as [similarities [sel [_ [Hsel [Hlen [Hnd _]]]]]].
  exists sel. split; [exact Hsel |]. split; [exact Hlen | exact Hnd].
Defined.

Lemma example_embeddings_shape :
  has_shape (length example_embeddings) (length example_embedding) example_embeddings.
Proof. split; [reflexivity | repeat constructor]. Qed.

Lemma example_embeddings_not_empty : example_embeddings <> [].
Proof. discriminate. Qed.

Lemma example_embedding_not_empty : example_embedding <> [].
Proof. discriminate. Qed.

Lemma negative_top_n_drops_the_lowest_witness :
  @argsort_contract numpy_insertion /\ @cosine_contract sklearn_Q /\
  example_embeddings <> [] /\ example_embedding <> [] /\
  has_shape (length example_embeddings) (length example_embedding)
            example_embeddings /\
  length example_image_paths = length example_embeddings /\
  (-1 < 0)%Z /\
  exists recs,
    @recommend_similar_images numpy_insertion sklearn_Q example_embedding
      example_embeddings example_image_paths (-1) = Returned recs /\
    length recs = 2%nat.
Proof.
  assert (Htop : (-1 < 0)%Z) by lia.
  split; [exact insertion_argsort_contract |].
  split; [exact sklearn_Q_contract |].
  split; [exact example_embeddings_not_empty |].
  split; [exact example_embedding_not_empty |].
  split; [exact example_embeddings_shape |].
  split; [reflexivity |]. split; [exact Htop |].
  destruct (@negative_top_n_drops_the_lowest numpy_insertion sklearn_Q
              insertion_argsort_contract sklearn_Q_contract
              example_embedding example_embeddings example_image_paths (-1)
              example_embeddings_not_empty example_embedding_not_empty
              example_embeddings_shape eq_refl Htop)
    as [scores [indices [_ [Hrecs [Hlen _]]]]].
  eexists. split; [exact Hrecs |]. rewrite length_map. exact Hlen.
Defined.

Lemma too_few_image_paths_raise_witness :
  @argsort_contract numpy_insertion /\ @cosine_contract sklearn_Q /\
  example_embeddings <> [] /\ example_embedding <> [] /\
  has_shape (length example_embeddings) (length example_embedding)
            example_embeddings /\
  (length ["filtered_images/1.jpg"; "filtered_images/2.jpg"]
   < length example_embeddings)%nat /\
  (Z.of_nat (length example_embeddings) <= 16)%Z /\
  @recommend_similar_images numpy_insertion sklearn_Q example_embedding
    example_embeddings ["filtered_images/1.jpg"; "filtered_images/2.jpg"] 16 =
  Raised IndexError.
Proof.
  assert (Hpaths : (length ["filtered_images/1.jpg"; "filtered_images/2.jpg"]
                    < length example_embeddings)%nat) by (simpl; lia).
  assert (Htop : (Z.of_nat (length example_embeddings) <= 16)%Z) by (simpl; lia).
  split; [exact insertion_argsort_contract |].
  split; [exact sklearn_Q_contract |].
  split; [exact example_embeddings_not_empty |].
  split; [exact example_embedding_not_empty |].
  split; [exact example_embeddings_shape |].
  split; [exact Hpaths |]. split; [exact Htop |].
  exact (@too_few_image_paths_raise numpy_insertion sklearn_Q
           insertion_argsort_contract sklearn_Q_contract
           example_embedding example_embeddings
           ["filtered_images/1.jpg"; "filtered_images/2.jpg"] 16
           example_embeddings_not_empty example_embedding_not_empty
           example_embeddings_shape Hpaths Htop).
Defined.


(** ** The search page *)

Lemma contains_iff (sub s : string) :
  contains sub s = true <-> exists u v, s = u ++ sub ++ v.
Proof.
  split.
  - induction s as [| c s IH]; intros H; cbn [contains] in H.
    + rewrite orb_false_r in H. apply prefix_split in H. destruct H as [t ->].
      now exists "", t.
    + apply orb_true_iff in H. destruct H as [H | H].
      * apply prefix_split in H. destruct H as [t ->]. now exists "", t.
      * destruct (IH H) as [u [v ->]]. now exists (String c u), v.
  - intros [u [v ->]]. induction u as [| c u IH].
    + change ("" ++ sub ++ v) with (sub ++ v).
      destruct (sub ++ v) eqn:E; cbn [contains]; rewrite <- E;
        now rewrite prefix_app.
    + change (String c u ++ sub ++ v) with (String c (u ++ sub ++ v)).
      cbn [contains]. rewrite IH. apply orb_true_r.
Qed.



Lemma sorted_filter {A : Type} (R : A -> A -> Prop) (p : A -> bool) (l : list A) :
  StronglySorted R l -> StronglySorted R (filter p l).
Proof.
  induction 1 as [| a l Hs IH Ha]; simpl; [constructor |].
  destruct (p a); [| exact IH]. constructor; [exact IH |].
  apply Forall_forall. intros x Hx. apply filter_In in Hx.
  rewrite Forall_forall in Ha. now apply Ha.
Qed.

Lemma rows_of_increasing {R : Type} (l : list R) (s : nat) :
  StronglySorted (fun a b => (fst a < fst b)%nat) (combine (seq s (length l)) l).
Proof.
  revert s. induction l as [| x l IH]; intros s; simpl; constructor; [apply IH |].
  apply Forall_forall. intros [i r] Hin. apply in_combine_seq in Hin. simpl. lia.
Qed.

Lemma mask_of_increasing {R : Type} (p : R -> bool) (data : list R) :
  StronglySorted lt (labels (mask_of p data)).
Proof.
  unfold labels, mask_of, rows_of. apply sorted_map, sorted_filter.
  apply rows_of_increasing.
Qed.

Lemma full_rows_spec (data : Frame) (sel : Selection Product) :
  (forall i p, In (i, p) sel -> nth_error (products data) i = Some p) ->
  labels (full_rows data sel) = labels sel /\
  forall i r, In (i, r) (full_rows data sel) <->
              In i (labels sel) /\ nth_error data i = Some r.
Proof.
  induction sel as [| [i p] sel IH]; intros Hsel; simpl.
  - split; [reflexivity |]. intros i r. tauto.
  - destruct IH as [IHl IHin]; [intros j q Hj; apply Hsel; now right |].
    pose proof (Hsel i p (or_introl eq_refl)) as Hi. unfold products in Hi.
    rewrite nth_error_map in Hi.
    destruct (nth_error data i) as [r |] eqn:E; [| discriminate Hi].
    simpl. split; [now rewrite IHl |].
    intros j r'. rewrite IHin. split.
    + intros [H | [Hj Hr]]; [injection H as <- <-; auto | auto].
    + intros [[<- | Hj] Hr]; [left; congruence | right; auto].
Qed.

Section SearchFacts.

Context {np : Numpy} {sk : Sklearn}.


Hypothesis argsort_ok : argsort_contract.
Hypothesis cosine_ok : cosine_contract.

(** X13. A search with any other query filters after ranking: for a
    non-empty indexed catalog, the results are exactly the rows among the 50
    best-ranked of the whole catalog that pass the gender, price and size
    filters, in ranking order; so there are at most 50, and a row that
    passes the filters but is ranked below the first 50 is not shown. *)
Theorem query_results_are_filtered_top50 (user_query : string)
        (gender_filter : list string) (price_range : Z * Z)
        (size_filter : list string) (data : Frame)
        (vectorizer : TfidfVectorizer) (tfidf_matrix : Matrix) :
  strip user_query <> "" ->
  fitted vectorizer -> data <> [] ->
  has_shape (length data) (length (vocabulary_ vectorizer)) tfidf_matrix ->
  exists similarities results,
    cosine_similarity (transform vectorizer [user_query]) tfidf_matrix =
      Returned [similarities] /\
    search_results user_query gender_filter price_range size_filter data
                   vectorizer tfidf_matrix = Returned results /\
    (length results <= 50)%nat /\
    non_increasing (map (score_at similarities) (labels results)) /\
    (forall i r,
        In (i, r) results <->
        nth_error data i = Some r /\
        search_filter gender_filter price_range size_filter r = true /\
        In i (rev (last_n 50 (argsort similarities)))).
Proof.
  intros Hq Hv Hdata HM.
  assert (Hpd : products data <> []) by (destruct data; [congruence | discriminate]).
  assert (HM' : has_shape (length (products data)) (length (vocabulary_ vectorizer))
                          tfidf_matrix)
    by (unfold products; now rewrite length_map).
  destruct (query_scores cosine_ok user_query (products data) vectorizer tfidf_matrix
              Hv Hpd HM') as [s [Hs [Hlen _]]].
  destruct (top50_rows argsort_ok s (products data) Hlen)
    as [recs [Hrecs [Hl [Hn Hin]]]].
  destruct (full_rows_spec data recs Hin) as [Hfl Hfin].
  exists s. eexists. split; [exact Hs |]. split.
  { unfold search_results. destruct (String.eqb_spec (strip user_query) "");
      [contradiction |].
    unfold get_recommendations. rewrite Hs. simpl. rewrite app_nil_r, Hrecs.
    reflexivity. }
  split.
  { eapply Nat.le_trans; [apply filter_length_le |].
    rewrite <- (length_map fst (full_rows data recs)). fold (labels (full_rows data recs)).
    rewrite Hfl. unfold labels. rewrite length_map, Hn. lia. }
  split.
  { apply sorted_map. unfold labels. apply sorted_map, sorted_filter.
    pose proof (top50_non_increasing argsort_ok s) as Hsorted.
    rewrite <- Hl, <- Hfl in Hsorted. unfold non_increasing, labels in Hsorted.
    clear - Hsorted.
    induction (full_rows data recs) as [| x l IH]; simpl in *; [constructor |].
    apply StronglySorted_inv in Hsorted. destruct Hsorted as [Hs Hx].
    constructor; [now apply IH |].
    rewrite Forall_map in Hx. rewrite Forall_map in Hx. exact Hx. }
  intros i r. rewrite filter_In, Hfin, Hl. simpl. tauto.
Qed.

End SearchFacts.


Lemma example_frame_tfidf_shape :
  has_shape (length example_frame) (length (vocabulary_ example_vectorizer))
            example_frame_tfidf.
Proof. split; [reflexivity | repeat constructor]. Qed.

Lemma example_frame_not_empty : example_frame <> [].
Proof. discriminate. Qed.

Lemma topwear_not_blank : strip "topwear" <> "".
Proof. discriminate. Qed.

Lemma query_results_are_filtered_top50_witness :
  @argsort_contract numpy_insertion /\ @cosine_contract sklearn_Q /\
  strip "topwear" <> "" /\
  fitted example_vectorizer /\ example_frame <> [] /\
  has_shape (length example_frame) (length (vocabulary_ example_vectorizer))
            example_frame_tfidf /\
  exists results,
    @search_results numpy_insertion sklearn_Q "topwear" ["Men"] (0, 1000)%Z []
      example_frame example_vectorizer example_frame_tfidf = Returned results /\
    (length results <= 50)%nat.
Proof.
  split; [exact insertion_argsort_contract |].
  split; [exact sklearn_Q_contract |].
  split; [exact topwear_not_blank |].
  split; [exact example_vectorizer_fitted |].
  split; [exact example_frame_not_empty |].
  split; [exact example_frame_tfidf_shape |].
  destruct (@query_results_are_filtered_top50 numpy_insertion sklearn_Q
              insertion_argsort_contract sklearn_Q_contract
              "topwear" ["Men"] (0, 1000)%Z [] example_frame example_vectorizer
              example_frame_tfidf topwear_not_blank example_vectorizer_fitted
              example_frame_not_empty example_frame_tfidf_shape)
    as [similarities [results [_ [Hres [Hlen _]]]]].
  exists results. split; [exact Hres | exact Hlen].
Defined.


(** X14. The size filter matches text, not sizes: with no size chosen every
    row passes; otherwise a row passes exactly when one of the chosen sizes
    occurs somewhere in the text of its size cell, so that choosing "S" also
    keeps a row that only has "XS"; a row without sizes is read as "nan". *)
Theorem size_filter_matches_substrings (x : option string) :
  size_ok [] x = true /\
  (forall size_filter,
      size_filter <> [] ->
      (size_ok size_filter x = true <->
       exists size u v, In size size_filter /\ str_of_cell x = u ++ size ++ v)) /\
  str_of_cell None = "nan".
Proof.
  split; [reflexivity |]. split; [| reflexivity].
  intros size_filter Hne. destruct size_filter as [| s0 sizes]; [congruence |].
  unfold size_ok. rewrite existsb_exists. split.
  - intros [size [Hin Hc]]. apply contains_iff in Hc. destruct Hc as [u [v Hc]].
    now exists size, u, v.
  - intros [size [u [v [Hin Hc]]]]. exists size. split; [exact Hin |].
    apply contains_iff. now exists u, v.
Qed.

(** ** The prompt and the cleaned reply *)

Section PromptFacts.

Context {imaging : Imaging}.

Lemma product_parts_length (i : nat) (selected_images : list Image) :
  length (product_parts i selected_images) = (2 * length selected_images)%nat.
Proof.
  revert i. induction selected_images as [| img imgs IH]; intros i; simpl;
    [reflexivity |]. rewrite IH. lia.
Qed.

Lemma product_parts_nth (i k : nat) (selected_images : list Image) (img : Image) :
  nth_error selected_images k = Some img ->
  nth_error (product_parts i selected_images) (2 * k) =
    Some (Text ("Product " ++ decimal (i + k + 1) ++ ":")) /\
  nth_error (product_parts i selected_images) (2 * k + 1) = Some (Picture img).
Proof.
  revert i k. induction selected_images as [| x imgs IH]; intros i k Hk.
  - destruct k; discriminate Hk.
  - destruct k as [| k].
    + simpl in Hk. injection Hk as ->. simpl. rewrite Nat.add_0_r. now split.
    + simpl in Hk. destruct (IH (S i) k Hk) as [H1 H2].
      replace (2 * S k)%nat with (S (S (2 * k))) by lia.
      replace (S (S (2 * k)) + 1)%nat with (S (S (2 * k + 1))) by lia.
      simpl product_parts. cbn [nth_error].
      replace (i + S k + 1)%nat with (S i + k + 1)%nat by lia. now split.
Qed.

(** X15. The prompt of the judge starts with the introduction and ends with
    the question, and in between holds, for each selected image in selection
    order, the label "Product k:", where k counts from 1, followed by the
    image: 2n + 2 parts for n images. *)
Theorem prompt_labels_each_image (selected_images : list Image) :
  length (build_contents selected_images) = (2 * length selected_images + 2)%nat /\
  nth_error (build_contents selected_images) 0 =
    Some (Text "Here are images of the selected products:") /\
  nth_error (build_contents selected_images) (2 * length selected_images + 1) =
    Some (Text question) /\
  forall k img,
    nth_error selected_images k = Some img ->
    nth_error (build_contents selected_images) (2 * k + 1) =
      Some (Text ("Product " ++ decimal (k + 1) ++ ":")) /\
    nth_error (build_contents selected_images) (2 * k + 2) = Some (Picture img).
Proof.
  unfold build_contents. split; [| split; [reflexivity | split]].
  - simpl. rewrite length_app, product_parts_length. simpl. lia.
  - replace (2 * length selected_images + 1)%nat
      with (S (2 * length selected_images)) by lia.
    cbn [nth_error]. rewrite nth_error_app2; rewrite product_parts_length; [| lia].
    now rewrite Nat.sub_diag.
  - intros k img Hk. destruct (product_parts_nth 0 k selected_images img Hk) as [H1 H2].
    assert (Hlt : (k < length selected_images)%nat)
      by (apply nth_error_Some; congruence).
    replace (2 * k + 1)%nat with (S (2 * k)) by lia.
    replace (2 * k + 2)%nat with (S (2 * k + 1)) by lia.
    cbn [nth_error].
    rewrite !nth_error_app1 by (rewrite product_parts_length; lia).
    now split.
Qed.

End PromptFacts.

Lemma fence_prefix_ticks (s : string) :
  String.prefix fence s = true <-> (3 <= ticks s)%nat.
Proof.
  split.
  - intros H. apply prefix_split in H. destruct H as [t ->]. simpl. lia.
  - intros H.
    destruct s as [| c1 s]; [simpl in H; lia |]. simpl in H.
    destruct (Ascii.eqb_spec c1 tick) as [-> | _]; [| lia].
    destruct s as [| c2 s]; [simpl in H; lia |]. simpl in H.
    destruct (Ascii.eqb_spec c2 tick) as [-> | _]; [| lia].
    destruct s as [| c3 s]; [simpl in H; lia |]. simpl in H.
    destruct (Ascii.eqb_spec c3 tick) as [-> | _]; [| lia].
    apply (prefix_app fence s).
Qed.

Lemma fence_prefix_skip (s : string) :
  String.prefix fence s = true ->
  exists t, s = fence ++ t /\ replace fence "" s = replace fence "" t /\
            ticks s = (3 + ticks t)%nat.
Proof.
  intros H. pose proof (prefix_split _ _ H) as [t ->]. exists t.
  split; [reflexivity |]. split.
  - unfold replace. change (fence ++ t) with (String tick (String tick (String tick t))).
    cbn [replace_from]. change (String tick (String tick (String tick t))) with (fence ++ t).
    rewrite prefix_app. reflexivity.
  - reflexivity.
Qed.

Lemma replace_fence_ticks (n : nat) :
  forall s, (String.length s <= n)%nat ->
    contains fence (replace fence "" s) = false /\
    (ticks (replace fence "" s) <= ticks s)%nat /\
    (ticks (replace fence "" s) <= 2)%nat.
Proof.
  induction n as [| n IH]; intros s Hn.
  - destruct s; [| simpl in Hn; lia]. repeat split; simpl; lia.
  - destruct (String.prefix fence s) eqn:Ep.
    + destruct (fence_prefix_skip s Ep) as [t [-> [-> Ht]]].
      destruct (IH t) as [H1 [H2 H3]].
      { simpl in Hn. lia. }
      split; [exact H1 |]. split; [lia | exact H3].
    + destruct s as [| c s]; [repeat split; simpl; lia |].
      assert (Hr : replace fence "" (String c s) = String c (replace fence "" s)).
      { unfold replace. cbn [replace_from]. now rewrite Ep. }
      rewrite Hr. destruct (IH s) as [H1 [H2 H3]]; [simpl in Hn; lia |].
      assert (Hs : (ticks (String c s) <= 2)%nat).
      { destruct (Nat.le_gt_cases 3 (ticks (String c s))) as [H | H]; [| lia].
        apply fence_prefix_ticks in H. congruence. }
      assert (Ht : (ticks (String c (replace fence "" s)) <= ticks (String c s))%nat).
      { simpl. destruct (Ascii.eqb c tick); lia. }
      split; [| split; [exact Ht | lia]].
      cbn [contains]. rewrite H1, orb_false_r.
      destruct (String.prefix fence (String c (replace fence "" s))) eqn:E;
        [| reflexivity].
      apply fence_prefix_ticks in E. lia.
Qed.

Lemma lstrip_suffix_upto (n : nat) :
  forall s, (String.length s <= n)%nat -> exists a, s = a ++ lstrip s.
Proof.
  induction n as [| n IH]; intros s Hn.
  - destruct s; [now exists "" | simpl in Hn; lia].
  - destruct s as [| c s1]; [now exists "" |]. cbn [lstrip].
    destruct (is_space c).
    { destruct (IH s1) as [a Ha]; [simpl in Hn; lia |].
      exists (String c a). simpl. now rewrite <- Ha. }
    destruct s1 as [| d s2]; [now exists "" |].
    destruct (is_space2 c d).
    { destruct (IH s2) as [a Ha]; [simpl in Hn; lia |].
      exists (String c (String d a)). simpl. now rewrite <- Ha. }
    destruct s2 as [| e s3]; [now exists "" |].
    destruct (is_space3 c d e); [| now exists ""].
    destruct (IH s3) as [a Ha]; [simpl in Hn; lia |].
    exists (String c (String d (String e a))). simpl. now rewrite <- Ha.
Qed.

Lemma lstrip_suffix (s : string) : exists a, s = a ++ lstrip s.
Proof. exact (lstrip_suffix_upto (String.length s) s (le_n _)). Qed.

Lemma rstrip_rev_suffix_upto (n : nat) :
  forall s, (String.length s <= n)%nat -> exists a, s = a ++ rstrip_rev s.
Proof.
  induction n as [| n IH]; intros s Hn.
  - destruct s; [now exists "" | simpl in Hn; lia].
  - destruct s as [| c s1]; [now exists "" |]. cbn [rstrip_rev].
    destruct (is_space c).
    { destruct (IH s1) as [a Ha]; [simpl in Hn; lia |].
      exists (String c a). simpl. now rewrite <- Ha. }
    destruct s1 as [| d s2]; [now exists "" |].
    destruct (is_space2 d c).
    { destruct (IH s2) as [a Ha]; [simpl in Hn; lia |].
      exists (String c (String d a)). simpl. now rewrite <- Ha. }
    destruct s2 as [| e s3]; [now exists "" |].
    destruct (is_space3 e d c); [| now exists ""].
    destruct (IH s3) as [a Ha]; [simpl in Hn; lia |].
    exists (String c (String d (String e a))). simpl. now rewrite <- Ha.
Qed.

Lemma rstrip_rev_suffix (s : string) : exists a, s = a ++ rstrip_rev s.
Proof. exact (rstrip_rev_suffix_upto (String.length s) s (le_n _)). Qed.

Lemma string_rev_involutive (s : string) : string_rev (string_rev s) = s.
Proof.
  unfold string_rev.
  now rewrite list_ascii_of_string_of_list_ascii, rev_involutive,
    string_of_list_ascii_of_string.
Qed.

Lemma rstrip_prefix (s : string) : exists b, s = rstrip s ++ b.
Proof.
  unfold rstrip. destruct (rstrip_rev_suffix (string_rev s)) as [a Ha].
  exists (string_rev a). rewrite <- string_rev_app, <- Ha.
  symmetry. apply string_rev_involutive.
Qed.

Lemma append_assoc (a b c : string) : (a ++ b) ++ c = a ++ b ++ c.
Proof. induction a as [| x a IH]; simpl; [reflexivity | now rewrite IH]. Qed.

Lemma strip_infix (s : string) : exists a b, s = a ++ strip s ++ b.
Proof.
  unfold strip. destruct (lstrip_suffix s) as [a Ha].
  destruct (rstrip_prefix (lstrip s)) as [b Hb].
  exists a, b. now rewrite <- Hb.
Qed.

(** X16. The text that the judge hands to [json.loads] never contains a
    code fence: every run of three backquotes is gone from it, wherever it
    stood in the reply, also inside a quoted value. *)
Theorem cleaned_reply_has_no_fence (all_responses : list string) :
  contains fence (cleaned_response all_responses) = false.
Proof.
  unfold cleaned_response.
  set (r := replace fence "" (replace fence_json "" (join all_responses))).
  assert (Hr : contains fence r = false)
    by (apply (replace_fence_ticks _ _ (le_n _))).
  destruct (contains fence (strip r)) eqn:E; [| reflexivity].
  apply contains_iff in E. destruct E as [u [v E]].
  destruct (strip_infix r) as [a [b Hab]].
  assert (Hc : contains fence r = true).
  { apply contains_iff. exists (a ++ u), (v ++ b).
    rewrite Hab at 1. rewrite E. now rewrite !append_assoc. }
  congruence.
Qed.

Lemma replace_keeps_other_chars (old' new s t : string) (a : ascii) :
  (forall c, In c (list_ascii_of_string s) -> c <> a) ->
  replace (String a old') new (s ++ t) = s ++ replace (String a old') new t.
Proof.
  intros Hs. unfold replace. induction s as [| c s IH]; [reflexivity |].
  change (String c s ++ t) with (String c (s ++ t)). cbn [replace_from].
  assert (Hc : c <> a) by (apply Hs; now left).
  cbn [String.prefix]. destruct (ascii_dec a c) as [-> | _]; [congruence |].
  simpl. f_equal. apply IH. intros x Hx. apply Hs. now right.
Qed.

Lemma no_tick_chars (s : string) :
  no_tick s = true -> forall c, In c (list_ascii_of_string s) -> c <> tick.
Proof.
  induction s as [| x s IH]; simpl; intros H c Hc; [destruct Hc |].
  apply andb_true_iff in H. destruct H as [Hx Hs].
  destruct Hc as [<- | Hc]; [| now apply IH].
  apply negb_true_iff in Hx. intros E. rewrite E, Ascii.eqb_refl in Hx. discriminate.
Qed.

Lemma append_empty (s : string) : s ++ "" = s.
Proof. induction s as [| c s IH]; simpl; [reflexivity | now rewrite IH]. Qed.

(** X17. A reply without backquotes is read the same whether the model
    wraps it in a fenced json block or not, and however the stream cuts the
    fences from it: in both cases the judge parses the reply stripped of the
    white space around it. *)
Theorem fenced_reply_reads_like_bare_reply (s : string) :
  no_tick s = true ->
  cleaned_response [fence_json; s; fence] = strip s /\
  cleaned_response [fence_json ++ s ++ fence] = strip s /\
  cleaned_response [s] = strip s.
Proof.
  intros Hs. pose proof (no_tick_chars s Hs) as Hc.
  assert (Hbare : replace fence "" (replace fence_json "" s) = s).
  { pose proof (replace_keeps_other_chars "``json" "" s "" tick Hc) as H1.
    pose proof (replace_keeps_other_chars "``" "" s "" tick Hc) as H2.
    rewrite append_empty in H1, H2. unfold fence_json, fence.
    change "```json" with (String tick "``json"). change "```" with (String tick "``").
    rewrite H1. unfold replace at 2. simpl replace_from. rewrite append_empty.
    rewrite H2. unfold replace. simpl replace_from. apply append_empty. }
  assert (Hwrapped : replace fence "" (replace fence_json "" (fence_json ++ s ++ fence)) = s).
  { assert (H0 : replace fence_json "" (fence_json ++ s ++ fence) =
                 replace fence_json "" (s ++ fence)).
    { unfold replace.
      change (fence_json ++ s ++ fence)
        with (String tick ("``json" ++ s ++ fence)).
      cbn [replace_from].
      change (String tick ("``json" ++ s ++ fence)) with (fence_json ++ s ++ fence).
      rewrite prefix_app. reflexivity. }
    rewrite H0.
    pose proof (replace_keeps_other_chars "``json" "" s fence tick Hc) as H1.
    pose proof (replace_keeps_other_chars "``" "" s fence tick Hc) as H2.
    unfold fence_json. change "```json" with (String tick "``json").
    rewrite H1. change (replace (String tick "``json") "" fence) with fence.
    unfold fence at 1. change "```" with (String tick "``").
    rewrite H2. change (replace (String tick "``") "" fence) with "".
    apply append_empty. }
  unfold cleaned_response. repeat split.
  - change (join [fence_json; s; fence]) with (fence_json ++ s ++ fence ++ "").
    change (fence ++ "") with fence. now rewrite Hwrapped.
  - change (join [fence_json ++ s ++ fence]) with ((fence_json ++ s ++ fence) ++ "").
    rewrite append_empty. now rewrite Hwrapped.
  - change (join [s]) with (s ++ ""). rewrite append_empty. now rewrite Hbare.
Qed.

Lemma fenced_reply_reads_like_bare_reply_witness :
  no_tick (dq " {'decision': 'no'} ") = true /\
  cleaned_response [fence_json; dq " {'decision': 'no'} "; fence] =
    dq "{'decision': 'no'}" /\
  cleaned_response [dq " {'decision': 'no'} "] = dq "{'decision': 'no'}".
Proof.
  split; [reflexivity |].
  destruct (fenced_reply_reads_like_bare_reply (dq " {'decision': 'no'} ") eq_refl)
    as [Hsplit [_ Hbare]].
  split; [exact Hsplit | exact Hbare].
Defined.


(** ** More on the complementary filter *)

Lemma ascii_lower_idempotent (c : ascii) : ascii_lower (ascii_lower c) = ascii_lower c.
Proof. destruct c as [[] [] [] [] [] [] [] []]; reflexivity. Qed.

Lemma lower_idempotent (s : string) : lower (lower s) = lower s.
Proof.
  induction s as [| c s IH]; simpl; [reflexivity |].
  now rewrite ascii_lower_idempotent, IH.
Qed.

Lemma existsb_permutation {A : Type} (p : A -> bool) (l l' : list A) :
  Permutation l l' -> existsb p l = existsb p l'.
Proof.
  induction 1 as [| x l l' _ IH | x y l | l l' l'' _ IH1 _ IH2]; simpl.
  - reflexivity.
  - now rewrite IH.
  - destruct (p x), (p y); reflexivity.
  - congruence.
Qed.

Lemma known_dec (data : DataFrame) (pid : Z) : {known data pid} + {~ known data pid}.
Proof.
  unfold known. destruct (existsb _ data); [now left | right; discriminate].
Qed.

Section FilterMore.

Context {imaging : Imaging}.

Lemma load_all_cases (ids : list Z) (data : DataFrame) :
  (Forall (known data) ids /\
   exists imgs, mapM (fun pid => load_image_from_dataset pid data) ids = Returned imgs) \/
  (~ Forall (known data) ids /\
   mapM (fun pid => load_image_from_dataset pid data) ids = Raised IndexError).
Proof.
  destruct (Forall_dec (known data) (known_dec data) ids) as [Hk | Hk].
  - left. split; [exact Hk |].
    destruct (mapM_returns (fun pid => load_image_from_dataset pid data) ids)
      as [imgs [Hm _]]; [| eauto].
    eapply Forall_impl; [| exact Hk]. intros pid Hp.
    rewrite load_image_cases. destruct (known_find data pid Hp) as [r ->]. eauto.
  - right. split; [exact Hk |].
    apply neg_Forall_Exists_neg in Hk; [| apply known_dec].
    apply Exists_exists in Hk. destruct Hk as [pid [Hin Hnot]].
    destruct (mapM_first_failure (fun p => load_image_from_dataset p data) ids)
      as [a [e [_ [He Hm]]]].
    + exists pid. split; [exact Hin |]. exists IndexError.
      rewrite load_image_cases. now rewrite (not_known_find data pid Hnot).
    + rewrite Hm. rewrite load_image_cases in He.
      destruct (find (fun r => Z.eqb (product_id r) a) data);
        [discriminate He | now injection He as <-].
Qed.

(** X18. The order in which the products were selected does not matter to
    the complementary filter: two selections with the same identifiers give
    the same result, or the same exception. *)
Theorem selection_order_is_irrelevant (ids ids' : list Z) (decision reason : pyval)
        (data : DataFrame) :
  Permutation ids ids' ->
  recommend_complementary_products ids decision reason data =
  recommend_complementary_products ids' decision reason data.
Proof.
  intros Hp. unfold recommend_complementary_products.
  destruct (eq_str decision "yes"); [| reflexivity].
  assert (Hmask : mask (isin ids) data = mask (isin ids') data).
  { unfold mask. apply filter_ext. intros [i r]. simpl. unfold isin.
    now apply existsb_permutation. }
  rewrite Hmask.
  destruct (load_all_cases ids data) as [[Hk [imgs ->]] | [Hk ->]];
    destruct (load_all_cases ids' data) as [[Hk' [imgs' ->]] | [Hk' ->]];
    try reflexivity.
  - destruct Hk'. now apply (Permutation_Forall Hp).
  - destruct Hk. now apply (Permutation_Forall (Permutation_sym Hp)).
Qed.

(** X19. The complementary filter does not see the case of the rationale:
    the rationale and the same rationale written in lower case give the same
    result. *)
Theorem rationale_case_is_irrelevant (ids : list Z) (decision : pyval)
        (text : string) (data : DataFrame) :
  recommend_complementary_products ids decision (PStr (lower text)) data =
  recommend_complementary_products ids decision (PStr text) data.
Proof.
  unfold recommend_complementary_products. simpl. now rewrite lower_idempotent.
Qed.

(** X20. Whatever the filter returns is in catalog order: the labels of the
    returned rows increase strictly, and each returned row is the projection
    of the catalog row at its label. *)
Theorem filter_result_in_catalog_order (ids : list Z) (decision reason : pyval)
        (data : DataFrame) (res : Selection Display) :
  recommend_complementary_products ids decision reason data = Returned res ->
  StronglySorted lt (labels res) /\
  forall i d, In (i, d) res ->
              exists r, nth_error data i = Some r /\ d = project r.
Proof.
  unfold recommend_complementary_products.
  destruct (eq_str decision "yes").
  - destruct (mapM _ ids) as [imgs | e]; [| discriminate]. simpl.
    destruct (lower_method reason) as [fb | e]; [| discriminate]. simpl.
    destruct (iloc0 (mask (isin ids) data)) as [sd | e]; [| discriminate]. simpl.
    intros H. injection H as <-. split.
    + unfold labels, project_sel. rewrite map_map. simpl.
      apply (mask_of_increasing (active_match fb sd) data).
    + intros i d Hin. apply in_project_sel in Hin.
      destruct Hin as [r [Hi [_ Hd]]]. now exists r.
  - intros H. injection H as <-. split; [constructor | intros i d []].
Qed.

End FilterMore.

Lemma selection_order_is_irrelevant_witness :
  Permutation [1; 3]%Z [3; 1]%Z /\
  @recommend_complementary_products imaging_paths [1; 3]%Z (PStr "yes")
    (PStr scenario_rationale) scenario_catalog =
  @recommend_complementary_products imaging_paths [3; 1]%Z (PStr "yes")
    (PStr scenario_rationale) scenario_catalog.
Proof.
  assert (Hp : Permutation [1; 3]%Z [3; 1]%Z) by apply perm_swap.
  split; [exact Hp |].
  exact (@selection_order_is_irrelevant imaging_paths [1; 3]%Z [3; 1]%Z (PStr "yes")
           (PStr scenario_rationale) scenario_catalog Hp).
Defined.

Lemma filter_result_in_catalog_order_witness :
  @recommend_complementary_products imaging_paths [1; 3]%Z (PStr "yes")
    (PStr scenario_rationale) scenario_catalog =
    Returned [(0%nat, project product_A); (1%nat, project product_B)] /\
  StronglySorted lt [0%nat; 1%nat].
Proof.
  split; [reflexivity |].
  exact (proj1 (@filter_result_in_catalog_order imaging_paths [1; 3]%Z (PStr "yes")
                  (PStr scenario_rationale) scenario_catalog
                  [(0%nat, project product_A); (1%nat, project product_B)] eq_refl)).
Defined.


(** X21. The keyword extraction returns the first keyword of its list, in
    list order, that occurs anywhere in the feedback, be it inside a longer
    word; where a keyword occurs in the text plays no part. *)
Theorem first_listed_keyword_wins (keywords : list string) (ai_feedback k : string) :
  extract keywords ai_feedback = Some k <->
  exists earlier later,
    keywords = (earlier ++ k :: later)%list /\
    (forall k', In k' earlier -> forall u v, ai_feedback <> u ++ k' ++ v) /\
    exists u v, ai_feedback = u ++ k ++ v.
Proof.
  unfold extract. split.
  - induction keywords as [| x ks IH]; simpl; [discriminate |].
    destruct (contains x ai_feedback) eqn:E.
    + intros H. injection H as <-. exists [], ks. split; [reflexivity |].
      split; [intros k' [] | now apply contains_iff].
    + intros H. destruct (IH H) as [earlier [later [-> [Hnone Hk]]]].
      exists (x :: earlier), later. split; [reflexivity |]. split; [| exact Hk].
      intros k' [Hx | Hin] u v Heq; [| exact (Hnone k' Hin u v Heq)].
      subst k'.
      assert (contains x ai_feedback = true) by (apply contains_iff; eauto).
      congruence.
  - intros [earlier [later [-> [Hnone Hk]]]].
    induction earlier as [| x earlier IH]; simpl.
    + now rewrite (proj2 (contains_iff k ai_feedback) Hk).
    + destruct (contains x ai_feedback) eqn:E.
      * apply contains_iff in E. destruct E as [u [v E]].
        destruct (Hnone x (or_introl eq_refl) u v E).
      * apply IH. intros k' Hin. apply Hnone. now right.
Qed.

(** ** The image page *)

Lemma replace_one_char (a b : ascii) (s : string) :
  replace (String a "") (String b "") s = translate a b s.
Proof.
  unfold replace. induction s as [| c s IH]; [reflexivity |].
  cbn [replace_from translate String.prefix].
  destruct (ascii_dec a c) as [<- | Hne].
  - rewrite Ascii.eqb_refl.
    replace (String.prefix "" s) with true by (now destruct s).
    simpl. now rewrite IH.
  - destruct (Ascii.eqb_spec c a) as [-> | _]; [congruence |]. now rewrite IH.
Qed.

Lemma translate_app (a b : ascii) (s t : string) :
  translate a b (s ++ t) = translate a b s ++ translate a b t.
Proof. induction s as [| c s IH]; simpl; [reflexivity | now rewrite IH]. Qed.

Lemma translate_absent (a b : ascii) (s : string) :
  (forall c, In c (list_ascii_of_string s) -> c <> a) -> translate a b s = s.
Proof.
  induction s as [| c s IH]; simpl; intros H; [reflexivity |].
  destruct (Ascii.eqb_spec c a) as [-> | _].
  - now destruct (H a (or_introl eq_refl)).
  - rewrite IH; [reflexivity |]. intros x Hx. apply H. now right.
Qed.

Lemma cell_by_filename_cases {A : Type} (column : Row -> A) (data : Frame)
      (path : string) :
  cell_by_filename column data path =
  match find (fun r => String.eqb (filename (item r)) path) data with
  | Some r => Returned (column r)
  | None => Raised IndexError
  end.
Proof.
  unfold cell_by_filename. rewrite iloc0_map, iloc0_mask_of.
  now destruct (find _ data).
Qed.

Lemma image_card_cases (rec_path : string) (score : Q) (data : Frame) :
  image_card (rec_path, score) data =
  match find (fun r => String.eqb (filename (item r))
                                  (translate (ascii_of_nat 92) "/" rec_path)) data with
  | Some r => Returned (card_of r score)
  | None => Raised IndexError
  end.
Proof.
  unfold image_card, backslash_text.
  rewrite (replace_one_char (ascii_of_nat 92) "/" rec_path).
  rewrite !cell_by_filename_cases.
  now destruct (find _ data).
Qed.

(** X22. A recommended image is looked up under its path with every
    backslash turned into a slash: when some catalog row has this file name,
    the card shows the cells of one such row, with the score of the
    recommendation; when no row has it, the lookup raises IndexError. *)
Theorem image_card_of_normalized_path (rec_path : string) (score : Q) (data : Frame) :
  ((exists r, In r data /\
              filename (item r) = translate (ascii_of_nat 92) "/" rec_path) ->
   exists r, In r data /\
             filename (item r) = translate (ascii_of_nat 92) "/" rec_path /\
             image_card (rec_path, score) data = Returned (card_of r score)) /\
  ((forall r, In r data ->
              filename (item r) <> translate (ascii_of_nat 92) "/" rec_path) ->
   image_card (rec_path, score) data = Raised IndexError).
Proof.
  rewrite image_card_cases.
  destruct (find (fun r => String.eqb (filename (item r))
                                      (translate (ascii_of_nat 92) "/" rec_path)) data)
    as [r |] eqn:F.
  - apply find_some in F. destruct F as [Hin Heq]. apply String.eqb_eq in Heq. split.
    + intros _. now exists r.
    + intros Hnone. now destruct (Hnone r Hin).
  - split; [| reflexivity]. intros [r [Hin Heq]].
    pose proof (proj1 (find_none_iff _ _) F r Hin) as Hfalse. simpl in Hfalse.
    rewrite Heq, String.eqb_refl in Hfalse. discriminate Hfalse.
Qed.

(** X23. The image page writes the cards of the recommended images in the
    order of the recommendations and stops at the first one whose path has
    no catalog row: the cards before it stay written, and the page reports
    an IndexError. *)
Theorem image_cards_stop_at_first_unknown_path (recommendations : list (string * Q))
        (data : Frame) :
  exists shown rest,
    recommendations = (shown ++ rest)%list /\
    Forall2 (fun rec card => image_card rec data = Returned card)
            shown (fst (image_cards recommendations data)) /\
    match snd (image_cards recommendations data) with
    | None => rest = []
    | Some e =>
        e = IndexError /\
        exists rec rest', rest = rec :: rest' /\ image_card rec data = Raised IndexError
    end.
Proof.
  induction recommendations as [| rec recs [shown [rest [Hsplit [Hcards Hend]]]]].
  - exists [], []. repeat split. constructor.
  - cbn [image_cards]. destruct (image_card rec data) as [card | e] eqn:E.
    + destruct (image_cards recs data) as [cards e'] eqn:Ec. simpl in *.
      exists (rec :: shown), rest. split; [now rewrite Hsplit |].
      split; [now constructor | exact Hend].
    + exists [], (rec :: recs). split; [reflexivity |]. split; [constructor |].
      simpl. destruct rec as [path score].
      rewrite image_card_cases in E.
      destruct (find (fun r => String.eqb (filename (item r))
                                          (translate (ascii_of_nat 92) "/" path)) data)
        eqn:F; [discriminate E |].
      injection E as <-.
      split; [reflexivity |]. exists (path, score), recs. split; [reflexivity |].
      now rewrite image_card_cases, F.
Qed.

(** X24. A path written with a backslash finds the catalog row whose file
    name is written with a slash: when a row of the frame has the file name
    "filtered_images/x.jpg" and x holds no backslash, the recommended path
    "filtered_images\x.jpg" gives the card of the first row with that file
    name, as the path "filtered_images/x.jpg" does. *)
Theorem backslash_path_finds_the_row (data : Frame) (r : Row) (x : string) (score : Q) :
  In r data ->
  filename (item r) = "filtered_images/" ++ x ++ ".jpg" ->
  (forall c, In c (list_ascii_of_string x) -> c <> ascii_of_nat 92) ->
  exists r',
    In r' data /\ filename (item r') = filename (item r) /\
    image_card ("filtered_images" ++ backslash_text ++ x ++ ".jpg", score) data =
      Returned (card_of r' score) /\
    image_card ("filtered_images/" ++ x ++ ".jpg", score) data =
      Returned (card_of r' score).
Proof.
  intros Hin Hname Hx.
  assert (Hpath : forall sep,
             sep = backslash_text \/ sep = "/" ->
             translate (ascii_of_nat 92) "/" ("filtered_images" ++ sep ++ x ++ ".jpg") =
             filename (item r)).
  { intros sep Hsep. rewrite Hname.
    rewrite !translate_app, (translate_absent _ _ x Hx).
    destruct Hsep as [-> | ->]; reflexivity. }
  destruct (find (fun r0 => String.eqb (filename (item r0)) (filename (item r))) data)
    as [r' |] eqn:F.
  - exists r'. pose proof (find_some _ _ F) as [Hin' Heq].
    apply String.eqb_eq in Heq. split; [exact Hin' |]. split; [exact Heq |].
    rewrite !image_card_cases.
    rewrite (Hpath backslash_text (or_introl eq_refl)).
    change ("filtered_images/" ++ x ++ ".jpg")
      with ("filtered_images" ++ "/" ++ x ++ ".jpg").
    rewrite (Hpath "/" (or_intror eq_refl)).
    rewrite F. now split.
  - pose proof (proj1 (find_none_iff _ _) F r Hin) as Hfalse. simpl in Hfalse.
    rewrite String.eqb_refl in Hfalse. discriminate Hfalse.
Qed.

Lemma backslash_path_finds_the_row_witness :
  In (set_filename "filtered_images/503.jpg" csv_shirt) example_frame /\
  filename (item (set_filename "filtered_images/503.jpg" csv_shirt)) =
    "filtered_images/" ++ "503" ++ ".jpg" /\
  exists r',
    In r' example_frame /\
    image_card ("filtered_images" ++ backslash_text ++ "503" ++ ".jpg", 1) example_frame =
      Returned (card_of r' 1).
Proof.
  assert (Hin : In (set_filename "filtered_images/503.jpg" csv_shirt) example_frame)
    by (right; now left).
  assert (Hx : forall c, In c (list_ascii_of_string "503") -> c <> ascii_of_nat 92).
  { intros c [<- | [<- | [<- | []]]]; discriminate. }
  split; [exact Hin |]. split; [reflexivity |].
  destruct (backslash_path_finds_the_row example_frame
              (set_filename "filtered_images/503.jpg" csv_shirt) "503" 1
              Hin eq_refl Hx)
    as [r' [Hin' [_ [Hcard _]]]].
  exists r'. split; [exact Hin' | exact Hcard].
Defined.


(** ** The image page, from the embedding to the cards *)


Section ImagePage.

Context {np : Numpy} {sk : Sklearn}.
Hypothesis argsort_ok : argsort_contract.
Hypothesis cosine_ok : cosine_contract.


End ImagePage.


(** ** The label of the predicted class *)

Lemma ascii_compare_trans (a b c : ascii) :
  Ascii.compare a b = Lt -> Ascii.compare b c = Lt -> Ascii.compare a c = Lt.
Proof.
  unfold Ascii.compare. rewrite !N.compare_lt_iff. apply N.lt_trans.
Qed.

Lemma string_compare_trans (a b c : string) :
  String.compare a b = Lt -> String.compare b c = Lt -> String.compare a c = Lt.
Proof.
  revert b c. induction a as [| x a IH]; intros [| y b] [| z c]; simpl;
    try discriminate; try reflexivity.
  destruct (Ascii.compare x y) eqn:Exy; try discriminate;
    destruct (Ascii.compare y z) eqn:Eyz; try discriminate; intros Hab Hbc.
  - apply Ascii.compare_eq_iff in Exy, Eyz. subst.
    rewrite (proj2 (N.compare_eq_iff _ _) eq_refl : Ascii.compare z z = Eq).
    now apply (IH b c).
  - apply Ascii.compare_eq_iff in Exy. subst. now rewrite Eyz.
  - apply Ascii.compare_eq_iff in Eyz. subst. now rewrite Exy.
  - now rewrite (ascii_compare_trans x y z Exy Eyz).
Qed.

Lemma string_compare_refl (a : string) : String.compare a a = Eq.
Proof.
  induction a as [| x a IH]; simpl; [reflexivity |].
  now rewrite (proj2 (N.compare_eq_iff _ _) eq_refl : Ascii.compare x x = Eq).
Qed.

Lemma string_compare_gt_lt (a b : string) :
  String.compare a b = Gt -> String.compare b a = Lt.
Proof. intros H. rewrite String.compare_antisym, H. reflexivity. Qed.

Lemma insert_class_in (x y : string) (classes : list string) :
  In y (insert_class x classes) <-> y = x \/ In y classes.
Proof.
  induction classes as [| z classes IH]; simpl; [intuition |].
  destruct (String.compare x z) eqn:E; simpl.
  - apply String.compare_eq_iff in E. subst. intuition.
  - intuition.
  - rewrite IH. intuition.
Qed.

Lemma fit_in (labels : list string) (y : string) :
  In y (fit labels) <-> In y labels.
Proof.
  induction labels as [| x labels IH]; simpl; [reflexivity |].
  rewrite insert_class_in, IH. intuition.
Qed.

Lemma insert_class_sorted (x : string) (classes : list string) :
  StronglySorted (fun a b => String.compare a b = Lt) classes ->
  StronglySorted (fun a b => String.compare a b = Lt) (insert_class x classes).
Proof.
  induction 1 as [| z classes Hs IH Hz]; simpl; [repeat constructor |].
  destruct (String.compare x z) eqn:E.
  - now constructor.
  - constructor; [now constructor |]. constructor; [exact E |].
    eapply Forall_impl; [| exact Hz]. intros w Hw.
    exact (string_compare_trans x z w E Hw).
  - constructor; [exact IH |]. apply Forall_forall. intros w Hw.
    apply insert_class_in in Hw. destruct Hw as [-> | Hw].
    + now apply string_compare_gt_lt.
    + rewrite Forall_forall in Hz. now apply Hz.
Qed.

Lemma fit_sorted (labels : list string) :
  StronglySorted (fun a b => String.compare a b = Lt) (fit labels).
Proof.
  induction labels as [| x labels IH]; simpl; [constructor |].
  now apply insert_class_sorted.
Qed.

Lemma sorted_classes_NoDup (classes : list string) :
  StronglySorted (fun a b => String.compare a b = Lt) classes -> NoDup classes.
Proof.
  induction 1 as [| z classes Hs IH Hz]; constructor; [| exact IH].
  intros Hin. rewrite Forall_forall in Hz. specialize (Hz z Hin).
  rewrite string_compare_refl in Hz. discriminate Hz.
Qed.

(** X26. The label that the image page writes is always an article type of
    a row of the current catalog.  Otherwise the decoding raises ValueError:
    when the model gives no prediction at all, and when the predicted class
    is not below the number of distinct article types of the catalog. *)
Theorem predicted_label_is_a_catalog_type (predictions : Matrix) (data : Frame) :
  match predicted_label predictions data with
  | Returned label => exists r, In r data /\ articleType r = label
  | Raised e => e = ValueError
  end /\
  (concat predictions = [] -> predicted_label predictions data = Raised ValueError) /\
  (forall k, argmax (concat predictions) = Returned k ->
             (predicted_label predictions data = Raised ValueError <->
              (length (fit (map articleType data)) <= k)%nat)) /\
  NoDup (fit (map articleType data)).
Proof.
  unfold predicted_label, inverse_transform. split; [| split; [| split]].
  - destruct (argmax (concat predictions)) as [k | e] eqn:E; simpl.
    + destruct (nth_error (fit (map articleType data)) k) as [label |] eqn:En;
        [| reflexivity].
      apply nth_error_In, fit_in, in_map_iff in En.
      destruct En as [r [Hr Hin]]. now exists r.
    + destruct (concat predictions); [now injection E as <- | discriminate E].
  - intros ->. reflexivity.
  - intros k ->. simpl.
    destruct (nth_error (fit (map articleType data)) k) as [label |] eqn:En.
    + split; [discriminate |]. intros Hle.
      apply nth_error_None in Hle. congruence.
    + split; [| reflexivity]. intros _. now apply nth_error_None.
  - apply sorted_classes_NoDup, fit_sorted.
Qed.

Lemma insert_class_shift (t label : string) (classes : list string) (k : nat) :
  nth_error classes k = Some label ->
  String.compare t label = Lt ->
  ~ In t classes ->
  nth_error (insert_class t classes) (S k) = Some label.
Proof.
  revert k. induction classes as [| y classes IH]; intros k Hk Hlt Hnot.
  - destruct k; discriminate Hk.
  - simpl. destruct (String.compare t y) eqn:E.
    + apply String.compare_eq_iff in E. subst. destruct Hnot. now left.
    + exact Hk.
    + destruct k as [| k].
      * simpl in Hk. injection Hk as ->. congruence.
      * simpl in Hk. simpl. apply IH; [exact Hk | exact Hlt |].
        intros Hin. apply Hnot. now right.
Qed.

(** X27. The labels are decoded against the catalog of the moment: when a
    row is added whose article type is new to the catalog and sorts before
    the label that some predictions decode to, the same predictions decode
    to another label, and the former label has moved one class up. *)
Theorem new_article_type_shifts_labels (predictions : Matrix) (data : Frame)
        (new_row : Row) (k : nat) (label : string) :
  argmax (concat predictions) = Returned k ->
  predicted_label predictions data = Returned label ->
  (forall r, In r data -> articleType r <> articleType new_row) ->
  String.compare (articleType new_row) label = Lt ->
  predicted_label predictions (new_row :: data) <> Returned label /\
  nth_error (fit (map articleType (new_row :: data))) (S k) = Some label.
Proof.
  intros Hk Hlabel Hnew Hlt. unfold predicted_label, inverse_transform in *.
  rewrite Hk in *. simpl in Hlabel. simpl.
  destruct (nth_error (fit (map articleType data)) k) as [l |] eqn:En;
    [| discriminate Hlabel].
  injection Hlabel as ->.
  assert (Hnot : ~ In (articleType new_row) (fit (map articleType data))).
  { intros Hin. apply fit_in, in_map_iff in Hin. destruct Hin as [r [Hr Hin]].
    exact (Hnew r Hin Hr). }
  pose proof (insert_class_shift _ _ _ _ En Hlt Hnot) as Hshift.
  split; [| exact Hshift].
  destruct (nth_error (insert_class (articleType new_row) (fit (map articleType data))) k)
    as [l' |] eqn:En'; [| discriminate].
  intros Heq. injection Heq as ->.
  assert (Hnd : NoDup (insert_class (articleType new_row) (fit (map articleType data))))
    by (apply sorted_classes_NoDup, insert_class_sorted, fit_sorted).
  pose proof (proj1 (NoDup_nth_error _) Hnd k (S k)) as Hinj.
  assert (Hlen : (k < length (insert_class (articleType new_row)
                                           (fit (map articleType data))))%nat)
    by (apply nth_error_Some; congruence).
  specialize (Hinj Hlen). rewrite En', Hshift in Hinj. specialize (Hinj eq_refl). lia.
Qed.

Lemma new_article_type_shifts_labels_witness :
  argmax (concat example_predictions) = Returned 1%nat /\
  predicted_label example_predictions example_frame = Returned "Shirts" /\
  String.compare (articleType csv_dress) "Shirts" = Lt /\
  nth_error (fit (map articleType (csv_dress :: example_frame))) 2 = Some "Shirts" /\
  predicted_label example_predictions (csv_dress :: example_frame) = Returned "Jeans".
Proof.
  assert (Hnew : forall r, In r example_frame -> articleType r <> articleType csv_dress).
  { intros r [<- | [<- | [<- | []]]]; discriminate. }
  split; [reflexivity |]. split; [reflexivity |]. split; [reflexivity |].
  split; [| reflexivity].
  exact (proj2 (new_article_type_shifts_labels example_predictions example_frame
                  csv_dress 1 "Shirts" eq_refl eq_refl Hnew eq_refl)).
Defined.

Lemma sorted_classes_unique (l1 l2 : list string) :
  StronglySorted (fun a b => String.compare a b = Lt) l1 ->
  StronglySorted (fun a b => String.compare a b = Lt) l2 ->
  (forall x, In x l1 <-> In x l2) ->
  l1 = l2.
Proof.
  intros H1. revert l2. induction H1 as [| a l1 Hs1 IH Ha]; intros l2 H2 Hsame.
  - destruct l2 as [| b l2]; [reflexivity |].
    destruct (proj2 (Hsame b) (or_introl eq_refl)).
  - destruct H2 as [| b l2 Hs2 Hb].
    + destruct (proj1 (Hsame a) (or_introl eq_refl)).
    + rewrite Forall_forall in Ha, Hb.
      assert (Hab : a = b).
      { destruct (proj1 (Hsame a) (or_introl eq_refl)) as [Hba | Hin2]; [now symmetry |].
        destruct (proj2 (Hsame b) (or_introl eq_refl)) as [Heq | Hin1]; [exact Heq |].
        pose proof (string_compare_trans _ _ _ (Ha b Hin1) (Hb a Hin2)) as Haa.
        rewrite string_compare_refl in Haa. discriminate Haa. }
      subst b. f_equal. apply IH; [exact Hs2 |].
      intros x. split; intros Hx.
      * destruct (proj1 (Hsame x) (or_intror Hx)) as [Heq | Hin]; [| exact Hin].
        subst x. specialize (Ha a Hx). rewrite string_compare_refl in Ha.
        discriminate Ha.
      * destruct (proj2 (Hsame x) (or_intror Hx)) as [Heq | Hin]; [| exact Hin].
        subst x. specialize (Hb a Hx). rewrite string_compare_refl in Hb.
        discriminate Hb.
Qed.

(** X28. The decoded label depends on which article types occur in the
    catalog and on nothing else: two catalogs with the same article types,
    in whatever order and however many rows have each, give the same classes
    and decode every prediction to the same label, or both to ValueError. *)
Theorem label_depends_on_the_set_of_types (predictions : Matrix) (data data' : Frame) :
  (forall t, In t (map articleType data) <-> In t (map articleType data')) ->
  fit (map articleType data) = fit (map articleType data') /\
  predicted_label predictions data = predicted_label predictions data'.
Proof.
  intros Hsame.
  assert (Hfit : fit (map articleType data) = fit (map articleType data')).
  { apply sorted_classes_unique; try apply fit_sorted.
    intros x. rewrite !fit_in. apply Hsame. }
  split; [exact Hfit |]. unfold predicted_label. now rewrite Hfit.
Qed.

Lemma label_depends_on_the_set_of_types_witness :
  fit (map articleType example_frame) = ["Jeans"; "Shirts"] /\
  predicted_label example_predictions (rev example_frame ++ example_frame)%list =
    Returned "Shirts".
Proof.
  assert (Hsame : forall t, In t (map articleType example_frame) <->
                            In t (map articleType (rev example_frame ++ example_frame)%list)).
  { intros t. simpl. tauto. }
  split; [reflexivity |].
  rewrite <- (proj2 (label_depends_on_the_set_of_types example_predictions
                       example_frame (rev example_frame ++ example_frame)%list Hsame)).
  reflexivity.
Defined.

